(** * Anomaly detection over material movements: a model of [main.py]

    The pipeline of [main.py] reads a pandas DataFrame of movement records,
    scores every record inside its (unidade, material) group with a Z-score
    and with interquartile bounds, keeps the flagged records, attaches a
    monetary impact and ranks them.

    Numbers.  The program computes in binary64; this development computes in
    exact arithmetic.  Quantities are integers ([Z]), costs and statistics
    are rationals ([Q]), and a Z-score, the only place where a square root
    is taken, is kept exactly as [coef * sqrt rad] (type [surd]); section
    [SurdSemantics] relates these to Rocq's real numbers.  The exact result
    and the binary64 one can fall on different sides of a comparison or of a
    rounding tie (a score that equals the threshold, a product halfway
    between two hundredths), so the theorems about the program state what
    holds on either side: monotonicity, bounds with a margin, and the
    shape of the frames; the lemmas about the exact computation itself say
    so.  Two things are taken from the
    integer types of the program: the [qtd] column is int64 when no quantity
    is missing, and [abs] wraps on the least int64.  A missing value (NaN)
    is [None].

    Frames.  A frame is the list of its rows and a row is named by its
    position, which stands for its (unique) index label.  The library calls
    are modelled by what pandas, numpy and scipy document for them:
    [groupby(...).transform] group by group with the result written back by
    label, [stats.zscore] with its default [ddof = 0], [quantile] with linear
    interpolation, [sort_values] with its default [kind="quicksort"] as any
    function that returns the rows in descending key order, and the
    assignment of a series to a frame without rows, which makes the frame
    take the index of the series. *)

From Stdlib Require Import ZArith QArith Qround Qabs Reals Qreals Lra Lia Psatz.
From Stdlib Require Import Sorted Permutation.
From Stdlib Require Import DecimalString DecimalNat.
From stdpp Require Import base list strings sorting gmap.

Local Open Scope Q_scope.

(** ** Rounding to two decimals ([Series.round(2)], [numpy.round]) *)

(** Nearest integer, ties to the even neighbour (numpy's [rint]). *)
Definition round_half_even (x : Q) : Z :=
  let f := Qfloor x in
  match ((x - inject_Z f) ?= (1 # 2))%Q with
  | Lt => f
  | Gt => (f + 1)%Z
  | Eq => if Z.even f then f else (f + 1)%Z
  end.

(** [numpy.round(x, 2)] is [rint(x * 100) / 100]; the result is kept as a
    number of hundredths. *)
Definition round2 (x : Q) : Q :=
  round_half_even (x * 100) # 100.

(** ** Numbers of the form [coef * sqrt rad] *)

Record surd := Surd { coef : Q; rad : Q }.

(** [numpy.sqrt] of a rational. *)
Definition surd_sqrt (v : Q) : surd := Surd 1 v.

(** [d / s] for a rational [d]: d / (c * sqrt r) = (d / (c * r)) * sqrt r. *)
Definition Qdiv_surd (d : Q) (s : surd) : surd :=
  Surd (d / (coef s * rad s)) (rad s).

(** [Series.abs]. *)
Definition surd_abs (s : surd) : surd := Surd (Qabs (coef s)) (rad s).

Definition Qltb (x y : Q) : bool :=
  match x ?= y with Lt => true | _ => false end.

(** [s > t] for a rational threshold [t]. *)
Definition surd_gtb (s : surd) (t : Q) : bool :=
  if Qltb (coef s) 0
  then Qltb t 0 && Qltb (coef s * coef s * rad s) (t * t)
  else Qltb t 0 || Qltb (t * t) (coef s * coef s * rad s).

(** Nearest integer to [sqrt w], ties to even, for [0 <= w]. *)
Definition round_sqrt_half_even (w : Q) : Z :=
  let s := Z.sqrt (Qfloor (4 * w)%Q) in
  if Z.even s then (s / 2)%Z
  else if Qeq_bool (4 * w)%Q (inject_Z (s * s))
       then (if Z.even (s / 2) then s / 2 else s / 2 + 1)%Z
       else (s / 2 + 1)%Z.

(** [round(2)] of a surd: the sign of [coef] times the rounded magnitude
    of [100 * |coef| * sqrt rad = sqrt ((100 * coef)^2 * rad)]. *)
Definition surd_round2 (s : surd) : Q :=
  let w := (100 * coef s) * (100 * coef s) * rad s in
  (Z.sgn (Qnum (coef s)) * round_sqrt_half_even w) # 100.

(** ** Data model *)

(** One row of the frame built by [simulate_data]: columns [data], [unidade],
    [material], [tipo], [qtd], [custo_unit], [valor_movto].  The date is a
    day number; a missing quantity (NaN) is [None]. *)
Record MovementRecord := {
  data : Z;
  unidade : string;
  material : string;
  tipo : string;
  qtd : option Z;
  custo_unit : Q;
  valor_movto : option Q
}.

(** A frame is the list of its rows; row [i] carries the index label [i].
    A series is a list aligned with the frame, position by position. *)
Abbreviation DataFrame := (list MovementRecord).

Definition GroupKey := (string * string)%type.

Definition key_of (r : MovementRecord) : GroupKey := (unidade r, material r).

(** ** [groupby(["unidade", "material"])["qtd"].transform(f)] *)

(** Index labels of the rows of group [k], in frame order. *)
Definition group_index (df : DataFrame) (k : GroupKey) : list nat :=
  filter (λ i, key_of <$> df !! i = Some k) (seq 0 (length df)).

(** The distinct keys.  pandas visits them sorted; [transform] writes each
    group's result back at the group's own labels, so the visiting order
    does not show in the result. *)
Definition group_keys (df : DataFrame) : list GroupKey :=
  remove_dups (key_of <$> df).

(** [col[idxs]]. *)
Definition gather {A} (col : list A) (idxs : list nat) : list A :=
  omap (λ i, col !! i) idxs.

(** [out[idxs] = vals], label by label. *)
Fixpoint scatter {A} (idxs : list nat) (vals : list A) (out : list A) : list A :=
  match idxs, vals with
  | i :: idxs', v :: vals' => scatter idxs' vals' (<[i:=v]> out)
  | _, _ => out
  end.

(** One group: apply [f] to the group's [qtd] values and store the result
    under the group's labels. *)
Definition transform_step {V} (f : list (option Z) → list (option V))
    (df : DataFrame) (out : list (option V)) (k : GroupKey) : list (option V) :=
  let idxs := group_index df k in
  scatter idxs (f (gather (qtd <$> df) idxs)) out.

Definition transform {V} (f : list (option Z) → list (option V))
    (df : DataFrame) : list (option V) :=
  foldl (transform_step f df) (replicate (length df) None) (group_keys df).

(** ** Group statistics *)

(** The values left by [nan_policy="omit"] / [skipna]. *)
Definition omit_nan (x : list (option Z)) : list Z := omap (λ v, v) x.

Definition sumQ (l : list Q) : Q := foldl Qplus 0 l.

Definition mean (y : list Z) : Q :=
  sumQ (inject_Z <$> y) / inject_Z (Z.of_nat (length y)).

(** [numpy.var] with [ddof] delta degrees of freedom. *)
Definition var (ddof : nat) (y : list Z) : Q :=
  let mn := mean y in
  sumQ ((λ v, (inject_Z v - mn) * (inject_Z v - mn)) <$> y)
  / inject_Z (Z.of_nat (length y) - Z.of_nat ddof).

Definition std (ddof : nat) (y : list Z) : surd := surd_sqrt (var ddof y).

(** scipy's [_isconst]: every value equals the first one (true when empty). *)
Definition isconst (y : list Z) : bool :=
  match y with
  | [] => true
  | y0 :: _ => forallb (Z.eqb y0) y
  end.

(** [scipy.stats.zscore(x, nan_policy="omit")]: [ddof] keeps its default 0,
    the population standard deviation.  A constant input gives NaN
    everywhere; a NaN entry stays NaN.  Recent scipy releases also answer
    NaN for a group whose spread is below the rounding noise of its mean;
    among integers of moderate size only a constant group is one. *)
Definition zscore (x : list (option Z)) : list (option surd) :=
  let y := omit_nan x in
  if isconst y then (λ _ : option Z, None) <$> x
  else
    let mn := mean y in
    let sd := std 0 y in
    (λ xi : option Z, (λ v, Qdiv_surd (inject_Z v - mn) sd) <$> xi) <$> x.

(** Linear interpolation between the order statistics of the sorted values
    [y0 :: _ = y] around position [p * (n - 1)] (numpy's default
    percentile method). *)
Definition interpolate (y : list Z) (y0 : Z) (p : Q) : Q :=
  let n := length y in
  let pos := p * inject_Z (Z.of_nat n - 1) in
  let lo := Z.to_nat (Qfloor pos) in
  let hi := Nat.min (lo + 1) (n - 1) in
  let frac := pos - inject_Z (Qfloor pos) in
  let a := inject_Z (nth lo y y0) in
  let b := inject_Z (nth hi y y0) in
  a + (b - a) * frac.

(** [Series.quantile(p)]: NaN skipped, NaN for an empty series. *)
Definition quantile (x : list (option Z)) (p : Q) : option Q :=
  let y := merge_sort Z.le (omit_nan x) in
  match y with
  | [] => None
  | y0 :: _ => Some (interpolate y y0 p)
  end.

(** A scalar result is broadcast over the group. *)
Definition broadcast {V} (f : list (option Z) → option V)
    (x : list (option Z)) : list (option V) :=
  replicate (length x) (f x).

(** ** Elementwise operations on series, NaN-propagating *)

Definition lift2 {A B C} (f : A → B → C) (a : option A) (b : option B) : option C :=
  match a, b with
  | Some x, Some y => Some (f x y)
  | _, _ => None
  end.

(** A comparison with NaN is false. *)
Definition cmp2 {A B} (f : A → B → bool) (a : option A) (b : option B) : bool :=
  match a, b with
  | Some x, Some y => f x y
  | _, _ => false
  end.

(** ** The two detectors *)

Definition calc_zscore_flags (df : DataFrame) (z_thresh : Q) : list bool :=
  let zscores := transform zscore df in
  (λ z : option surd, cmp2 surd_gtb (surd_abs <$> z) (Some z_thresh)) <$> zscores.

Definition calc_iqr_flags (df : DataFrame) (k : Q) : list bool :=
  let q1 := transform (broadcast (λ x, quantile x (25 # 100))) df in
  let q3 := transform (broadcast (λ x, quantile x (75 # 100))) df in
  let iqr := zip_with (lift2 Qminus) q3 q1 in
  let lower := zip_with (lift2 Qminus) q1 ((λ v : option Q, Qmult k <$> v) <$> iqr) in
  let upper := zip_with (lift2 Qplus) q3 ((λ v : option Q, Qmult k <$> v) <$> iqr) in
  let qty := (λ r, inject_Z <$> qtd r) <$> df in
  zip_with orb (zip_with (cmp2 Qltb) qty lower)
               (zip_with (cmp2 (λ a b, Qltb b a)) qty upper).

(** ** The alert panel *)

(** A row of [df] after the three flag columns are assigned. *)
Record FlaggedRow := {
  f_index : nat;
  f_row : MovementRecord;
  flag_zscore : bool;
  flag_iqr : bool;
  flag_any : bool
}.

(** A row of the panel: the nine selected columns, under the index label
    the row had in the input frame.  Every cell can be NaN: the rows pandas
    creates when it reindexes a frame hold nothing else. *)
Record AlertEntry := {
  a_index : nat;
  a_data : option Z;
  a_unidade : option string;
  a_material : option string;
  a_tipo : option string;
  a_qtd : option Z;
  a_zscore : option Q;
  a_flag_zscore : option bool;
  a_flag_iqr : option bool;
  impacto : option Q
}.

(** [df["flag_zscore"] = ...; df["flag_iqr"] = ...;
    df["flag_any"] = df[["flag_zscore", "flag_iqr"]].any(axis=1)].
    Both series have one entry per row; a label they lacked would read as
    not flagged. *)
Definition set_flags (df : DataFrame) : list FlaggedRow :=
  let fz := calc_zscore_flags df 3 in
  let fi := calc_iqr_flags df (3 # 2) in
  imap (λ i r,
          let z := default false (fz !! i) in
          let q := default false (fi !! i) in
          {| f_index := i; f_row := r;
             flag_zscore := z; flag_iqr := q; flag_any := z || q |}) df.

(** The least int64. *)
Definition int64_min : Z := (- 2 ^ 63)%Z.

(** The dtype of the [qtd] column: int64 when no quantity is missing,
    float64, which has NaN, otherwise. *)
Definition int64_qtd (df : DataFrame) : bool :=
  forallb (λ r, bool_decide (is_Some (qtd r))) df.

(** [Series.abs].  On an int64 column numpy negates in 64 bits, and the
    least int64 is its own negation; on a float64 column the sign is
    dropped. *)
Definition abs_qtd (int64 : bool) (q : Z) : Z :=
  if int64 && (q =? int64_min)%Z then int64_min else Z.abs q.

(** [(anomalies["qtd"].abs() * anomalies["custo_unit"]).round(2)], row by
    row; [int64] is the dtype of the [qtd] column. *)
Definition impact_of (int64 : bool) (r : MovementRecord) : option Q :=
  (λ q, round2 (inject_Z (abs_qtd int64 q) * custo_unit r)) <$> qtd r.

(** The explicit Z-score column, [(...).round(2)], computed on the whole frame. *)
Definition zscore_column (df : DataFrame) : list (option Q) :=
  (λ z : option surd, surd_round2 <$> z) <$> transform zscore df.

(** [anomalies["zscore"] = (...).round(2)] aligns the series computed on
    the whole frame with the labels kept in [anomalies];
    [anomalies["impacto_R$"] = (qtd.abs() * custo_unit).round(2)]. *)
Definition mk_entry (int64 : bool) (zs : list (option Q)) (fr : FlaggedRow)
    : AlertEntry :=
  let r := f_row fr in
  {| a_index := f_index fr;
     a_data := Some (data r);
     a_unidade := Some (unidade r);
     a_material := Some (material r);
     a_tipo := Some (tipo r);
     a_qtd := qtd r;
     a_zscore := mjoin (zs !! f_index fr);
     a_flag_zscore := Some (flag_zscore fr);
     a_flag_iqr := Some (flag_iqr fr);
     impacto := impact_of int64 r |}.

(** The rows of [df[df["flag_any"]]] with their two new columns. *)
Definition flagged_rows (int64 : bool) (df : DataFrame) : list AlertEntry :=
  mk_entry int64 (zscore_column df)
    <$> filter (λ fr, flag_any fr = true) (set_flags df).

(** A row created by reindexing, under label [i]: the series being
    assigned brings its value, every other column is NaN, and so is the
    impact computed from them afterwards. *)
Definition reindexed_entry (zs : list (option Q)) (i : nat) : AlertEntry :=
  {| a_index := i;
     a_data := None; a_unidade := None; a_material := None; a_tipo := None;
     a_qtd := None;
     a_zscore := mjoin (zs !! i);
     a_flag_zscore := None; a_flag_iqr := None;
     impacto := None |}.

(** The panel before it is sorted.  [anomalies["zscore"] = ...] assigns a
    series indexed like [df].  When [anomalies] has rows, the series is
    aligned with them.  When it has none and the series is not empty,
    pandas gives [anomalies] the index of the series ([not len(self.index)
    and len(value) > 0] in [DataFrame._ensure_valid_index]): the frame
    gets one row per row of [df], NaN in every column it had. *)
Definition alert_rows_of (int64 : bool) (df : DataFrame) : list AlertEntry :=
  let anomalies := filter (λ fr, flag_any fr = true) (set_flags df) in
  let zs := zscore_column df in
  match anomalies, zs with
  | [], _ :: _ => reindexed_entry zs <$> seq 0 (length df)
  | _, _ => mk_entry int64 zs <$> anomalies
  end.

Definition alert_rows (df : DataFrame) : list AlertEntry :=
  alert_rows_of (int64_qtd df) df.

(** Descending order on the sort key, NaN last. *)
Definition impacto_ge (a b : AlertEntry) : Prop :=
  match impacto a, impacto b with
  | Some x, Some y => y <= x
  | _, None => True
  | None, Some _ => False
  end.

(** [DataFrame.sort_values("impacto_R$", ascending=False)] with the default
    [kind="quicksort"]: the rows come back rearranged in descending key
    order; numpy leaves the relative order of equal keys to the
    implementation. *)
Class SortValues (sort_values : list AlertEntry → list AlertEntry) : Prop := {
  sort_values_perm : ∀ l, sort_values l ≡ₚ l;
  sort_values_sorted : ∀ l, Sorted impacto_ge (sort_values l)
}.

Definition build_alert_panel (sort_values : list AlertEntry → list AlertEntry)
    (df : DataFrame) : list AlertEntry :=
  sort_values (alert_rows df).

(** [anomalies["impacto_R$"].sum().round(2)] on a float64 column; [sum]
    skips NaN and is 0.0 when nothing is left.  (On a column of dtype
    object the call fails: see [Store.estimate_financial_impact].) *)
Definition estimate_financial_impact (anomalies : list AlertEntry) : Q :=
  round2 (sumQ (omap impacto anomalies)).

(** ** Objects: which frames the functions create and which they write *)

(** The functions above work on values.  This module follows
    [build_alert_panel] and [estimate_financial_impact] statement by
    statement over a store of DataFrame objects, to tell the object a caller
    passes in from the copies the function assigns columns to, and a frame
    with numeric columns from one whose columns have dtype object. *)
Module Store.

(** A DataFrame object with its rows as generated: its index, the seven
    generated columns with the dtype of [qtd], and the columns assigned
    later, absent until then. *)
Record frame := Frame {
  index : list nat;
  rows : list MovementRecord;
  qtd_int64 : bool;
  col_flag_zscore : option (list bool);
  col_flag_iqr : option (list bool);
  col_flag_any : option (list bool);
  col_zscore : option (list (option Q));
  col_impacto : option (list (option Q))
}.

(** A frame of generated rows without extra column.  The rows are named
    by position: the frame [simulate_data] returns carries, after its
    [sort_values], the labels of the range in another order, and is
    relabelled here. *)
Definition generated (df : DataFrame) : frame :=
  Frame (seq 0 (length df)) df (int64_qtd df) None None None None None.

(** The dtype of the columns of a frame or of the impact column of a
    panel: numbers (int64, float64), or Python objects. *)
Inductive dtype := Numeric | Object.

(** [DF]: a frame whose columns hold numbers.  [DFobject]: a frame whose
    columns have dtype object, which is what [pd.DataFrame(rows, columns=...)]
    builds when [rows] is empty.  [Reindexed]: a frame that has taken the
    index [idx] of a series assigned to it; its earlier columns hold NaN in
    every row, [zs] is the series and [imp] the impact column, once
    assigned.  A panel holds exactly the nine selected columns. *)
Inductive object :=
| DF (fr : frame)
| DFobject (fr : frame)
| Reindexed (idx : list nat) (zs : list (option Q)) (imp : option (list (option Q)))
| Panel (p : list AlertEntry)
| PanelObject (p : list AlertEntry).

Inductive error :=
| KeyError (col : string)
| TypeError (l : nat)
| Dangling (l : nat)
| AttributeError (name : string).

Inductive result (A : Type) :=
| Ok (a : A)
| Raise (e : error).
Arguments Ok {A} a.
Arguments Raise {A} e.

Definition M (A : Type) : Type := list object → result (A * list object).

#[global] Instance M_ret : MRet M := λ A a s, Ok (a, s).
#[global] Instance M_bind : MBind M := λ A B f m s,
  match m s with
  | Ok (a, s') => f a s'
  | Raise e => Raise e
  end.

Definition raise {A} (e : error) : M A := λ _, Raise e.

Definition as_frame (d : dtype) (fr : frame) : object :=
  match d with Numeric => DF fr | Object => DFobject fr end.

Definition as_panel (d : dtype) (p : list AlertEntry) : object :=
  match d with Numeric => Panel p | Object => PanelObject p end.

(** A frame with its rows as generated. *)
Definition get_frame (l : nat) : M (dtype * frame) := λ s,
  match s !! l with
  | Some (DF fr) => Ok ((Numeric, fr), s)
  | Some (DFobject fr) => Ok ((Object, fr), s)
  | Some _ => Raise (TypeError l)
  | None => Raise (Dangling l)
  end.

(** Any frame. *)
Definition get_table (l : nat) : M object := λ s,
  match s !! l with
  | Some (Panel _) | Some (PanelObject _) => Raise (TypeError l)
  | Some o => Ok (o, s)
  | None => Raise (Dangling l)
  end.

Definition get_panel (l : nat) : M (dtype * list AlertEntry) := λ s,
  match s !! l with
  | Some (Panel p) => Ok ((Numeric, p), s)
  | Some (PanelObject p) => Ok ((Object, p), s)
  | Some _ => Raise (TypeError l)
  | None => Raise (Dangling l)
  end.

Definition alloc (o : object) : M nat := λ s, Ok (length s, s ++ [o]).

Definition put (l : nat) (o : object) : M unit := λ s,
  if decide (l < length s)%nat then Ok ((), <[l:=o]> s) else Raise (Dangling l).

(** [fr[name]]. *)
Definition column {A} (name : string) (c : option A) : M A := λ s,
  match c with
  | Some v => Ok (v, s)
  | None => Raise (KeyError name)
  end.

(** [df.copy()]. *)
Definition copy (l : nat) : M nat :=
  '(d, fr) ← get_frame l; alloc (as_frame d fr).

Definition set_flag_zscore (v : list bool) (fr : frame) : frame :=
  Frame (index fr) (rows fr) (qtd_int64 fr) (Some v) (col_flag_iqr fr)
        (col_flag_any fr) (col_zscore fr) (col_impacto fr).

Definition set_flag_iqr (v : list bool) (fr : frame) : frame :=
  Frame (index fr) (rows fr) (qtd_int64 fr) (col_flag_zscore fr) (Some v)
        (col_flag_any fr) (col_zscore fr) (col_impacto fr).

Definition set_flag_any (v : list bool) (fr : frame) : frame :=
  Frame (index fr) (rows fr) (qtd_int64 fr) (col_flag_zscore fr)
        (col_flag_iqr fr) (Some v) (col_zscore fr) (col_impacto fr).

Definition set_zscore (v : list (option Q)) (fr : frame) : frame :=
  Frame (index fr) (rows fr) (qtd_int64 fr) (col_flag_zscore fr)
        (col_flag_iqr fr) (col_flag_any fr) (Some v) (col_impacto fr).

Definition set_impacto (v : list (option Q)) (fr : frame) : frame :=
  Frame (index fr) (rows fr) (qtd_int64 fr) (col_flag_zscore fr)
        (col_flag_iqr fr) (col_flag_any fr) (col_zscore fr) (Some v).

(** The entries of a column where the boolean mask holds. *)
Definition keep {A} (mask : list bool) (col : list A) : list A :=
  snd <$> filter (λ p, p.1 = true) (zip mask col).

(** [fr[mask]]; the columns keep their dtype. *)
Definition mask_frame (m : list bool) (fr : frame) : frame :=
  Frame (keep m (index fr)) (keep m (rows fr)) (qtd_int64 fr)
        (keep m <$> col_flag_zscore fr) (keep m <$> col_flag_iqr fr)
        (keep m <$> col_flag_any fr) (keep m <$> col_zscore fr)
        (keep m <$> col_impacto fr).

(** A series indexed by [src] aligned with the index [dst]: every label
    of [dst] takes the value the series has under that label, NaN when the
    series lacks it. *)
Definition align {A} (src : list nat) (vals : list (option A))
    (dst : list nat) : list (option A) :=
  (λ l, p ← fst <$> list_find (λ l', l' = l) src; mjoin (vals !! p)) <$> dst.

(** [not len(self.index) and len(value) > 0]. *)
Definition adopts {A} (idx : list nat) (vals : list A) : bool :=
  match idx, vals with
  | [], _ :: _ => true
  | _, _ => false
  end.

(** [anomalies["zscore"] = series], the series being indexed by [src].  A
    frame without rows takes the index of a series that has some; every
    other frame gets the series aligned with its own index. *)
Definition assign_zscore (src : list nat) (vals : list (option Q))
    (o : object) : object :=
  match o with
  | DF a =>
      if adopts (index a) vals then Reindexed src vals None
      else DF (set_zscore (align src vals (index a)) a)
  | DFobject a =>
      if adopts (index a) vals then Reindexed src vals None
      else DFobject (set_zscore (align src vals (index a)) a)
  | Reindexed idx _ imp =>
      if adopts idx vals then Reindexed src vals imp
      else Reindexed idx (align src vals idx) imp
  | o => o
  end.

(** [anomalies["impacto_R$"] = (anomalies["qtd"].abs() *
    anomalies["custo_unit"]).round(2)]; both columns of a reindexed frame
    are NaN. *)
Definition assign_impacto (o : object) : object :=
  match o with
  | DF a => DF (set_impacto (impact_of (qtd_int64 a) <$> rows a) a)
  | DFobject a => DFobject (set_impacto (impact_of (qtd_int64 a) <$> rows a) a)
  | Reindexed idx zs _ => Reindexed idx zs (Some (replicate (length idx) None))
  | o => o
  end.

(** The rows of [fr[[...nine columns...]]]. *)
Definition entries_of (idx : list nat) (rs : list MovementRecord)
    (zs : list (option Q)) (fz fi : list bool) (imp : list (option Q))
    : list AlertEntry :=
  omap (λ j,
          l ← idx !! j; r ← rs !! j; z ← zs !! j;
          bz ← fz !! j; bi ← fi !! j; im ← imp !! j;
          Some {| a_index := l; a_data := Some (data r);
                  a_unidade := Some (unidade r);
                  a_material := Some (material r); a_tipo := Some (tipo r);
                  a_qtd := qtd r; a_zscore := z;
                  a_flag_zscore := Some bz; a_flag_iqr := Some bi;
                  impacto := im |})
       (seq 0 (length idx)).

(** The same on a reindexed frame. *)
Definition reindexed_entries (idx : list nat) (zs imp : list (option Q))
    : list AlertEntry :=
  omap (λ j,
          l ← idx !! j; z ← zs !! j; im ← imp !! j;
          Some {| a_index := l; a_data := None; a_unidade := None;
                  a_material := None; a_tipo := None; a_qtd := None;
                  a_zscore := z; a_flag_zscore := None; a_flag_iqr := None;
                  impacto := im |})
       (seq 0 (length idx)).

Definition select_frame (fr : frame) : M (list AlertEntry) :=
  zs ← column "zscore" (col_zscore fr);
  fz ← column "flag_zscore" (col_flag_zscore fr);
  fi ← column "flag_iqr" (col_flag_iqr fr);
  imp ← column "impacto_R$" (col_impacto fr);
  mret (entries_of (index fr) (rows fr) zs fz fi imp).

(** [anomalies[[...]]]: the selection, with the dtype of its impact
    column. *)
Definition select_columns (o : object) : M object :=
  match o with
  | DF a => sel ← select_frame a; mret (Panel sel)
  | DFobject a => sel ← select_frame a; mret (PanelObject sel)
  | Reindexed idx zs imp =>
      imp ← column "impacto_R$" imp;
      mret (Panel (reindexed_entries idx zs imp))
  | o => mret o
  end.

Definition build_alert_panel
    (sort_values : list AlertEntry → list AlertEntry) (df : nat) : M nat :=
  df ← copy df;
  '(d, fr) ← get_frame df;
  put df (as_frame d (set_flag_zscore (calc_zscore_flags (rows fr) 3) fr));;
  '(d, fr) ← get_frame df;
  put df (as_frame d (set_flag_iqr (calc_iqr_flags (rows fr) (3 # 2)) fr));;
  '(d, fr) ← get_frame df;
  fz ← column "flag_zscore" (col_flag_zscore fr);
  fi ← column "flag_iqr" (col_flag_iqr fr);
  put df (as_frame d (set_flag_any (zip_with orb fz fi) fr));;
  '(d, fr) ← get_frame df;
  m ← column "flag_any" (col_flag_any fr);
  masked ← alloc (as_frame d (mask_frame m fr));
  anomalies ← copy masked;
  '(_, fr) ← get_frame df;
  a ← get_table anomalies;
  put anomalies (assign_zscore (index fr) (zscore_column (rows fr)) a);;
  a ← get_table anomalies;
  put anomalies (assign_impacto a);;
  a ← get_table anomalies;
  sel ← select_columns a;
  selected ← alloc sel;
  '(d, p) ← get_panel selected;
  alloc (as_panel d (sort_values p)).

(** [anomalies["impacto_R$"].sum().round(2)].  The sum of a float64 column
    is a float64, which has [round].  The sum of a column of dtype object
    is a Python number (the int 0 when the column is empty), which has
    not. *)
Definition estimate_financial_impact (anomalies : nat) : M Q :=
  '(d, p) ← get_panel anomalies;
  match d with
  | Numeric => mret (estimate_financial_impact p)
  | Object => raise (AttributeError "round")
  end.

(** The script's steps 5.2 and 5.4 on a frame already in the store. *)
Definition run_pipeline
    (sort_values : list AlertEntry → list AlertEntry) (df : nat)
    : M (nat * Q) :=
  painel ← build_alert_panel sort_values df;
  impacto_total ← estimate_financial_impact painel;
  mret (painel, impacto_total).

(** The object [simulate_data] returns for the rows [df]:
    [pd.DataFrame(rows, columns=...)] infers int64 and float64 columns from
    rows, and finds nothing to infer them from when there is no row. *)
Definition simulated (df : DataFrame) : object :=
  match df with
  | [] => DFobject (generated [])
  | _ => DF (generated df)
  end.

End Store.

(** ** Notions used in the statements *)

(** The [qtd] column of the rows of group [k], in frame order, and its
    non-missing values. *)
Definition group_col (df : DataFrame) (k : GroupKey) : list (option Z) :=
  qtd <$> filter (λ r, key_of r = k) df.

Definition group_values (df : DataFrame) (k : GroupKey) : list Z :=
  omit_nan (group_col df k).

(** The score [zscore] gives a record inside its group. *)
Definition record_zscore (df : DataFrame) (r : MovementRecord) : option surd :=
  let y := group_values df (key_of r) in
  if isconst y then None
  else (λ q, Qdiv_surd (inject_Z q - mean y) (std 0 y)) <$> qtd r.

(** The Z-score flag as the specification words it: mean and sample
    standard deviation ([ddof = 1]) of a group of at least two values. *)
Definition zscore_flag_sample (y : list Z) (q : Z) (t : Q) : bool :=
  if (length y <? 2)%nat then false
  else surd_gtb (surd_abs (Qdiv_surd (inject_Z q - mean y) (std 1 y))) t.

(** The interquartile test on one quantity, given its group's column. *)
Definition iqr_flag_of (x : list (option Z)) (k : Q) (q : Z) : bool :=
  match quantile x (25 # 100), quantile x (75 # 100) with
  | Some q1, Some q3 =>
      let iqr := q3 - q1 in
      Qltb (inject_Z q) (q1 - k * iqr) || Qltb (q3 + k * iqr) (inject_Z q)
  | _, _ => false
  end.

(** The answers of the two detectors for one record of the frame. *)
Definition zscore_flag_at (df : DataFrame) (r : MovementRecord) (t : Q) : bool :=
  cmp2 surd_gtb (surd_abs <$> record_zscore df r) (Some t).

Definition iqr_flag_at (df : DataFrame) (r : MovementRecord) (k : Q) : bool :=
  from_option (iqr_flag_of (group_col df (key_of r)) k) false (qtd r).

(** The real number a surd stands for. *)
Definition surd_val (s : surd) : R := (Q2R (coef s) * sqrt (Q2R (rad s)))%R.

(** [k] is the integer nearest to [x], the even one of the two when [x]
    lies halfway. *)
Definition nearest_even (x : R) (k : Z) : Prop :=
  (Rabs (x - IZR k) < 1 / 2)%R ∨
  ((Rabs (x - IZR k) = 1 / 2)%R ∧ Z.even k = true).

(** The sum of the impact column, entry by entry. *)
Fixpoint total_impacto (p : list AlertEntry) : Q :=
  match p with
  | [] => 0
  | e :: p' => default 0 (impacto e) + total_impacto p'
  end.

(** Every entry is at least as large as its successor: [impact[i] >=
    impact[i+1]] for every adjacent pair, which no NaN satisfies. *)
Definition descending (p : list AlertEntry) : Prop :=
  ∀ i a b, p !! i = Some a → p !! S i = Some b →
    ∃ x y, impacto a = Some x ∧ impacto b = Some y ∧ y <= x.

(** The column [flag_any] with the default threshold and multiplier, and
    a frame none of whose rows is flagged. *)
Definition flag_any_column (df : DataFrame) : list bool :=
  zip_with orb (calc_zscore_flags df 3) (calc_iqr_flags df (3 # 2)).

Definition quiet (df : DataFrame) : Prop :=
  Forall (λ b, b = false) (flag_any_column df).

(** The panel row of a kept record [r] of label [i]. *)
Definition alert_of (int64 : bool) (df : DataFrame) (i : nat)
    (r : MovementRecord) : AlertEntry :=
  {| a_index := i; a_data := Some (data r); a_unidade := Some (unidade r);
     a_material := Some (material r); a_tipo := Some (tipo r);
     a_qtd := qtd r;
     a_zscore := surd_round2 <$> record_zscore df r;
     a_flag_zscore := Some (zscore_flag_at df r 3);
     a_flag_iqr := Some (iqr_flag_at df r (3 # 2));
     impacto := impact_of int64 r |}.

(** A panel row that holds NaN in every column but [zscore]. *)
Definition blank (e : AlertEntry) : Prop :=
  a_data e = None ∧ a_unidade e = None ∧ a_material e = None ∧
  a_tipo e = None ∧ a_qtd e = None ∧
  a_flag_zscore e = None ∧ a_flag_iqr e = None ∧ impacto e = None.


(** ** Two sorts that meet the contract of [sort_values] *)

#[global] Instance impacto_ge_dec : RelDecision impacto_ge.
Proof.
  intros a b. unfold impacto_ge.
  destruct (impacto a) as [x|], (impacto b) as [y|].
  - destruct (Qle_bool y x) eqn:E.
    + left. by apply Qle_bool_iff.
    + right. rewrite <- Qle_bool_iff. congruence.
  - left. exact I.
  - right. tauto.
  - left. exact I.
Defined.

Definition sort_values_merge (l : list AlertEntry) : list AlertEntry :=
  merge_sort impacto_ge l.

Definition sort_values_rev (l : list AlertEntry) : list AlertEntry :=
  merge_sort impacto_ge (reverse l).

(** ** Sample frames *)

Definition movement (d : Z) (u m t : string) (q : option Z) (c : Q)
    : MovementRecord :=
  {| data := d; unidade := u; material := m; tipo := t; qtd := q;
     custo_unit := c; valor_movto := (λ v, inject_Z v * c) <$> q |}.

(** Group (U01, MAT-001) holds 20, 21, 19, 20, -200, 18; two rows of another
    unit sit in between. *)
Definition df_scenario : DataFrame :=
  [ movement 1 "U01" "MAT-001" "entrada" (Some 20%Z) (25 # 2);
    movement 1 "U02" "MAT-001" "entrada" (Some 5%Z) (25 # 2);
    movement 2 "U01" "MAT-001" "entrada" (Some 21%Z) (25 # 2);
    movement 3 "U01" "MAT-001" "entrada" (Some 19%Z) (25 # 2);
    movement 4 "U01" "MAT-001" "entrada" (Some 20%Z) (25 # 2);
    movement 4 "U02" "MAT-001" "entrada" (Some 5%Z) (25 # 2);
    movement 5 "U01" "MAT-001" "saida" (Some (-200)%Z) (25 # 2);
    movement 6 "U01" "MAT-001" "entrada" (Some 18%Z) (25 # 2) ].

(** One group of eleven values; the last one, 50, lies 3.12 population
    standard deviations and 2.98 sample standard deviations from the mean. *)
Definition df_eleven : DataFrame :=
  (λ q, movement 1 "U01" "MAT-002" "entrada" (Some q) 10)
    <$> [20; 21; 19; 20; 18; 22; 19; 21; 20; 17; 50]%Z.

(** The scenario group in two units: rows 4 and 10 are both flagged and
    have the same impact. *)
Definition df_ties : DataFrame :=
  ((λ q, movement 1 "U01" "MAT-001" "saida" (Some q) (25 # 2))
     <$> [20; 21; 19; 20; -200; 18]%Z) ++
  ((λ q, movement 1 "U02" "MAT-001" "saida" (Some q) (25 # 2))
     <$> [20; 21; 19; 20; -200; 18]%Z).

(** The panel row of a -200 movement of the scenario group, at label [i]
    in unit [u]. *)
Definition scenario_alert (i : nat) (u : string) : AlertEntry :=
  {| a_index := i; a_data := Some 1%Z; a_unidade := Some u;
     a_material := Some "MAT-001"; a_tipo := Some "saida";
     a_qtd := Some (-200)%Z; a_zscore := Some (-224 # 100);
     a_flag_zscore := Some false; a_flag_iqr := Some true;
     impacto := Some (250000 # 100) |}.

(** Two groups with one flagged record each, of impacts 200 x 12.50 and
    100 x 10. *)
Definition df_ranked : DataFrame :=
  ((λ q, movement 1 "U01" "MAT-001" "saida" (Some q) 10)
     <$> [20; 21; 19; 20; -100; 18]%Z) ++
  ((λ q, movement 1 "U02" "MAT-001" "saida" (Some q) (25 # 2))
     <$> [20; 21; 19; 20; -200; 18]%Z).

(** The scenario group with -200 replaced by the least int64: no quantity
    is missing, the [qtd] column is int64. *)
Definition df_wrap : DataFrame :=
  (λ q, movement 1 "U01" "MAT-001" "saida" (Some q) (25 # 2))
    <$> [20; 21; 19; 20; int64_min; 18]%Z.

(** The scenario group with one more row whose quantity is missing. *)
Definition df_missing : DataFrame :=
  df_scenario ++ [ movement 7 "U01" "MAT-001" "saida" None (25 # 2) ].

(** ** The record generator ([simulate_data]) *)

(** [numpy.random.Generator] as [simulate_data] uses it: the generator made
    from a seed and its four draws, each returning the value drawn and the
    next state of the generator. *)
Class Generator (G : Type) := {
  default_rng : Z → G;
  poisson : Q → G → nat * G;
  random : G → Q * G;
  integers : Z → Z → G → Z * G;
  uniform : Q → Q → G → Q * G
}.

(** The ranges numpy documents for the draws: [random] in [0, 1),
    [integers(low, high)] in [low, high), [uniform(low, high)] in
    [low, high); a Poisson draw is a natural number. *)
Class GeneratorRanges (G : Type) `{!Generator G} : Prop := {
  random_range : ∀ g : G, 0 <= (random g).1 ∧ (random g).1 < 1;
  integers_range : ∀ (lo hi : Z) (g : G),
    (lo < hi)%Z → (lo ≤ (integers lo hi g).1 < hi)%Z;
  uniform_range : ∀ (lo hi : Q) (g : G),
    lo < hi → lo <= (uniform lo hi g).1 ∧ (uniform lo hi g).1 < hi
}.

(** A row of [rows]: [[date, unit, mat, tipo, qty]]. *)
Record RawRow := {
  raw_data : Z;
  raw_unidade : string;
  raw_material : string;
  raw_tipo : string;
  raw_qtd : Z
}.

(** [f"{n:0{width}d}"] for a natural number: its decimal digits, padded on
    the left with zeros up to [width] characters. *)
Definition format_d (width n : nat) : string :=
  let digits := NilZero.string_of_uint (Nat.to_uint n) in
  String.string_of_list_ascii (replicate (width - String.length digits) (Ascii.ascii_of_nat 48))
  +:+ digits.

(** [[f"U{u+1:02d}" for u in range(n_units)]]. *)
Definition unit_names (n_units : nat) : list string :=
  (λ u, "U" +:+ format_d 2 (u + 1)) <$> seq 0 n_units.

(** [[f"MAT-{m+1:03d}" for m in range(n_materials)]]. *)
Definition material_names (n_materials : nat) : list string :=
  (λ m, "MAT-" +:+ format_d 3 (m + 1)) <$> seq 0 n_materials.

(** [pd.date_range(end=today, periods=days)]: the [days] consecutive days
    that end today. *)
Definition date_range (today : Z) (days : nat) : list Z :=
  (λ d, today - Z.of_nat days + 1 + Z.of_nat d)%Z <$> seq 0 days.

(** [sort_values("data")]: ascending, with the default [kind="quicksort"],
    which is not stable; as for the panel, the sort is known by its
    contract. *)
Class SortByData (sort_by_data : list RawRow → list RawRow) : Prop := {
  sort_by_data_perm : ∀ l, sort_by_data l ≡ₚ l;
  sort_by_data_sorted :
    ∀ l, Sorted (λ a b, (raw_data a ≤ raw_data b)%Z) (sort_by_data l)
}.

Section Simulate.
Context {G : Type} `{!Generator G}.

(** The body of the innermost loop: two draws and two rows for the cell,
    and with probability 2% a third row with an anomalous quantity. *)
Definition simulate_cell (date : Z) (unit mat : string)
    (st : list RawRow * G) : list RawRow * G :=
  let '(rows, rng) := st in
  let '(in_qty, rng) := poisson 20 rng in
  let '(out_qty, rng) := poisson 18 rng in
  let rows := rows ++ [ {| raw_data := date; raw_unidade := unit;
                           raw_material := mat; raw_tipo := "entrada";
                           raw_qtd := Z.of_nat in_qty |} ] in
  let rows := rows ++ [ {| raw_data := date; raw_unidade := unit;
                           raw_material := mat; raw_tipo := "saida";
                           raw_qtd := - Z.of_nat out_qty |} ] in
  let '(u, rng) := random rng in
  if Qltb u (2 # 100)
  then
    let '(anomaly, rng) := integers (-150) 150 rng in
    (rows ++ [ {| raw_data := date; raw_unidade := unit;
                  raw_material := mat; raw_tipo := "saida";
                  raw_qtd := anomaly |} ], rng)
  else (rows, rng).

(** The three nested loops. *)
Definition simulate_rows (dates : list Z) (units materials : list string)
    (rng : G) : list RawRow * G :=
  foldl (λ st date,
           foldl (λ st unit,
                    foldl (λ st mat, simulate_cell date unit mat st) st materials)
                 st units)
        ([], rng) dates.

(** [{mat: rng.uniform(5, 40) for mat in materials}]. *)
Definition draw_costs (materials : list string) (rng : G) : gmap string Q * G :=
  foldl (λ '(cost_map, rng) mat,
           let '(c, rng) := uniform 5 40 rng in (<[mat:=c]> cost_map, rng))
        (∅, rng) materials.

(** [df["custo_unit"] = df["material"].map(cost_map)] and
    [df["valor_movto"] = df["qtd"] * df["custo_unit"]] on one row.  A
    material missing from the map would get a NaN cost, which the record
    cannot hold: the row is then [None]. *)
Definition attach_cost (cost_map : gmap string Q) (raw : RawRow)
    : option MovementRecord :=
  c ← cost_map !! raw_material raw;
  Some {| data := raw_data raw; unidade := raw_unidade raw;
          material := raw_material raw; tipo := raw_tipo raw;
          qtd := Some (raw_qtd raw); custo_unit := c;
          valor_movto := Some (inject_Z (raw_qtd raw) * c) |}.

(** [simulate_data]; [today] is the day [pd.Timestamp.today()] returns. *)
Definition simulate_data (sort_by_data : list RawRow → list RawRow)
    (today : Z) (n_units n_materials days : nat) (seed : Z)
    : option DataFrame :=
  let rng := default_rng seed in
  let dates := date_range today days in
  let units := unit_names n_units in
  let materials := material_names n_materials in
  let '(rows, rng) := simulate_rows dates units materials rng in
  let df := sort_by_data rows in
  let '(cost_map, _) := draw_costs materials rng in
  mapM (attach_cost cost_map) df.

(** The rows before the sort, and the cost map, of a call. *)
Definition simulated_rows (today : Z) (n_units n_materials days : nat)
    (seed : Z) : list RawRow :=
  (simulate_rows (date_range today days) (unit_names n_units)
                 (material_names n_materials) (default_rng seed)).1.

Definition simulated_costs (today : Z) (n_units n_materials days : nat)
    (seed : Z) : gmap string Q :=
  (draw_costs (material_names n_materials)
     (simulate_rows (date_range today days) (unit_names n_units)
                    (material_names n_materials) (default_rng seed)).2).1.

(** What one visit of a cell appends, and the generator it leaves. *)
Definition cell_rows (c : Z * string * string) (rng : G) : list RawRow :=
  (simulate_cell c.1.1 c.1.2 c.2 ([], rng)).1.

Definition cell_rng (c : Z * string * string) (rng : G) : G :=
  (simulate_cell c.1.1 c.1.2 c.2 ([], rng)).2.

End Simulate.

(** The cells the three loops visit, in the order of the visits. *)
Definition cells (dates : list Z) (units materials : list string)
    : list (Z * string * string) :=
  d ← dates; u ← units; (λ m, (d, u, m)) <$> materials.

Definition raw_key (r : RawRow) : GroupKey := (raw_unidade r, raw_material r).

(** A row carries the date, unit and material of cell [c] and one of the two
    movement types. *)
Definition raw_in_cell (c : Z * string * string) (r : RawRow) : Prop :=
  raw_data r = c.1.1 ∧ raw_key r = (c.1.2, c.2) ∧
  (raw_tipo r = "entrada" ∨ raw_tipo r = "saida").

(** Entries are not negative; exits, anomalies included, stay below 150. *)
Definition raw_qtd_ok (r : RawRow) : Prop :=
  (raw_tipo r = "entrada" ∧ (0 ≤ raw_qtd r)%Z) ∨
  (raw_tipo r = "saida" ∧ (raw_qtd r < 150)%Z).

(** A generator for running the model: its state is a counter and every
    draw is computed from it. *)
#[global] Instance counter_rng : Generator nat := {|
  default_rng seed := Z.to_nat seed;
  poisson lam g := (Z.to_nat (Qfloor lam) + g `mod` 5, S g)%nat;
  random g := (Z.of_nat (g `mod` 50) # 50, S g);
  integers lo hi g := ((lo + Z.of_nat g `mod` (hi - lo))%Z, S g);
  uniform lo hi g := (lo + (hi - lo) * (Z.of_nat (g `mod` 7) # 7), S g)
|}.

#[global] Instance raw_data_le_dec :
  RelDecision (λ a b : RawRow, (raw_data a ≤ raw_data b)%Z).
Proof. intros a b. apply Z_le_dec. Defined.

Definition sort_by_data_merge (l : list RawRow) : list RawRow :=
  merge_sort (λ a b, (raw_data a ≤ raw_data b)%Z) l.


(** Two units, two materials and two days drawn with the counter generator;
    the first cell gets an anomaly. *)
Definition df_simulated : DataFrame :=
  Eval vm_compute in
    default [] (simulate_data sort_by_data_merge 100 2 2 2 48).

(** One unit, one material and one day: an entry of 22 and an exit of 21,
    neither of them flagged. *)
Definition df_quiet : DataFrame :=
  Eval vm_compute in
    default [] (simulate_data sort_by_data_merge 100 1 1 1 47).

(** * Properties of the model *)

(** ** Rounding and surds on examples *)

Example round2_ex1 : round2 (1234567 # 1000) = 123457 # 100.
Proof. reflexivity. Qed.

Example round2_ex2 : round2 (2125 # 1000) = 212 # 100 /\ round2 (2135 # 1000) = 214 # 100
                     /\ round2 (- (2125 # 1000)) = - (212 # 100).
Proof. repeat split. Qed.

(** -200 in a group of mean -17 and variance 40192/6: the score
    -183 / sqrt (40192/6) = -2.2359... rounds to -2.24. *)
Example surd_round2_ex :
  surd_round2 (Qdiv_surd (-183) (surd_sqrt (40192 # 6))) = - (224 # 100).
Proof. reflexivity. Qed.


Local Close Scope Q_scope.

(** ** Writing a group's result back by label *)

Section Scatter.
Context {A : Type}.
Implicit Types (idxs : list nat) (vals out : list A).

Lemma length_scatter idxs vals out :
  length (scatter idxs vals out) = length out.
Proof.
  revert vals out.
  induction idxs as [|i idxs IH]; intros [|v vals] out; simpl; try done.
  rewrite IH. apply length_insert.
Qed.

Lemma scatter_lookup_notin idxs vals out i :
  i ∉ idxs → scatter idxs vals out !! i = out !! i.
Proof.
  revert vals out.
  induction idxs as [|i' idxs IH]; intros [|v vals] out Hi; simpl; try done.
  apply not_elem_of_cons in Hi as [Hne Hi].
  rewrite IH by done. by apply list_lookup_insert_ne.
Qed.

Lemma scatter_lookup_in idxs vals out i j v :
  NoDup idxs → idxs !! j = Some i → vals !! j = Some v →
  i < length out → scatter idxs vals out !! i = Some v.
Proof.
  revert vals out j.
  induction idxs as [|i' idxs IH]; intros [|v' vals] out [|j] Hnd Hi Hv Hlen;
    simplify_eq/=.
  - apply NoDup_cons in Hnd as [Hnotin _].
    rewrite scatter_lookup_notin by done. by apply list_lookup_insert_eq.
  - apply NoDup_cons in Hnd as [_ Hnd].
    eapply IH; eauto. by rewrite length_insert.
Qed.
End Scatter.

(** ** Groups *)

Lemma elem_of_group_index df k i :
  i ∈ group_index df k ↔ key_of <$> df !! i = Some k.
Proof.
  unfold group_index. rewrite list_elem_of_filter, elem_of_seq.
  split; [tauto|]. intros H; split; [done|].
  destruct (df !! i) eqn:E; [|done].
  apply lookup_lt_Some in E. lia.
Qed.

Lemma NoDup_group_index df k : NoDup (group_index df k).
Proof. apply NoDup_filter, NoDup_seq. Qed.

Lemma group_index_cons r df k :
  group_index (r :: df) k =
  (if decide (key_of r = k) then [0%nat] else []) ++ (S <$> group_index df k).
Proof.
  unfold group_index. simpl length. rewrite <- cons_seq, <- fmap_S_seq.
  rewrite filter_cons. simpl. generalize (seq 0 (length df)). intros l.
  assert (filter (λ i, key_of <$> (r :: df) !! i = Some k) (S <$> l)
          = S <$> filter (λ i, key_of <$> df !! i = Some k) l) as Hl.
  { induction l as [|a l IH]; [done|].
    rewrite fmap_cons, !filter_cons. simpl. rewrite IH.
    by destruct (decide _). }
  destruct (decide (Some (key_of r) = Some k)) as [E|E];
    destruct (decide (key_of r = k)) as [E'|E']; simpl;
    by (f_equal; exact Hl) || congruence.
Qed.

Lemma gather_cons_S {A} (c : A) col idxs :
  gather (c :: col) (S <$> idxs) = gather col idxs.
Proof.
  unfold gather. induction idxs as [|i idxs IH]; [done|].
  rewrite fmap_cons. cbn. rewrite <- IH. done.
Qed.

Lemma gather_cons_0 {A} (c : A) col idxs :
  gather (c :: col) (0%nat :: idxs) = c :: gather (c :: col) idxs.
Proof. done. Qed.

Lemma gather_group_index df k :
  gather (qtd <$> df) (group_index df k) = group_col df k.
Proof.
  unfold group_col. induction df as [|r df IH]; [done|].
  rewrite group_index_cons, fmap_cons, filter_cons.
  destruct (decide (key_of r = k)); simpl app.
  - by rewrite gather_cons_0, gather_cons_S, IH.
  - by rewrite gather_cons_S, IH.
Qed.

Lemma gather_lookup {A} (col : list A) idxs j i :
  Forall (λ i, is_Some (col !! i)) idxs →
  idxs !! j = Some i → gather col idxs !! j = col !! i.
Proof.
  unfold gather. intros Hall. revert j.
  induction Hall as [|i' idxs [c Hc] Hall IH]; intros [|j] Hj; try done;
    cbn in *; rewrite Hc; simpl.
  - congruence.
  - by apply IH.
Qed.

Lemma group_index_valid df k :
  Forall (λ i, is_Some ((qtd <$> df) !! i)) (group_index df k).
Proof.
  apply Forall_forall. intros i Hi. apply elem_of_group_index in Hi.
  rewrite list_lookup_fmap. destruct (df !! i); [by eexists|done].
Qed.

Lemma length_gather {A} (col : list A) idxs :
  Forall (λ i, is_Some (col !! i)) idxs → length (gather col idxs) = length idxs.
Proof.
  unfold gather. induction 1 as [|i idxs [c Hc] Hall IH]; [done|].
  cbn. rewrite Hc. simpl. by rewrite IH.
Qed.

Lemma length_group_col df k :
  length (group_col df k) = length (group_index df k).
Proof.
  rewrite <- gather_group_index. apply length_gather, group_index_valid.
Qed.

(** The place of a row inside its group. *)
Lemma group_col_lookup df k j i :
  group_index df k !! j = Some i → group_col df k !! j = qtd <$> df !! i.
Proof.
  intros Hj. rewrite <- gather_group_index, <- list_lookup_fmap.
  eapply gather_lookup; [apply group_index_valid|done].
Qed.

Lemma group_rank df i r :
  df !! i = Some r → ∃ j, group_index df (key_of r) !! j = Some i.
Proof.
  intros Hi. apply list_elem_of_lookup, elem_of_group_index. by rewrite Hi.
Qed.

(** ** [transform] computes each group on its own *)

Section Transform.
Context {V : Type} (f : list (option Z) → list (option V)).
Hypothesis f_length : ∀ x, length (f x) = length x.

Lemma length_transform df : length (transform f df) = length df.
Proof.
  unfold transform.
  assert (∀ ks out, length (foldl (transform_step f df) out ks) = length out) as H.
  { induction ks as [|k ks IH]; intros out; simpl; [done|].
    rewrite IH. apply length_scatter. }
  rewrite H. apply length_replicate.
Qed.

Lemma transform_lookup df i r j :
  df !! i = Some r →
  group_index df (key_of r) !! j = Some i →
  transform f df !! i = f (group_col df (key_of r)) !! j.
Proof.
  intros Hi Hj. unfold transform.
  assert (∀ ks out, NoDup ks → length out = length df →
            foldl (transform_step f df) out ks !! i =
            if decide (key_of r ∈ ks)
            then f (group_col df (key_of r)) !! j else out !! i) as H.
  { induction ks as [|k ks IH]; intros out Hnd Hlen; simpl; [done|].
    apply NoDup_cons in Hnd as [Hk Hnd].
    rewrite IH by (done || by unfold transform_step; rewrite length_scatter).
    destruct (decide (key_of r ∈ ks)) as [Hin|Hnin].
    - rewrite decide_True by (by right). done.
    - destruct (decide (key_of r = k)) as [<-|Hne].
      + rewrite decide_True by (by left). unfold transform_step.
        rewrite gather_group_index.
        assert (is_Some (f (group_col df (key_of r)) !! j)) as [v Hv].
        { apply lookup_lt_is_Some. rewrite f_length, length_group_col.
          by eapply lookup_lt_Some. }
        rewrite Hv. eapply scatter_lookup_in; eauto using NoDup_group_index.
        rewrite Hlen. by eapply lookup_lt_Some.
      + rewrite decide_False by (rewrite elem_of_cons; tauto).
        unfold transform_step. apply scatter_lookup_notin.
        rewrite elem_of_group_index, Hi. simpl. congruence. }
  rewrite H.
  - rewrite decide_True; [done|]. unfold group_keys.
    rewrite elem_of_remove_dups. apply list_elem_of_fmap.
    exists r. split; [done|]. by eapply list_elem_of_lookup_2.
  - apply NoDup_remove_dups.
  - apply length_replicate.
Qed.
End Transform.

(** ** The detectors, row by row *)

Lemma length_zscore x : length (zscore x) = length x.
Proof. unfold zscore. destruct (isconst _); by rewrite length_fmap. Qed.

Lemma length_broadcast {V} (g : list (option Z) → option V) x :
  length (broadcast g x) = length x.
Proof. apply length_replicate. Qed.

Lemma transform_zscore_lookup df i r :
  df !! i = Some r → transform zscore df !! i = Some (record_zscore df r).
Proof.
  intros Hi. destruct (group_rank df i r Hi) as [j Hj].
  rewrite (transform_lookup zscore length_zscore df i r j Hi Hj).
  pose proof (group_col_lookup df _ j i Hj) as Hc. rewrite Hi in Hc. simpl in Hc.
  unfold zscore, record_zscore, group_values.
  destruct (isconst _); by rewrite list_lookup_fmap, Hc.
Qed.

Lemma transform_broadcast_lookup {V} (g : list (option Z) → option V) df i r :
  df !! i = Some r →
  transform (broadcast g) df !! i = Some (g (group_col df (key_of r))).
Proof.
  intros Hi. destruct (group_rank df i r Hi) as [j Hj].
  rewrite (transform_lookup _ (length_broadcast g) df i r j Hi Hj).
  apply lookup_replicate_2. rewrite length_group_col. by eapply lookup_lt_Some.
Qed.

Lemma length_calc_zscore_flags df t : length (calc_zscore_flags df t) = length df.
Proof.
  unfold calc_zscore_flags. rewrite length_fmap.
  apply length_transform.
Qed.

Lemma length_calc_iqr_flags df k : length (calc_iqr_flags df k) = length df.
Proof.
  unfold calc_iqr_flags.
  rewrite !length_zip_with, !length_fmap, !length_zip_with,
    !length_transform.
  lia.
Qed.

Lemma calc_zscore_flags_lookup df t i r :
  df !! i = Some r →
  calc_zscore_flags df t !! i = Some (zscore_flag_at df r t).
Proof.
  intros Hi. unfold calc_zscore_flags.
  by rewrite list_lookup_fmap, (transform_zscore_lookup _ _ r).
Qed.

Lemma calc_iqr_flags_lookup df k i r :
  df !! i = Some r →
  calc_iqr_flags df k !! i = Some (iqr_flag_at df r k).
Proof.
  intros Hi. unfold calc_iqr_flags.
  rewrite !lookup_zip_with, !list_lookup_fmap, !lookup_zip_with.
  rewrite !(transform_broadcast_lookup _ df i r Hi), Hi. simpl.
  unfold iqr_flag_at, iqr_flag_of.
  destruct (quantile _ (25 # 100)) as [q1|], (quantile _ (75 # 100)) as [q3|],
    (qtd r) as [q|]; simpl; try done.
Qed.

(** ** Rows of the panel *)

Lemma set_flags_lookup df i r :
  df !! i = Some r →
  set_flags df !! i =
  Some {| f_index := i; f_row := r;
          flag_zscore := zscore_flag_at df r 3;
          flag_iqr := iqr_flag_at df r (3 # 2);
          flag_any := zscore_flag_at df r 3 || iqr_flag_at df r (3 # 2) |}.
Proof.
  intros Hi. unfold set_flags. rewrite list_lookup_imap, Hi. simpl.
  by rewrite (calc_zscore_flags_lookup _ _ _ r), (calc_iqr_flags_lookup _ _ _ r).
Qed.

Lemma set_flags_elem_of df fr :
  fr ∈ set_flags df ↔
  ∃ r, df !! f_index fr = Some r ∧
       fr = {| f_index := f_index fr; f_row := r;
               flag_zscore := zscore_flag_at df r 3;
               flag_iqr := iqr_flag_at df r (3 # 2);
               flag_any := zscore_flag_at df r 3 || iqr_flag_at df r (3 # 2) |}.
Proof.
  rewrite list_elem_of_lookup. split.
  - intros [i Hi].
    destruct (df !! i) as [r|] eqn:Hr.
    + rewrite (set_flags_lookup _ _ _ Hr) in Hi. injection Hi as <-. simpl. eauto.
    + unfold set_flags in Hi. by rewrite list_lookup_imap, Hr in Hi.
  - intros (r & Hr & ->). exists (f_index fr). by apply set_flags_lookup.
Qed.

(** A flagged row has a quantity: both detectors answer false on NaN. *)
Lemma flagged_has_qtd df r :
  zscore_flag_at df r 3 || iqr_flag_at df r (3 # 2) = true → is_Some (qtd r).
Proof.
  unfold zscore_flag_at, iqr_flag_at, record_zscore.
  destruct (qtd r); [by eexists|].
  destruct (isconst _); simpl; done.
Qed.

Lemma flagged_rows_elem_of int64 df e :
  e ∈ flagged_rows int64 df ↔
  ∃ r, df !! a_index e = Some r ∧
       zscore_flag_at df r 3 || iqr_flag_at df r (3 # 2) = true ∧
       e = alert_of int64 df (a_index e) r.
Proof.
  unfold flagged_rows. rewrite list_elem_of_fmap. split.
  - intros (fr & -> & Hfr). apply list_elem_of_filter in Hfr as [Hany Hfr].
    apply set_flags_elem_of in Hfr as (r & Hr & Hfr).
    exists r. rewrite Hfr in Hany |- *. simpl in *. repeat split; [done..|].
    unfold mk_entry, alert_of, zscore_column. simpl.
    by rewrite list_lookup_fmap, (transform_zscore_lookup _ _ r).
  - intros (r & Hr & Hany & He).
    eexists {| f_index := a_index e; f_row := r |}. split.
    + rewrite He at 1. unfold mk_entry, alert_of, zscore_column. simpl.
      rewrite list_lookup_fmap, (transform_zscore_lookup _ _ r) by done.
      simpl. reflexivity.
    + apply list_elem_of_filter. split; [|apply set_flags_elem_of; eauto].
      done.
Qed.

(** *** Frames without a flagged row *)

Lemma length_flag_any_column df : length (flag_any_column df) = length df.
Proof.
  unfold flag_any_column.
  rewrite length_zip_with, length_calc_zscore_flags, length_calc_iqr_flags. lia.
Qed.

Lemma flag_any_column_lookup df i r :
  df !! i = Some r →
  flag_any_column df !! i
  = Some (zscore_flag_at df r 3 || iqr_flag_at df r (3 # 2)).
Proof.
  intros Hi. unfold flag_any_column.
  by rewrite lookup_zip_with, (calc_zscore_flags_lookup _ _ _ _ Hi),
    (calc_iqr_flags_lookup _ _ _ _ Hi).
Qed.

Lemma quiet_lookup df :
  quiet df ↔
  ∀ i r, df !! i = Some r →
         zscore_flag_at df r 3 || iqr_flag_at df r (3 # 2) = false.
Proof.
  unfold quiet. rewrite Forall_lookup. split.
  - intros H i r Hi. apply (H i). by apply flag_any_column_lookup.
  - intros H i b Hb.
    assert (is_Some (df !! i)) as [r Hr].
    { apply lookup_lt_is_Some. rewrite <- length_flag_any_column.
      by eapply lookup_lt_Some. }
    rewrite (flag_any_column_lookup _ _ _ Hr) in Hb. injection Hb as <-.
    by eapply H.
Qed.

Lemma filter_nil_elem_of {A} (P : A → Prop) `{!∀ x, Decision (P x)} (l : list A) :
  filter P l = [] ↔ ∀ x, x ∈ l → ¬ P x.
Proof.
  induction l as [|x l IH].
  - split; [|done]. intros _ y Hy. by apply elem_of_nil in Hy.
  - rewrite filter_cons. destruct (decide (P x)) as [Hx|Hx].
    + split; [done|]. intros Hall. destruct (Hall x); [by left|done].
    + rewrite IH. split.
      * intros Hall y [->|Hy]%elem_of_cons; [done|by apply Hall].
      * intros Hall y Hy. apply Hall. by right.
Qed.

Lemma quiet_no_anomalies df :
  quiet df ↔ filter (λ fr, flag_any fr = true) (set_flags df) = [].
Proof.
  rewrite quiet_lookup, filter_nil_elem_of. split.
  - intros H fr (r & Hr & ->)%set_flags_elem_of. simpl.
    rewrite (H _ _ Hr). discriminate.
  - intros H i r Hi. apply not_true_is_false. intros Hany.
    eapply (H _ (list_elem_of_lookup_2 _ _ _ (set_flags_lookup _ _ _ Hi))).
    exact Hany.
Qed.

Lemma length_zscore_column df : length (zscore_column df) = length df.
Proof.
  unfold zscore_column. rewrite length_fmap. apply length_transform.
Qed.

Lemma alert_rows_of_flagged int64 df :
  ¬ quiet df → alert_rows_of int64 df = flagged_rows int64 df.
Proof.
  intros Hq. unfold alert_rows_of, flagged_rows.
  destruct (filter _ (set_flags df)) as [|fr l] eqn:E; [|done].
  by apply quiet_no_anomalies in E.
Qed.

Lemma alert_rows_of_quiet int64 df :
  quiet df →
  alert_rows_of int64 df
  = reindexed_entry (zscore_column df) <$> seq 0 (length df).
Proof.
  intros Hq%quiet_no_anomalies. unfold alert_rows_of. rewrite Hq.
  destruct (zscore_column df) as [|z zs] eqn:E; [|done].
  assert (length df = 0) as -> by (by rewrite <- length_zscore_column, E).
  done.
Qed.

#[global] Instance quiet_dec df : Decision (quiet df).
Proof. unfold quiet. apply _. Defined.

Lemma reindexed_entry_blank zs i : blank (reindexed_entry zs i).
Proof. by repeat split. Qed.

(** The rows of the panel: the kept rows of a frame that has flagged
    rows, one blank row per row of a frame that has none. *)
Lemma alert_rows_of_elem_of int64 df e :
  e ∈ alert_rows_of int64 df ↔
  (¬ quiet df ∧ e ∈ flagged_rows int64 df) ∨
  (quiet df ∧ a_index e < length df ∧
   e = reindexed_entry (zscore_column df) (a_index e)).
Proof.
  destruct (decide (quiet df)) as [Hq|Hq].
  - rewrite (alert_rows_of_quiet _ _ Hq), list_elem_of_fmap. split.
    + intros (i & -> & Hi%elem_of_seq). right. simpl. split; [done|].
      split; [lia|done].
    + intros [[? _]|(_ & Hlt & He)]; [done|].
      exists (a_index e). split; [done|]. apply elem_of_seq. lia.
  - rewrite (alert_rows_of_flagged _ _ Hq). split.
    + intros He. by left.
    + by intros [[_ He]|[? _]].
Qed.

Lemma flagged_rows_not_blank int64 df e : e ∈ flagged_rows int64 df → ¬ blank e.
Proof.
  intros (r & _ & _ & ->)%flagged_rows_elem_of (H & _). discriminate H.
Qed.

(** The scenario of the specification: among 20, 21, 19, 20, -200, 18 the
    value -200 is flagged, by the interquartile test, and enters the panel
    with impact 200 x 12.50. *)
Example scenario_detectors :
  calc_zscore_flags df_scenario 3 = replicate 8 false ∧
  calc_iqr_flags df_scenario (3 # 2)
  = [false; false; false; false; false; false; true; false].
Proof. split; vm_compute; reflexivity. Qed.

Example scenario_panel :
  alert_rows df_scenario
  = [ {| a_index := 6; a_data := Some 5%Z; a_unidade := Some "U01";
         a_material := Some "MAT-001";
         a_tipo := Some "saida"; a_qtd := Some (-200)%Z;
         a_zscore := Some (-224 # 100)%Q;
         a_flag_zscore := Some false; a_flag_iqr := Some true;
         impacto := Some (250000 # 100)%Q |} ] ∧
  estimate_financial_impact (alert_rows df_scenario) = (250000 # 100)%Q.
Proof. split; vm_compute; reflexivity. Qed.

(** A frame of two records, neither flagged: the panel holds a blank row
    for each of them. *)
Example quiet_panel :
  flag_any_column df_quiet = [false; false] ∧
  alert_rows df_quiet
  = [ reindexed_entry [Some (100 # 100)%Q; Some (-100 # 100)%Q] 0;
      reindexed_entry [Some (100 # 100)%Q; Some (-100 # 100)%Q] 1 ].
Proof. split; vm_compute; reflexivity. Qed.

Section Panel.
Context (sort_values : list AlertEntry → list AlertEntry).
Context `{!SortValues sort_values}.

Lemma build_alert_panel_elem_of df e :
  e ∈ build_alert_panel sort_values df ↔ e ∈ alert_rows df.
Proof. unfold build_alert_panel. by rewrite sort_values_perm. Qed.

Lemma build_alert_panel_nil : build_alert_panel sort_values [] = [].
Proof.
  unfold build_alert_panel. apply Permutation_nil_r.
  exact (sort_values_perm []).
Qed.
End Panel.

(** ** The sort contract is met by merge sort, in either tie order *)

Lemma impacto_ge_total : Total impacto_ge.
Proof.
  intros a b. unfold impacto_ge.
  destruct (impacto a) as [x|], (impacto b) as [y|]; auto.
  destruct (Qlt_le_dec x y) as [Hlt|Hle]; [right|left; done].
  by apply Qlt_le_weak.
Qed.

#[global] Instance sort_values_merge_ok : SortValues sort_values_merge.
Proof.
  split; intros l; unfold sort_values_merge.
  - apply merge_sort_Permutation.
  - apply Sorted_merge_sort, impacto_ge_total.
Qed.

#[global] Instance sort_values_rev_ok : SortValues sort_values_rev.
Proof.
  split; intros l; unfold sort_values_rev.
  - rewrite merge_sort_Permutation. apply reverse_Permutation.
  - apply Sorted_merge_sort, impacto_ge_total.
Qed.

Lemma Sorted_lookup_succ {A} (R : relation A) (l : list A) i a b :
  Sorted R l → l !! i = Some a → l !! S i = Some b → R a b.
Proof.
  intros HS. revert i.
  induction HS as [|x l HS IH Hd]; intros [|i] Ha Hb; simplify_eq/=.
  - destruct Hd; by simplify_eq/=.
  - eauto.
Qed.

Lemma alert_rows_impacto df e x :
  e ∈ alert_rows df → impacto e = Some x →
  ∃ r q, df !! a_index e = Some r ∧ qtd r = Some q ∧ a_qtd e = Some q ∧
         x = round2 (inject_Z (abs_qtd (int64_qtd df) q) * custo_unit r).
Proof.
  intros [[_ He]|(_ & _ & ->)]%alert_rows_of_elem_of Hx; [|done].
  apply flagged_rows_elem_of in He as (r & Hr & Hany & He).
  destruct (flagged_has_qtd _ _ Hany) as [q Hq].
  exists r, q. split; [done|]. split; [done|].
  rewrite He in Hx |- *. simpl in *. unfold impact_of in Hx.
  rewrite Hq in Hx. simpl in Hx. split; [done|]. congruence.
Qed.

(** ** Summation *)

Lemma foldl_Qplus a l : (foldl Qplus a l == a + foldr Qplus 0 l)%Q.
Proof.
  revert a. induction l as [|x l IH]; intros a; cbn [foldl foldr].
  - ring.
  - rewrite IH. generalize (foldr Qplus 0%Q l). intros q. ring.
Qed.

Lemma sumQ_total_impacto p : (sumQ (omap impacto p) == total_impacto p)%Q.
Proof.
  unfold sumQ. rewrite foldl_Qplus.
  induction p as [|e p IH]; cbn [omap list_omap foldr total_impacto]; [ring|].
  destruct (impacto e) as [x|]; cbn [foldr default from_option Datatypes.id];
    rewrite <- IH; generalize (foldr Qplus 0%Q (omap impacto p)); intros q; ring.
Qed.

Lemma round_half_even_comp x y : (x == y)%Q → round_half_even x = round_half_even y.
Proof.
  intros E. unfold round_half_even.
  rewrite (Qfloor_comp _ _ E).
  assert (x - inject_Z (Qfloor y) == y - inject_Z (Qfloor y))%Q as E'
    by (by rewrite E).
  by rewrite (Qcompare_comp _ _ E' _ _ (Qeq_refl (1 # 2))).
Qed.

Lemma round2_comp x y : (x == y)%Q → round2 x = round2 y.
Proof.
  intros E. unfold round2. f_equal. apply round_half_even_comp. by rewrite E.
Qed.

(** ** The panel of a frame without flagged rows *)

Section QuietPanel.
Context (sort_values : list AlertEntry → list AlertEntry).
Context `{!SortValues sort_values}.

Lemma quiet_panel_elem_of df e :
  quiet df →
  e ∈ build_alert_panel sort_values df ↔
  a_index e < length df ∧ e = reindexed_entry (zscore_column df) (a_index e).
Proof.
  intros Hq. rewrite build_alert_panel_elem_of by done.
  unfold alert_rows. rewrite alert_rows_of_elem_of. split.
  - by intros [[? _]|(_ & ? & ?)].
  - intros [? ?]. by right.
Qed.

Lemma noisy_panel_elem_of df e :
  ¬ quiet df →
  e ∈ build_alert_panel sort_values df ↔ e ∈ flagged_rows (int64_qtd df) df.
Proof.
  intros Hq. rewrite build_alert_panel_elem_of by done.
  unfold alert_rows. rewrite alert_rows_of_elem_of. split.
  - by intros [[_ ?]|[? _]].
  - intros ?. by left.
Qed.

Lemma quiet_panel_length df :
  quiet df → length (build_alert_panel sort_values df) = length df.
Proof.
  intros Hq. unfold build_alert_panel, alert_rows.
  by rewrite (Permutation_length (sort_values_perm _)),
    (alert_rows_of_quiet _ _ Hq), length_fmap, length_seq.
Qed.

End QuietPanel.

(** C2 fails on a frame of two rows or more none of which is flagged:
    the panel then holds one row per row of the frame, every one without
    impact, and no two adjacent rows satisfy impact[i] >= impact[i+1]. *)
Theorem quiet_panel_not_descending sort_values `{!SortValues sort_values} df :
  quiet df → 2 ≤ length df →
  length (build_alert_panel sort_values df) = length df ∧
  (∀ e, e ∈ build_alert_panel sort_values df → impacto e = None) ∧
  ¬ descending (build_alert_panel sort_values df).
Proof.
  intros Hq Hlen.
  pose proof (quiet_panel_length sort_values df Hq) as Hl.
  assert (∀ e, e ∈ build_alert_panel sort_values df → impacto e = None) as Hnone.
  { intros e (_ & ->)%quiet_panel_elem_of; done. }
  split; [done|]. split; [done|]. intros Hd.
  destruct (lookup_lt_is_Some_2 (build_alert_panel sort_values df) 0)
    as [a Ha]; [lia|].
  destruct (lookup_lt_is_Some_2 (build_alert_panel sort_values df) 1)
    as [b Hb]; [lia|].
  destruct (Hd 0 a b Ha Hb) as (x & _ & Hx & _).
  rewrite (Hnone a) in Hx; [done|]. by eapply list_elem_of_lookup_2.
Qed.

Lemma quiet_panel_not_descending_witness :
  length (build_alert_panel sort_values_merge df_quiet) = length df_quiet ∧
  (∀ e, e ∈ build_alert_panel sort_values_merge df_quiet → impacto e = None) ∧
  ¬ descending (build_alert_panel sort_values_merge df_quiet).
Proof.
  apply (@quiet_panel_not_descending sort_values_merge sort_values_merge_ok
           df_quiet).
  - apply (bool_decide_unpack _). vm_compute. exact I.
  - vm_compute. lia.
Defined.

(** ** Flag fusion and the filter *)

(** C3 fails on a frame none of whose rows is flagged: every record of
    the frame, though flagged by neither detector, has a row in the panel,
    under its own label and blank in every column but [zscore]. *)
Theorem quiet_frame_fills_panel sort_values `{!SortValues sort_values} df i r :
  quiet df → df !! i = Some r →
  calc_zscore_flags df 3 !! i = Some false ∧
  calc_iqr_flags df (3 # 2) !! i = Some false ∧
  ∃ e, e ∈ build_alert_panel sort_values df ∧ a_index e = i ∧ blank e.
Proof.
  intros Hq Hi.
  pose proof (proj1 (quiet_lookup df) Hq i r Hi) as Hany.
  apply orb_false_iff in Hany as [Hz Hiq].
  rewrite (calc_zscore_flags_lookup _ _ _ _ Hi), (calc_iqr_flags_lookup _ _ _ _ Hi),
    Hz, Hiq.
  split; [done|]. split; [done|].
  exists (reindexed_entry (zscore_column df) i).
  split; [|split; [done|apply reindexed_entry_blank]].
  apply quiet_panel_elem_of; [done..|]. simpl. split; [|done].
  by eapply lookup_lt_Some.
Qed.

Lemma quiet_frame_fills_panel_witness :
  calc_zscore_flags df_quiet 3 !! 1%nat = Some false ∧
  calc_iqr_flags df_quiet (3 # 2) !! 1%nat = Some false ∧
  ∃ e, e ∈ build_alert_panel sort_values_merge df_quiet ∧
       a_index e = 1%nat ∧ blank e.
Proof.
  apply (@quiet_frame_fills_panel sort_values_merge sort_values_merge_ok
           df_quiet 1 (movement 100 "U01" "MAT-001" "saida" (Some (-21)%Z) (70 # 7))).
  - apply (bool_decide_unpack _). vm_compute. exact I.
  - reflexivity.
Defined.

(** ** What surds and rounding mean over the reals *)

Section SurdSemantics.
Local Open Scope R_scope.

Lemma Qltb_Rlt a b : Qltb a b = true ↔ Q2R a < Q2R b.
Proof.
  unfold Qltb. destruct (a ?= b)%Q eqn:E.
  - apply Qeq_alt in E. split; [done|]. intros H.
    apply Rlt_Qlt in H. rewrite E in H. by apply Qlt_irrefl in H.
  - apply Qlt_alt in E. split; [|done]. intros _. by apply Qlt_Rlt.
  - apply Qgt_alt in E. split; [done|]. intros H.
    apply Rlt_Qlt in H. exfalso. eapply Qlt_irrefl, Qlt_trans; eauto.
Qed.

Lemma Qltb_Qlt a b : Qltb a b = true ↔ (a < b)%Q.
Proof.
  rewrite Qltb_Rlt. split; [apply Rlt_Qlt | apply Qlt_Rlt].
Qed.

Lemma Qsq_nonneg x : (0 <= x * x)%Q.
Proof. destruct x as [n d]. unfold Qle, Qmult. simpl. nia. Qed.

Lemma Q2R_inject_Z z : Q2R (inject_Z z) = IZR z.
Proof. unfold Q2R, inject_Z. simpl. lra. Qed.

Lemma sqrt_rad_sq (r : Q) : (0 <= r)%Q → sqrt (Q2R r) * sqrt (Q2R r) = Q2R r.
Proof.
  intros H. apply sqrt_sqrt. replace 0 with (Q2R 0) by lra. by apply Qle_Rle.
Qed.

Lemma surd_val_sqrt v : surd_val (surd_sqrt v) = sqrt (Q2R v).
Proof. unfold surd_val, surd_sqrt. simpl. replace (Q2R 1) with 1 by lra. lra. Qed.

(** [(x - mean) / std] denotes the quotient of the two real numbers. *)
Lemma surd_val_div_sqrt d v :
  (0 < v)%Q → surd_val (Qdiv_surd d (surd_sqrt v)) = Q2R d / sqrt (Q2R v).
Proof.
  intros Hv. unfold surd_val, Qdiv_surd, surd_sqrt. simpl.
  assert (0 < Q2R v) as HV by (replace 0 with (Q2R 0) by lra; by apply Qlt_Rlt).
  assert (d / (1 * v) == d / v)%Q as E.
  { apply Qlt_not_eq, not_symmetry in Hv. by field. }
  rewrite (Qeq_eqR _ _ E), Q2R_div by (intros E0; rewrite E0 in Hv; by apply Qlt_irrefl in Hv).
  pose proof (sqrt_lt_R0 _ HV) as Hs.
  pose proof (sqrt_sqrt (Q2R v) (Rlt_le _ _ HV)) as Hss.
  rewrite <- Hss at 1. field. lra.
Qed.

Lemma Q2R_Qabs c : Q2R (Qabs c) = Rabs (Q2R c).
Proof.
  destruct (Qlt_le_dec c 0) as [H|H].
  - rewrite Qabs_neg by (by apply Qlt_le_weak).
    apply Qlt_Rlt in H. replace (Q2R 0) with 0 in H by lra.
    rewrite Q2R_opp, Rabs_left; lra.
  - rewrite Qabs_pos by done.
    apply Qle_Rle in H. replace (Q2R 0) with 0 in H by lra.
    rewrite Rabs_right; lra.
Qed.

Lemma surd_val_abs s : surd_val (surd_abs s) = Rabs (surd_val s).
Proof.
  unfold surd_val, surd_abs. simpl.
  rewrite Q2R_Qabs, Rabs_mult. f_equal.
  symmetry. apply Rabs_right, Rle_ge, sqrt_pos.
Qed.

(** The boolean comparison of a surd with a rational decides the order of
    the real numbers. *)
Lemma surd_gtb_spec s t :
  (0 <= rad s)%Q → surd_gtb s t = true ↔ surd_val s > Q2R t.
Proof.
  intros Hr. unfold surd_gtb, surd_val.
  pose proof (sqrt_rad_sq _ Hr) as Hy.
  pose proof (sqrt_pos (Q2R (rad s))) as Hy0.
  set (y := sqrt (Q2R (rad s))) in *.
  set (c := Q2R (coef s)). set (T := Q2R t).
  assert (Q2R (coef s * coef s * rad s) = c * c * (y * y)) as Hsq
    by (rewrite !Q2R_mult, Hy; done).
  assert (Q2R (t * t) = T * T) as Htt by (by rewrite Q2R_mult).
  assert (Q2R 0 = 0) as H0 by lra.
  assert (c * c * (y * y) = (c * y) * (c * y)) as Hp by ring.
  rewrite Hp in Hsq. clear Hp.
  destruct (Qltb (coef s) 0) eqn:Ec.
  - apply Qltb_Rlt in Ec. rewrite H0 in Ec. fold c in Ec.
    rewrite andb_true_iff, !Qltb_Rlt, Hsq, Htt, H0. fold T.
    assert (c * y <= 0) as Hcy by nra.
    generalize dependent (c * y). intros p _ Hp.
    split.
    + intros [HT Hlt]. nra.
    + intros Hgt. split; nra.
  - assert (0 <= c) as Hc.
    { destruct (Rle_lt_dec 0 c) as [|Hlt]; [done|].
      assert (Qltb (coef s) 0 = true) by (apply Qltb_Rlt; subst c; lra).
      congruence. }
    rewrite orb_true_iff, !Qltb_Rlt, Hsq, Htt, H0. fold T.
    assert (0 <= c * y) as Hcy by nra.
    generalize dependent (c * y). intros p _ Hp.
    split.
    + intros [HT|Hlt]; [lra|]. destruct (Rle_lt_dec 0 T); nra.
    + intros Hgt. destruct (Rle_lt_dec 0 T); [right|left]; nra.
Qed.

Lemma nearest_even_opp x k : nearest_even x k → nearest_even (- x) (- k).
Proof.
  unfold nearest_even. rewrite opp_IZR, Z.even_opp.
  replace (- x - - IZR k) with (- (x - IZR k)) by lra.
  by rewrite Rabs_Ropp.
Qed.

(** [round_half_even] picks the nearest integer, the even one at a tie. *)
Lemma round_half_even_nearest x : nearest_even (Q2R x) (round_half_even x).
Proof.
  unfold round_half_even, nearest_even.
  pose proof (Qfloor_le x) as Hlo. pose proof (Qlt_floor x) as Hhi.
  apply Qle_Rle in Hlo. apply Qlt_Rlt in Hhi.
  rewrite Q2R_inject_Z in Hlo. rewrite Q2R_inject_Z, plus_IZR in Hhi.
  set (f := Qfloor x) in *.
  assert (Q2R (1 # 2) = 1 / 2) as Hhalf by (unfold Q2R; simpl; lra).
  destruct ((x - inject_Z f) ?= (1 # 2))%Q eqn:E.
  - apply Qeq_alt, Qeq_eqR in E.
    rewrite Q2R_minus, Q2R_inject_Z, Hhalf in E. right.
    destruct (Z.even f) eqn:Ev.
    + split; [|done]. rewrite Rabs_right; lra.
    + split.
      * rewrite plus_IZR, Rabs_left; lra.
      * by rewrite Z.even_add, Ev.
  - apply Qlt_alt, Qlt_Rlt in E.
    rewrite Q2R_minus, Q2R_inject_Z, Hhalf in E. left.
    rewrite Rabs_right; lra.
  - apply Qgt_alt, Qlt_Rlt in E.
    rewrite Q2R_minus, Q2R_inject_Z, Hhalf in E. left.
    rewrite plus_IZR, Rabs_left; lra.
Qed.

(** [round_sqrt_half_even] picks the integer nearest to the square root. *)
Lemma round_sqrt_half_even_nearest w :
  (0 <= w)%Q → nearest_even (sqrt (Q2R w)) (round_sqrt_half_even w).
Proof.
  intros Hw. unfold round_sqrt_half_even, nearest_even.
  pose proof (sqrt_rad_sq _ Hw) as Hu.
  pose proof (sqrt_pos (Q2R w)) as Hu0.
  set (u := sqrt (Q2R w)) in *.
  assert (0 <= 4 * w)%Q as H4w by (apply Qmult_le_0_compat; [done|exact Hw]).
  pose proof (Qfloor_le (4 * w)) as Hlo. pose proof (Qlt_floor (4 * w)) as Hhi.
  apply Qle_Rle in Hlo. apply Qlt_Rlt in Hhi.
  rewrite Q2R_inject_Z, Q2R_mult in Hlo.
  rewrite Q2R_inject_Z, plus_IZR, Q2R_mult in Hhi.
  assert (Q2R 4 = 4) as H4 by (unfold Q2R; simpl; lra).
  rewrite H4, <- Hu in Hlo, Hhi.
  assert (0 <= Qfloor (4 * w))%Z as Hfl.
  { change 0%Z with (Qfloor 0). by apply Qfloor_resp_le. }
  pose proof (Z.sqrt_spec _ Hfl) as Hs. cbv zeta in Hs.
  pose proof (Z.sqrt_nonneg (Qfloor (4 * w))) as Hs0.
  set (fl := Qfloor (4 * w)) in *. set (s := Z.sqrt fl) in *.
  destruct Hs as [Hs1 Hs2].
  apply IZR_le in Hs1, Hs0. rewrite mult_IZR in Hs1.
  assert (fl + 1 <= Z.succ s * Z.succ s)%Z as Hs3 by lia.
  apply IZR_le in Hs3. rewrite mult_IZR, succ_IZR, plus_IZR in Hs3.
  assert (IZR s <= 2 * u) as Hsu1 by nra.
  assert (2 * u < IZR s + 1) as Hsu2 by nra.
  pose proof (Z_div_mod_eq_full s 2) as Hdiv.
  rewrite Zmod_even in Hdiv.
  set (m := (s / 2)%Z) in *.
  destruct (Z.even s) eqn:Ev.
  - assert (IZR s = 2 * IZR m) as Es
      by (rewrite Hdiv, plus_IZR, mult_IZR; lra).
    left. rewrite Rabs_right; lra.
  - assert (IZR s = 2 * IZR m + 1) as Es
      by (rewrite Hdiv, plus_IZR, mult_IZR; lra).
    destruct (Qeq_bool (4 * w) (inject_Z (s * s))) eqn:Eq.
    + apply Qeq_bool_iff, Qeq_eqR in Eq.
      rewrite Q2R_mult, Q2R_inject_Z, mult_IZR, H4, <- Hu in Eq.
      assert (2 * u = IZR s) as E2 by nra.
      right. destruct (Z.even m) eqn:Em.
      * split; [|done]. rewrite Rabs_right; lra.
      * split; [rewrite plus_IZR, Rabs_left; lra|].
        by rewrite Z.even_add, Em.
    + apply Qeq_bool_neq in Eq.
      assert (IZR s * IZR s <> 4 * (u * u)) as Hne.
      { intros E. apply Eq. apply eqR_Qeq.
        rewrite Q2R_mult, Q2R_inject_Z, mult_IZR, H4, <- Hu. lra. }
      assert (IZR s < 2 * u) as Hlt by nra.
      left. rewrite plus_IZR, Rabs_left; lra.
Qed.

(** [surd_round2] is the number of hundredths nearest to the surd. *)
Lemma surd_round2_nearest s :
  (0 <= rad s)%Q →
  ∃ k, surd_round2 s = (k # 100)%Q ∧ nearest_even (100 * surd_val s) k.
Proof.
  intros Hr. eexists. split; [reflexivity|].
  set (w := (100 * coef s * (100 * coef s) * rad s)%Q).
  assert (0 <= w)%Q as Hw.
  { unfold w. apply Qmult_le_0_compat; [apply Qsq_nonneg|done]. }
  pose proof (round_sqrt_half_even_nearest w Hw) as Hn.
  assert (Q2R 100 = 100) as H100 by (unfold Q2R; simpl; lra).
  assert (Q2R w = (100 * Q2R (coef s)) * (100 * Q2R (coef s)) * Q2R (rad s)) as EW
    by (unfold w; rewrite !Q2R_mult, H100; ring).
  assert (0 <= Q2R (rad s)) as HR
    by (replace 0 with (Q2R 0) by lra; by apply Qle_Rle).
  unfold surd_val.
  destruct (coef s) as [n d] eqn:Ec. simpl Qnum.
  assert (Q2R (n # d) = IZR n * / IZR (Z.pos d)) as EC by reflexivity.
  assert (0 < / IZR (Z.pos d)) as Hd
    by (apply Rinv_0_lt_compat, IZR_lt; lia).
  destruct n as [|p|p]; simpl Z.sgn.
  - rewrite Z.mul_0_l, EC. left.
    replace (100 * (0 * / IZR (Z.pos d) * sqrt (Q2R (rad s))) - 0) with 0 by ring.
    rewrite Rabs_R0. lra.
  - rewrite Z.mul_1_l.
    assert (0 < Q2R (Z.pos p # d)) as HC
      by (rewrite EC; apply Rmult_lt_0_compat; [apply IZR_lt; lia|done]).
    replace (100 * (Q2R (Z.pos p # d) * sqrt (Q2R (rad s)))) with (sqrt (Q2R w));
      [done|].
    rewrite EW, sqrt_mult, sqrt_square by nra. ring.
  - replace (-1 * round_sqrt_half_even w)%Z with (- round_sqrt_half_even w)%Z by lia.
    assert (Q2R (Z.neg p # d) < 0) as HC.
    { rewrite EC. replace (IZR (Z.neg p)) with (- IZR (Z.pos p)) by (by rewrite <- opp_IZR).
      assert (0 < IZR (Z.pos p)) by (apply IZR_lt; lia). nra. }
    replace (100 * (Q2R (Z.neg p # d) * sqrt (Q2R (rad s)))) with (- sqrt (Q2R w));
      [by apply nearest_even_opp|].
    replace (Q2R w) with ((- (100 * Q2R (Z.neg p # d))) * (- (100 * Q2R (Z.neg p # d)))
                          * Q2R (rad s)) by (rewrite EW; ring).
    rewrite sqrt_mult, sqrt_square by nra. ring.
Qed.
End SurdSemantics.

(** ** Variance and constant groups *)

Lemma sumQ_foldr l : (sumQ l == foldr Qplus 0 l)%Q.
Proof.
  unfold sumQ. rewrite foldl_Qplus. generalize (foldr Qplus 0%Q l). intros q. ring.
Qed.

Lemma sumQ_cons x l : (sumQ (x :: l) == x + sumQ l)%Q.
Proof. rewrite !sumQ_foldr. reflexivity. Qed.

Lemma sumQ_nonneg l : Forall (λ x, 0 <= x)%Q l → (0 <= sumQ l)%Q.
Proof.
  induction 1 as [|x l Hx Hl IH]; [done|].
  rewrite sumQ_cons. replace 0%Q with (0 + 0)%Q by done.
  by apply Qplus_le_compat.
Qed.

Lemma sumQ_pos l :
  Forall (λ x, 0 <= x)%Q l → Exists (λ x, 0 < x)%Q l → (0 < sumQ l)%Q.
Proof.
  intros Hall Hex. induction Hex as [x l Hx|x l Hex IH];
    apply Forall_cons in Hall as [H0 Hall]; rewrite sumQ_cons.
  - replace 0%Q with (0 + 0)%Q by done.
    apply Qplus_lt_le_compat; [done|by apply sumQ_nonneg].
  - replace 0%Q with (0 + 0)%Q by done.
    rewrite (Qplus_comm x). apply Qplus_lt_le_compat; [by apply IH|done].
Qed.

Lemma sumQ_zero l : Forall (λ x, x == 0)%Q l → (sumQ l == 0)%Q.
Proof.
  induction 1 as [|x l Hx Hl IH]; [done|].
  rewrite sumQ_cons, Hx, IH. reflexivity.
Qed.

Lemma Qsq_pos x : ¬ (x == 0)%Q → (0 < x * x)%Q.
Proof.
  intros Hx. destruct x as [n d]. unfold Qeq, Qlt, Qmult in *. simpl in *. nia.
Qed.

Lemma isconst_true_iff y :
  isconst y = true ↔ ∀ v w, v ∈ y → w ∈ y → v = w.
Proof.
  destruct y as [|y0 y]; simpl.
  - split; [|done]. intros _ v w Hv. by apply elem_of_nil in Hv.
  - rewrite Z.eqb_refl. simpl. rewrite forallb_forall. split.
    + intros Hall v w Hv Hw.
      assert (∀ u, u ∈ y0 :: y → u = y0) as Hy0.
      { intros u [->|Hu]%elem_of_cons; [done|].
        apply list_elem_of_In, Hall, Z.eqb_eq in Hu. done. }
      by rewrite (Hy0 v), (Hy0 w).
    + intros H u Hu. apply list_elem_of_In in Hu.
      apply Z.eqb_eq. apply H; [by left|by right].
Qed.

Lemma isconst_false_iff y :
  isconst y = false ↔ ∃ v w, v ∈ y ∧ w ∈ y ∧ v ≠ w.
Proof.
  split.
  - destruct y as [|y0 y]; simpl; [done|].
    rewrite Z.eqb_refl. simpl. intros H.
    assert (∃ u, u ∈ y ∧ u ≠ y0) as (u & Hu & Hne).
    { induction y as [|u y IH]; simpl in H; [done|].
      destruct (Z.eqb_spec y0 u) as [->|Hne]; simpl in H.
      - destruct (IH H) as (u' & Hu' & Hne'). exists u'. split; [by right|done].
      - exists u. split; [by left|congruence]. }
    exists u, y0. split; [by right|]. split; [by left|done].
  - intros (v & w & Hv & Hw & Hne).
    destruct (isconst y) eqn:Hc; [|done].
    rewrite isconst_true_iff in Hc. by specialize (Hc v w Hv Hw).
Qed.

Lemma isconst_short y : (length y < 2)%nat → isconst y = true.
Proof.
  destruct y as [|y0 [|y1 y]]; simpl; intros H; [done| |lia].
  by rewrite Z.eqb_refl.
Qed.

Lemma isconst_false_length y : isconst y = false → (2 ≤ length y)%nat.
Proof.
  intros H. destruct (decide (length y < 2)%nat) as [Hlt|]; [|lia].
  apply isconst_short in Hlt. congruence.
Qed.

(** A group that is not constant has a positive variance. *)
Lemma var_pos ddof y :
  isconst y = false → (ddof < length y)%nat → (0 < var ddof y)%Q.
Proof.
  intros Hc Hlen. unfold var.
  set (mn := mean y).
  apply Qlt_shift_div_l.
  { replace 0%Q with (inject_Z 0) by done. rewrite <- Zlt_Qlt. lia. }
  rewrite Qmult_0_l. apply sumQ_pos.
  - apply Forall_fmap, Forall_forall. intros v _. simpl. apply Qsq_nonneg.
  - apply Exists_fmap, Exists_exists.
    destruct (Forall_Exists_dec (λ v, inject_Z v == mn)%Q
                (λ v, ¬ (inject_Z v == mn)%Q)
                (λ v, Qeq_dec (inject_Z v) mn) y) as [Hall|Hex].
    + exfalso. assert (isconst y = true); [|congruence].
      apply isconst_true_iff. intros v w Hv Hw.
      rewrite Forall_forall in Hall.
      pose proof (Hall v Hv) as E1. pose proof (Hall w Hw) as E2.
      rewrite <- E2 in E1. unfold Qeq in E1. simpl in E1. lia.
    + apply Exists_exists in Hex as (v & Hv & Hne).
      exists v. split; [done|]. simpl. apply Qsq_pos.
      intros E. apply Hne. rewrite <- (Qplus_0_l mn), <- E. ring.
Qed.

Lemma sumQ_const l c :
  Forall (λ x, x == c)%Q l → (sumQ l == inject_Z (Z.of_nat (length l)) * c)%Q.
Proof.
  induction 1 as [|x l Hx Hl IH].
  - simpl. unfold sumQ. simpl. ring.
  - rewrite sumQ_cons, Hx, IH. cbn [length].
    rewrite Nat2Z.inj_succ. unfold Z.succ. rewrite inject_Z_plus. ring.
Qed.

(** A constant group has variance zero. *)
Lemma var_const ddof y : isconst y = true → (var ddof y == 0)%Q.
Proof.
  intros Hc. unfold var.
  destruct y as [|y0 y'] eqn:Ey; [reflexivity|]. rewrite <- Ey in *.
  assert (∀ v, v ∈ y → v = y0) as Hy0.
  { intros v Hv. rewrite isconst_true_iff in Hc. apply Hc; [done|].
    rewrite Ey. by left. }
  assert (mean y == inject_Z y0)%Q as Hmean.
  { unfold mean. rewrite (sumQ_const _ (inject_Z y0)).
    - rewrite length_fmap.
      assert (¬ (inject_Z (Z.of_nat (length y)) == 0)%Q) as Hn.
      { replace 0%Q with (inject_Z 0) by done. rewrite inject_Z_injective.
        rewrite Ey. simpl. lia. }
      generalize dependent (inject_Z (Z.of_nat (length y))). intros n Hn.
      generalize (inject_Z y0). intros c. by field.
    - apply Forall_fmap, Forall_forall. intros v Hv. simpl. by rewrite (Hy0 v Hv). }
  rewrite sumQ_zero; [by unfold Qdiv; rewrite Qmult_0_l|].
  apply Forall_fmap, Forall_forall. intros v Hv. simpl.
  rewrite Hmean, (Hy0 v Hv). ring.
Qed.

(** ** The Z-score signal *)

Lemma record_zscore_rad df r s :
  record_zscore df r = Some s → (0 <= rad s)%Q.
Proof.
  unfold record_zscore. destruct (isconst _) eqn:Hc; [done|].
  destruct (qtd r) as [q|]; [|done]. intros [= <-]. simpl.
  apply Qlt_le_weak, var_pos; [done|].
  apply isconst_false_length in Hc. lia.
Qed.

(** The Z-score flag in exact arithmetic.  In a group that holds two
    different values every record with a quantity gets the score
    (quantity - mean) / sigma, where sigma is the population standard
    deviation of the group (scipy's default ddof = 0), and the exact
    comparison of its absolute value with the threshold; in a group of
    fewer than two values, or of identical values, the score is NaN and the
    flag is false.  (The program compares the binary64 score, which can lie
    on the other side of the threshold when the exact score equals it.) *)
Lemma zscore_flag_exact df t i r q :
  df !! i = Some r → qtd r = Some q →
  let y := group_values df (key_of r) in
  ((length y < 2)%nat ∨ (∀ v w, v ∈ y → w ∈ y → v = w) →
     transform zscore df !! i = Some None ∧
     calc_zscore_flags df t !! i = Some false) ∧
  ((∃ v w, v ∈ y ∧ w ∈ y ∧ v ≠ w) →
     (2 ≤ length y)%nat ∧ (0 < Q2R (var 0 y))%R ∧
     ∃ s, transform zscore df !! i = Some (Some s) ∧
          surd_val s = ((IZR q - Q2R (mean y)) / sqrt (Q2R (var 0 y)))%R ∧
          (calc_zscore_flags df t !! i = Some true
             ↔ (Rabs (surd_val s) > Q2R t)%R) ∧
          (calc_zscore_flags df t !! i = Some false
             ↔ ¬ (Rabs (surd_val s) > Q2R t)%R)).
Proof.
  intros Hi Hq y.
  rewrite (transform_zscore_lookup _ _ _ Hi), (calc_zscore_flags_lookup _ _ _ _ Hi).
  unfold zscore_flag_at, record_zscore. fold y. rewrite Hq. split.
  - intros [Hlen|Hsame].
    + by rewrite (isconst_short _ Hlen).
    + apply isconst_true_iff in Hsame. by rewrite Hsame.
  - intros Hc%isconst_false_iff. rewrite Hc. simpl.
    pose proof (isconst_false_length _ Hc) as Hlen.
    assert (0 < var 0 y)%Q as Hv by (apply var_pos; [done|lia]).
    split; [done|]. split.
    { replace 0%R with (Q2R 0) by lra. by apply Qlt_Rlt. }
    eexists. split; [reflexivity|].
    unfold std. rewrite surd_val_div_sqrt, Q2R_minus, Q2R_inject_Z by done.
    split; [done|].
    set (s := Qdiv_surd (inject_Z q - mean y) (surd_sqrt (var 0 y))).
    assert (surd_gtb (surd_abs s) t = true ↔ (Rabs (surd_val s) > Q2R t)%R) as Hspec.
    { rewrite <- surd_val_abs. apply surd_gtb_spec. simpl. by apply Qlt_le_weak. }
    unfold s in Hspec. rewrite surd_val_div_sqrt, Q2R_minus, Q2R_inject_Z in Hspec by done.
    subst s. split.
    + rewrite <- Hspec. split; congruence.
    + rewrite <- Hspec. destruct (surd_gtb _ _); split; congruence.
Qed.

Example zscore_flag_exact_eleven :
  ∃ s, transform zscore df_eleven !! 10%nat = Some (Some s) ∧
       (Rabs (surd_val s) > 3)%R.
Proof.
  destruct (zscore_flag_exact df_eleven 3 10
              (movement 1 "U01" "MAT-002" "entrada" (Some 50%Z) 10) 50
              eq_refl eq_refl) as [_ H].
  destruct H as (_ & _ & s & Hs & _ & Hiff & _).
  { exists 20%Z, 21%Z. repeat split; [| |discriminate].
    - vm_compute. left.
    - vm_compute. right. left. }
  exists s. split; [exact Hs|].
  replace 3%R with (Q2R 3) by (unfold Q2R; simpl; lra).
  apply Hiff. vm_compute. reflexivity.
Qed.

(** With two different values in the group, [zscore_flag_sample] decides
    whether the score taken with the sample standard deviation exceeds the
    threshold. *)
Lemma zscore_flag_sample_real y q t :
  (∃ v w, v ∈ y ∧ w ∈ y ∧ v ≠ w) →
  zscore_flag_sample y q t = true
  ↔ (Rabs ((IZR q - Q2R (mean y)) / sqrt (Q2R (var 1 y))) > Q2R t)%R.
Proof.
  intros Hc%isconst_false_iff.
  pose proof (isconst_false_length _ Hc) as Hlen.
  assert (0 < var 1 y)%Q as Hv by (apply var_pos; [done|lia]).
  unfold zscore_flag_sample, std.
  destruct (Nat.ltb_spec (length y) 2) as [|_]; [lia|].
  rewrite <- Q2R_inject_Z, <- Q2R_minus, <- surd_val_div_sqrt, <- surd_val_abs by done.
  apply surd_gtb_spec. simpl. by apply Qlt_le_weak.
Qed.

(** The standard deviation is the population one, not the sample one:
    the last record of [df_eleven] is flagged by [calc_zscore_flags] (its
    score is 3.12), yet its score taken with the sample standard deviation
    (2.98) does not exceed 3. *)
Example zscore_flag_not_sample :
  ¬ (∀ df i r q,
       df !! i = Some r → qtd r = Some q →
       let y := group_values df (key_of r) in
       (2 ≤ length y)%nat →
       (calc_zscore_flags df 3 !! i = Some true
        ↔ (Rabs ((IZR q - Q2R (mean y)) / sqrt (Q2R (var 1 y))) > 3)%R)).
Proof.
  intros H.
  specialize (H df_eleven 10%nat
                (movement 1 "U01" "MAT-002" "entrada" (Some 50%Z) 10) 50%Z
                eq_refl eq_refl).
  set (y := group_values df_eleven
              (key_of (movement 1 "U01" "MAT-002" "entrada" (Some 50%Z) 10))) in *.
  assert (y = [20; 21; 19; 20; 18; 22; 19; 21; 20; 17; 50]%Z) as Hy
    by (vm_compute; reflexivity).
  cbv zeta in H.
  assert (2 ≤ length y)%nat as Hlen by (rewrite Hy; simpl; lia).
  destruct (H Hlen) as [Hflag _].
  assert (calc_zscore_flags df_eleven 3 !! 10%nat = Some true) as E1
    by (vm_compute; reflexivity).
  specialize (Hflag E1).
  replace 3%R with (Q2R 3) in Hflag by (unfold Q2R; simpl; lra).
  apply zscore_flag_sample_real in Hflag.
  - rewrite Hy in Hflag. vm_compute in Hflag. discriminate Hflag.
  - exists 20%Z, 21%Z. rewrite Hy. repeat split; [by left|by right; left|discriminate].
Qed.

(** C5: in a group whose quantity values are all identical the variance
    is zero, the score is NaN and no record is flagged, whatever the
    threshold. *)
Theorem zscore_constant_group_never_flagged df t i r :
  df !! i = Some r →
  (∀ v w, v ∈ group_values df (key_of r) → w ∈ group_values df (key_of r) → v = w) →
  (var 0 (group_values df (key_of r)) == 0)%Q ∧
  transform zscore df !! i = Some None ∧
  calc_zscore_flags df t !! i = Some false.
Proof.
  intros Hi Hconst. apply isconst_true_iff in Hconst.
  split; [by apply var_const|].
  rewrite (transform_zscore_lookup _ _ _ Hi), (calc_zscore_flags_lookup _ _ _ _ Hi).
  unfold zscore_flag_at, record_zscore. by rewrite Hconst.
Qed.

Lemma zscore_constant_group_never_flagged_witness :
  (var 0 (group_values df_scenario ("U02", "MAT-001")) == 0)%Q ∧
  transform zscore df_scenario !! 1%nat = Some None ∧
  calc_zscore_flags df_scenario 3 !! 1%nat = Some false.
Proof.
  apply (zscore_constant_group_never_flagged df_scenario 3 1
           (movement 1 "U02" "MAT-001" "entrada" (Some 5%Z) (25 # 2)) eq_refl).
  apply isconst_true_iff. vm_compute. reflexivity.
Defined.

(** ** The columns attached to the panel *)

Lemma round2_nearest x :
  ∃ k, round2 x = (k # 100)%Q ∧ nearest_even (100 * Q2R x) k.
Proof.
  eexists. split; [reflexivity|].
  pose proof (round_half_even_nearest (x * 100)) as H.
  rewrite Q2R_mult in H.
  replace (Q2R 100) with 100%R in H by (unfold Q2R; simpl; lra).
  by rewrite Rmult_comm.
Qed.

Lemma zscore_column_lookup df i r :
  df !! i = Some r →
  zscore_column df !! i = Some (surd_round2 <$> record_zscore df r).
Proof.
  intros Hi. unfold zscore_column.
  by rewrite list_lookup_fmap, (transform_zscore_lookup _ _ _ Hi).
Qed.

Lemma round_half_even_le (m : Z) x :
  (x <= inject_Z m)%Q → (round_half_even x ≤ m)%Z.
Proof.
  intros Hm. unfold round_half_even. cbv zeta.
  pose proof (Qfloor_le x) as Hf.
  assert (Qfloor x ≤ m)%Z as Hfm
    by (rewrite <- (Qfloor_Z m); by apply Qfloor_resp_le).
  destruct (Qcompare_spec (x - inject_Z (Qfloor x)) (1 # 2)) as [E|E|E].
  - destruct (Z.even (Qfloor x)); [lia|].
    destruct (decide (Qfloor x = m)) as [Em|]; [|lia].
    rewrite Em in E. lra.
  - lia.
  - destruct (decide (Qfloor x = m)) as [Em|]; [|lia].
    rewrite Em in E. lra.
Qed.

Lemma round_half_even_ge (n : Z) x :
  (inject_Z n <= x)%Q → (n ≤ round_half_even x)%Z.
Proof.
  intros Hn. unfold round_half_even. cbv zeta.
  assert (n ≤ Qfloor x)%Z as Hnf
    by (rewrite <- (Qfloor_Z n); by apply Qfloor_resp_le).
  destruct (_ ?= _)%Q; [destruct (Z.even _)|..]; lia.
Qed.

(** C8 fails on a flagged record whose quantity is the least int64 in a
    frame without missing quantity: [abs] wraps on the int64 column, and
    the impact of the record's panel row is not |quantity| x unit cost but
    its opposite, a negative number. *)
Theorem int64_min_impact_negative sort_values `{!SortValues sort_values}
    df i r :
  int64_qtd df = true → df !! i = Some r → qtd r = Some int64_min →
  (1 <= custo_unit r)%Q →
  flag_any_column df !! i = Some true →
  ∃ e v, e ∈ build_alert_panel sort_values df ∧ a_index e = i ∧
         a_qtd e = Some int64_min ∧ impacto e = Some v ∧
         (v <= inject_Z int64_min)%Q.
Proof.
  intros H64 Hi Hq Hc Hany.
  rewrite (flag_any_column_lookup _ _ _ Hi) in Hany. injection Hany as Hany.
  assert (¬ quiet df) as Hnq.
  { intros Hquiet. rewrite (proj1 (quiet_lookup df) Hquiet i r Hi) in Hany.
    discriminate. }
  exists (alert_of true df i r).
  exists (round2 (inject_Z int64_min * custo_unit r)).
  split; [|split; [done|split; [done|split]]].
  - apply noisy_panel_elem_of; [done..|]. rewrite H64.
    apply flagged_rows_elem_of. exists r. by simpl.
  - simpl. unfold impact_of. rewrite Hq. done.
  - unfold round2.
    assert (round_half_even (inject_Z int64_min * custo_unit r * 100)
            ≤ 100 * int64_min)%Z as Hle.
    { apply round_half_even_le. rewrite inject_Z_mult.
      change (inject_Z 100) with 100%Q.
      assert (inject_Z int64_min <= 0)%Q as Hneg by done.
      revert Hneg Hc. generalize (inject_Z int64_min), (custo_unit r).
      intros a c Ha Hc. nra. }
    revert Hle. generalize (round_half_even (inject_Z int64_min * custo_unit r * 100)).
    intros k Hk. unfold Qle. cbn. lia.
Qed.

Lemma int64_min_impact_negative_witness :
  ∃ e v, e ∈ build_alert_panel sort_values_merge df_wrap ∧ a_index e = 4%nat ∧
         a_qtd e = Some int64_min ∧ impacto e = Some v ∧
         (v <= inject_Z int64_min)%Q.
Proof.
  apply (@int64_min_impact_negative sort_values_merge sort_values_merge_ok
           df_wrap 4 (movement 1 "U01" "MAT-001" "saida" (Some int64_min) (25 # 2))).
  - reflexivity.
  - reflexivity.
  - reflexivity.
  - discriminate.
  - vm_compute. reflexivity.
Defined.

(** ** The interquartile signal *)

Lemma own_quantity_in_group df i r q :
  df !! i = Some r → qtd r = Some q → q ∈ group_values df (key_of r).
Proof.
  intros Hi Hq. unfold group_values, group_col, omit_nan.
  apply list_elem_of_omap. exists (Some q). split; [|done].
  apply list_elem_of_fmap. exists r. split; [done|].
  apply list_elem_of_filter. split; [done|]. by eapply list_elem_of_lookup_2.
Qed.





(** In a group of identical values both quartiles are that value, so the
    interquartile test flags nothing either: no record of a constant group
    is among the flagged rows. *)
Lemma nth_const (ys : list Z) c n : (∀ v, v ∈ ys → v = c) → nth n ys c = c.
Proof.
  revert n. induction ys as [|y ys IH]; intros [|n] H; simpl; try done.
  - apply H. by left.
  - apply IH. intros v Hv. apply H. by right.
Qed.

Lemma interpolate_const ys c p :
  (∀ v, v ∈ ys → v = c) → (interpolate ys c p == inject_Z c)%Q.
Proof.
  intros H. unfold interpolate. rewrite !nth_const by done. ring.
Qed.

Lemma constant_group_iqr_unflagged df k i r :
  df !! i = Some r →
  (∀ v w, v ∈ group_values df (key_of r) → w ∈ group_values df (key_of r) → v = w) →
  calc_iqr_flags df k !! i = Some false.
Proof.
  intros Hi Hconst. rewrite (calc_iqr_flags_lookup _ _ _ _ Hi).
  unfold iqr_flag_at. destruct (qtd r) as [q|] eqn:Hq; [|done]. simpl.
  pose proof (own_quantity_in_group _ _ _ _ Hi Hq) as Hin.
  unfold iqr_flag_of, quantile. fold (group_values df (key_of r)).
  pose proof (merge_sort_Permutation Z.le (group_values df (key_of r))) as Hperm.
  destruct (merge_sort Z.le (group_values df (key_of r))) as [|y0 ys] eqn:E; [done|].
  assert (∀ v, v ∈ y0 :: ys → v = q) as Hall.
  { intros v Hv. rewrite Hperm in Hv. by apply Hconst. }
  assert (y0 = q) as -> by (apply Hall; by left).
  pose proof (interpolate_const (q :: ys) q (25 # 100) Hall) as H1.
  pose proof (interpolate_const (q :: ys) q (75 # 100) Hall) as H3.
  f_equal. apply orb_false_intro.
  - apply not_true_is_false. rewrite Qltb_Qlt, H1, H3.
    intros H. apply (Qlt_irrefl (inject_Z q)).
    eapply Qlt_le_trans; [exact H|]. apply Qle_lteq. right. ring.
  - apply not_true_is_false. rewrite Qltb_Qlt, H1, H3.
    intros H. apply (Qlt_irrefl (inject_Z q)).
    eapply Qle_lt_trans; [|exact H]. apply Qle_lteq. right. ring.
Qed.

Lemma constant_group_not_kept int64 df i r :
  df !! i = Some r →
  (∀ v w, v ∈ group_values df (key_of r) → w ∈ group_values df (key_of r) → v = w) →
  ¬ ∃ e, e ∈ flagged_rows int64 df ∧ a_index e = i.
Proof.
  intros Hi Hconst (e & He & <-).
  apply flagged_rows_elem_of in He.
  destruct He as (r' & Hr' & Hany & _). rewrite Hi in Hr'. injection Hr' as <-.
  pose proof (constant_group_iqr_unflagged df (3 # 2) _ _ Hi Hconst) as Hq.
  rewrite (calc_iqr_flags_lookup _ _ _ _ Hi) in Hq. injection Hq as Hq.
  assert (zscore_flag_at df r 3 = false) as Hz.
  { unfold zscore_flag_at, record_zscore.
    apply isconst_true_iff in Hconst. by rewrite Hconst. }
  by rewrite Hz, Hq in Hany.
Qed.

(** ** The object-level run computes the value-level panel *)

Section StoreFacts.

Lemma store_get_frame (s L : list Store.object) k d fr :
  L !! k = Some (Store.as_frame d fr) →
  Store.get_frame (length s + k) (s ++ L) = Store.Ok ((d, fr), s ++ L).
Proof.
  intros H. unfold Store.get_frame.
  rewrite lookup_app_r, Nat.add_comm, Nat.add_sub, H by lia. by destruct d.
Qed.

Lemma store_get_table (s L : list Store.object) k o :
  L !! k = Some o → (∀ p, o ≠ Store.Panel p) → (∀ p, o ≠ Store.PanelObject p) →
  Store.get_table (length s + k) (s ++ L) = Store.Ok (o, s ++ L).
Proof.
  intros H Hp Hpo. unfold Store.get_table.
  rewrite lookup_app_r, Nat.add_comm, Nat.add_sub, H by lia.
  destruct o; try done; [by destruct (Hp p)|by destruct (Hpo p)].
Qed.

Lemma store_get_panel (s L : list Store.object) k d p :
  L !! k = Some (Store.as_panel d p) →
  Store.get_panel (length s + k) (s ++ L) = Store.Ok ((d, p), s ++ L).
Proof.
  intros H. unfold Store.get_panel.
  rewrite lookup_app_r, Nat.add_comm, Nat.add_sub, H by lia. by destruct d.
Qed.

Lemma store_put (s L : list Store.object) k o :
  k < length L →
  Store.put (length s + k) o (s ++ L) = Store.Ok ((), s ++ <[k:=o]> L).
Proof.
  intros H. unfold Store.put. rewrite decide_True by (rewrite length_app; lia).
  by rewrite insert_app_r.
Qed.

Lemma store_alloc (s L : list Store.object) o :
  Store.alloc o (s ++ L) = Store.Ok (length s + length L, s ++ (L ++ [o])).
Proof. unfold Store.alloc. by rewrite length_app, <- (assoc (++)). Qed.

Lemma store_bind {A B} (f : A → Store.M B) (m : Store.M A) s a s' :
  m s = Store.Ok (a, s') → (m ≫= f) s = f a s'.
Proof. intros H. unfold mbind, Store.M_bind. by rewrite H. Qed.

(** The columns of [set_flags] are the series they were assigned from. *)
Lemma set_flags_columns df :
  f_index <$> set_flags df = seq 0 (length df) ∧
  f_row <$> set_flags df = df ∧
  flag_zscore <$> set_flags df = calc_zscore_flags df 3 ∧
  flag_iqr <$> set_flags df = calc_iqr_flags df (3 # 2) ∧
  flag_any <$> set_flags df
  = zip_with orb (calc_zscore_flags df 3) (calc_iqr_flags df (3 # 2)).
Proof.
  repeat split; apply list_eq; intros i; rewrite list_lookup_fmap;
    destruct (df !! i) as [r|] eqn:Hi.
  all: try (rewrite (set_flags_lookup _ _ _ Hi); simpl).
  all: try (unfold set_flags; rewrite list_lookup_imap, Hi; simpl).
  - symmetry. apply lookup_seq_lt. by eapply lookup_lt_Some.
  - symmetry. apply lookup_seq_ge. by apply lookup_ge_None.
  - done.
  - done.
  - by rewrite (calc_zscore_flags_lookup _ _ _ _ Hi).
  - symmetry. apply lookup_ge_None. rewrite length_calc_zscore_flags.
    by apply lookup_ge_None.
  - by rewrite (calc_iqr_flags_lookup _ _ _ _ Hi).
  - symmetry. apply lookup_ge_None. rewrite length_calc_iqr_flags.
    by apply lookup_ge_None.
  - by rewrite lookup_zip_with, (calc_zscore_flags_lookup _ _ _ _ Hi),
      (calc_iqr_flags_lookup _ _ _ _ Hi).
  - symmetry. apply lookup_ge_None.
    rewrite length_zip_with, length_calc_zscore_flags, length_calc_iqr_flags.
    apply lookup_ge_None in Hi. lia.
Qed.

Lemma keep_fmap {A B} (h : A → bool) (g : A → B) (l : list A) :
  Store.keep (h <$> l) (g <$> l) = g <$> filter (λ x, h x = true) l.
Proof.
  unfold Store.keep. induction l as [|x l IH]; [done|].
  rewrite !fmap_cons. cbn [zip zip_with]. rewrite !filter_cons. simpl.
  destruct (h x) eqn:Hx.
  - rewrite decide_True by done. rewrite fmap_cons. simpl. by rewrite IH.
  - rewrite decide_False by done. done.
Qed.

Lemma list_find_seq n l :
  fst <$> list_find (λ l', l' = l) (seq 0 n)
  = if decide (l < n) then Some l else None.
Proof.
  destruct (decide (l < n)) as [Hlt|Hge].
  - assert (list_find (λ l', l' = l) (seq 0 n) = Some (l, l)) as ->; [|done].
    apply list_find_Some. split; [by apply lookup_seq_lt|]. split; [done|].
    intros j y Hj Hjl ->. apply lookup_seq in Hj as [Hj _]. simpl in Hj. lia.
  - assert (list_find (λ l', l' = l) (seq 0 n) = None) as ->; [|done].
    apply list_find_None, Forall_forall. intros x Hx ->.
    apply elem_of_seq in Hx. lia.
Qed.

Lemma align_range {A X} (zs : list (option A)) (g : X → nat) (l : list X) :
  Store.align (seq 0 (length zs)) zs (g <$> l) = (λ x, mjoin (zs !! g x)) <$> l.
Proof.
  unfold Store.align. rewrite <- list_fmap_compose. apply list_fmap_ext.
  intros _ x _. simpl. rewrite list_find_seq.
  destruct (decide (g x < length zs)) as [Hlt|Hge]; simpl; [done|].
  by rewrite lookup_ge_None_2 by lia.
Qed.

Lemma entries_of_fmap int64 (zs : list (option Q)) (l : list FlaggedRow) :
  Store.entries_of (f_index <$> l) (f_row <$> l)
             ((λ x, mjoin (zs !! f_index x)) <$> l)
             (flag_zscore <$> l) (flag_iqr <$> l)
             (impact_of int64 <$> (f_row <$> l))
  = mk_entry int64 zs <$> l.
Proof.
  unfold Store.entries_of. rewrite length_fmap, (list_fmap_alt (mk_entry int64 zs)).
  apply list_omap_ext, Forall2_same_length_lookup.
  split; [by rewrite length_seq|].
  intros j j' x Hj Hx. apply lookup_seq in Hj as [-> _]. simpl.
  by rewrite !list_lookup_fmap, Hx.
Qed.

Lemma reindexed_entries_range (zs : list (option Q)) :
  Store.reindexed_entries (seq 0 (length zs)) zs
    (replicate (length (seq 0 (length zs))) None)
  = reindexed_entry zs <$> seq 0 (length zs).
Proof.
  unfold Store.reindexed_entries.
  rewrite (list_fmap_alt (reindexed_entry zs)), !length_seq.
  apply list_omap_ext, Forall2_same_length_lookup.
  split; [by rewrite length_seq|].
  intros j j' x Hj Hx. apply lookup_seq in Hj as [-> Hlt].
  apply lookup_seq in Hx as [-> _]. simpl in *.
  rewrite lookup_seq_lt by done. simpl.
  destruct (lookup_lt_is_Some_2 zs j Hlt) as [z Hz]. rewrite Hz. simpl.
  rewrite lookup_replicate_2 by done. simpl.
  unfold reindexed_entry. by rewrite Hz.
Qed.

Lemma select_columns_of_rows int64 (l : list FlaggedRow) (zs : list (option Q))
    (m : list bool) (idx : list nat) (rs : list MovementRecord)
    (fz fi : list bool) :
  m = flag_any <$> l → idx = f_index <$> l → rs = f_row <$> l →
  fz = flag_zscore <$> l → fi = flag_iqr <$> l →
  Store.entries_of (Store.keep m idx) (Store.keep m rs)
             (Store.align (seq 0 (length zs)) zs (Store.keep m idx))
             (Store.keep m fz) (Store.keep m fi)
             (impact_of int64 <$> Store.keep m rs)
  = mk_entry int64 zs <$> filter (λ x, flag_any x = true) l.
Proof.
  intros -> -> -> -> ->. rewrite !keep_fmap, align_range.
  apply entries_of_fmap.
Qed.

(** What [df[df["flag_any"]]] and the two assignments leave in the selected
    columns, whatever the dtype [d] of the frame: the rows of the panel,
    and a float64 impact column as soon as the frame was reindexed. *)
Lemma select_alert_rows d int64 df cz ci (s : list Store.object) :
  let fz := calc_zscore_flags df 3 in
  let fi := calc_iqr_flags df (3 # 2) in
  let m := zip_with orb fz fi in
  let idx := seq 0 (length df) in
  let fr := Store.Frame idx df int64 (Some fz) (Some fi) (Some m) cz ci in
  Store.select_columns
    (Store.assign_impacto
       (Store.assign_zscore idx (zscore_column df)
          (Store.as_frame d (Store.mask_frame m fr)))) s
  = Store.Ok (Store.as_panel (if bool_decide (quiet df ∧ df ≠ []) then Store.Numeric else d)
                             (alert_rows_of int64 df), s).
Proof.
  intros fz fi m idx fr.
  destruct (set_flags_columns df) as (Hidx & Hrow & Hfz & Hfi & Hm).
  assert (idx = seq 0 (length (zscore_column df))) as Hlen
    by (unfold idx; by rewrite length_zscore_column).
  assert (Store.keep m idx
          = f_index <$> filter (λ x, flag_any x = true) (set_flags df)) as Hkeep.
  { unfold m, idx, fz, fi. by rewrite <- Hm, <- Hidx, keep_fmap. }
  assert (Store.index (Store.mask_frame m fr) = Store.keep m idx) as Hmi by done.
  destruct (decide (quiet df)) as [Hq|Hq].
  - pose proof (proj1 (quiet_no_anomalies df) Hq) as Hnil.
    rewrite Hnil in Hkeep. simpl in Hkeep.
    rewrite (alert_rows_of_quiet _ _ Hq).
    destruct (zscore_column df) as [|z zs] eqn:Ez.
    + assert (df = []) as ->.
      { apply length_zero_iff_nil. by rewrite <- length_zscore_column, Ez. }
      rewrite bool_decide_false by (by intros [_ ?]).
      by destruct d.
    + assert (df ≠ []) as Hne.
      { intros ->. by rewrite <- Ez in Hlen. }
      rewrite bool_decide_true by done.
      assert (Store.assign_zscore idx (z :: zs)
                (Store.as_frame d (Store.mask_frame m fr))
              = Store.Reindexed idx (z :: zs) None) as ->.
      { destruct d; simpl; by rewrite Hkeep. }
      simpl Store.assign_impacto. unfold Store.select_columns.
      erewrite store_bind by reflexivity.
      unfold mret, Store.M_ret, Store.as_panel. do 3 f_equal.
      rewrite Hlen, <- length_zscore_column, Ez.
      apply (reindexed_entries_range (z :: zs)).
  - rewrite bool_decide_false by (by intros [? _]).
    rewrite (alert_rows_of_flagged _ _ Hq). unfold flagged_rows.
    assert (Store.adopts (Store.keep m idx) (zscore_column df) = false) as Had.
    { rewrite Hkeep.
      destruct (filter _ (set_flags df)) as [|x l] eqn:E; [|done].
      by apply quiet_no_anomalies in E. }
    assert (Store.entries_of (Store.keep m idx) (Store.keep m df)
              (Store.align idx (zscore_column df) (Store.keep m idx))
              (Store.keep m fz) (Store.keep m fi)
              (impact_of int64 <$> Store.keep m df)
            = mk_entry int64 (zscore_column df)
                <$> filter (λ x, flag_any x = true) (set_flags df)) as Hsel.
    { rewrite Hlen at 2. by apply select_columns_of_rows. }
    destruct d; simpl; rewrite Had; simpl; unfold Store.select_frame; simpl;
      unfold mbind, Store.M_bind, Store.column, mret, Store.M_ret; simpl;
      by rewrite Hsel.
Qed.

(** Assigning a column to a frame leaves a frame, not a panel. *)
Lemma assign_zscore_table src vals d fr :
  (∀ p, Store.assign_zscore src vals (Store.as_frame d fr) ≠ Store.Panel p) ∧
  (∀ p, Store.assign_zscore src vals (Store.as_frame d fr) ≠ Store.PanelObject p).
Proof.
  destruct d; cbn; destruct (Store.adopts _ _); split; intros p; discriminate.
Qed.

Lemma assign_impacto_table o :
  (∀ p, o ≠ Store.Panel p) → (∀ p, o ≠ Store.PanelObject p) →
  (∀ p, Store.assign_impacto o ≠ Store.Panel p) ∧
  (∀ p, Store.assign_impacto o ≠ Store.PanelObject p).
Proof.
  intros Ho Ho'.
  destruct o as [a|a|idx zs imp|p|p]; cbn; split; intros p'; try discriminate;
    [by destruct (Ho p)|by destruct (Ho' p)].
Qed.

Local Opaque calc_zscore_flags calc_iqr_flags zscore_column impact_of
  alert_rows_of Store.keep Store.align Store.entries_of
  Store.assign_zscore Store.assign_impacto Store.select_columns.

Lemma as_frame_table d fr :
  (∀ p, Store.as_frame d fr ≠ Store.Panel p) ∧
  (∀ p, Store.as_frame d fr ≠ Store.PanelObject p).
Proof. by destruct d. Qed.

(** [build_alert_panel] on a frame with a range index allocates five
    objects (the copy it assigns the flags to, the masked frame, its copy,
    the selection and the sorted panel), leaves every object that was
    already in the store as it was, and returns the value-level panel. *)
Lemma store_build_alert_panel_dtype sort_values (s : list Store.object) l d fr :
  s !! l = Some (Store.as_frame d fr) →
  Store.index fr = seq 0 (length (Store.rows fr)) →
  let d' := if bool_decide (quiet (Store.rows fr) ∧ Store.rows fr ≠ [])
            then Store.Numeric else d in
  ∃ o1 o2 o3,
    Store.build_alert_panel sort_values l s
    = Store.Ok (length s + 4,
          s ++ [o1; o2; o3;
                Store.as_panel d' (alert_rows_of (Store.qtd_int64 fr) (Store.rows fr));
                Store.as_panel d'
                  (sort_values (alert_rows_of (Store.qtd_int64 fr) (Store.rows fr)))]).
Proof.
  intros Hl Hidx d'. unfold Store.build_alert_panel.
  assert (Store.copy l s = Store.Ok (length s + 0, s ++ [Store.as_frame d fr]))
    as Hcopy.
  { unfold Store.copy. erewrite store_bind.
    2: { unfold Store.get_frame. rewrite Hl. by destruct d. }
    unfold Store.alloc. by rewrite Nat.add_0_r. }
  erewrite store_bind by exact Hcopy.
  erewrite store_bind by (by apply store_get_frame). cbv beta iota.
  erewrite store_bind by (apply store_put; simpl; lia). simpl insert.
  erewrite store_bind by (by apply store_get_frame). cbv beta iota.
  erewrite store_bind by (apply store_put; simpl; lia). simpl insert.
  erewrite store_bind by (by apply store_get_frame). cbv beta iota.
  erewrite store_bind by reflexivity.
  erewrite store_bind by reflexivity.
  erewrite store_bind by (apply store_put; simpl; lia). simpl insert.
  erewrite store_bind by (by apply store_get_frame). cbv beta iota.
  erewrite store_bind by reflexivity.
  erewrite store_bind by apply store_alloc. simpl length. simpl app.
  erewrite store_bind.
  2: { unfold Store.copy. erewrite store_bind by (by apply store_get_frame).
       cbv beta iota. apply store_alloc. }
  simpl length. simpl app.
  erewrite store_bind by (by apply store_get_frame). cbv beta iota.
  erewrite store_bind
    by (apply store_get_table; [done|apply as_frame_table..]).
  erewrite store_bind by (apply store_put; simpl; lia). simpl insert.
  unfold Store.set_flag_any, Store.set_flag_iqr, Store.set_flag_zscore.
  cbn [Store.index Store.rows Store.qtd_int64 Store.col_flag_zscore
       Store.col_flag_iqr Store.col_flag_any Store.col_zscore Store.col_impacto].
  rewrite Hidx.
  pose proof (select_alert_rows d (Store.qtd_int64 fr) (Store.rows fr)
                (Store.col_zscore fr) (Store.col_impacto fr)) as Hsel.
  cbv zeta in Hsel. fold d' in Hsel.
  set (o3 := Store.assign_zscore _ _ _) in *.
  assert (∀ s0, Store.select_columns (Store.assign_impacto o3) s0
                = Store.Ok (Store.as_panel d'
                              (alert_rows_of (Store.qtd_int64 fr) (Store.rows fr)),
                            s0)) as Hsel' by exact Hsel.
  assert ((∀ p, o3 ≠ Store.Panel p) ∧ (∀ p, o3 ≠ Store.PanelObject p)) as [Ho3 Ho3']
    by apply assign_zscore_table.
  destruct (assign_impacto_table o3 Ho3 Ho3') as [Ho4 Ho4'].
  erewrite store_bind by (by apply store_get_table).
  erewrite store_bind by (apply store_put; simpl; lia). simpl insert.
  erewrite store_bind by (by apply store_get_table).
  erewrite store_bind by apply Hsel'.
  erewrite store_bind by apply store_alloc. simpl length. simpl app.
  erewrite store_bind by (by apply store_get_panel). cbv beta iota.
  rewrite store_alloc. simpl length. simpl app.
  eauto.
Qed.

Lemma store_build_alert_panel sort_values (s : list Store.object) l fr :
  s !! l = Some (Store.DF fr) →
  Store.index fr = seq 0 (length (Store.rows fr)) →
  ∃ o1 o2 o3,
    Store.build_alert_panel sort_values l s
    = Store.Ok (length s + 4,
          s ++ [o1; o2; o3;
                Store.Panel (alert_rows_of (Store.qtd_int64 fr) (Store.rows fr));
                Store.Panel
                  (sort_values (alert_rows_of (Store.qtd_int64 fr) (Store.rows fr)))]).
Proof.
  intros Hl Hidx.
  destruct (store_build_alert_panel_dtype sort_values s l Store.Numeric fr Hl Hidx)
    as (o1 & o2 & o3 & H).
  exists o1, o2, o3. rewrite H. by destruct (bool_decide _).
Qed.

End StoreFacts.

Lemma store_estimate_financial_impact (s L : list Store.object) k p :
  L !! k = Some (Store.Panel p) →
  Store.estimate_financial_impact (length s + k) (s ++ L)
  = Store.Ok (estimate_financial_impact p, s ++ L).
Proof.
  intros H. unfold Store.estimate_financial_impact.
  by erewrite store_bind by (by apply (store_get_panel _ _ _ Store.Numeric)).
Qed.

Lemma store_estimate_object (s L : list Store.object) k p :
  L !! k = Some (Store.PanelObject p) →
  Store.estimate_financial_impact (length s + k) (s ++ L)
  = Store.Raise (Store.AttributeError "round").
Proof.
  intros H. unfold Store.estimate_financial_impact.
  by erewrite store_bind by (by apply (store_get_panel _ _ _ Store.Object)).
Qed.

Lemma store_run_pipeline sort_values (s : list Store.object) l fr :
  s !! l = Some (Store.DF fr) →
  Store.index fr = seq 0 (length (Store.rows fr)) →
  ∃ o1 o2 o3,
    Store.run_pipeline sort_values l s
    = Store.Ok
        (length s + 4,
         estimate_financial_impact
           (sort_values (alert_rows_of (Store.qtd_int64 fr) (Store.rows fr))),
         s ++ [o1; o2; o3;
               Store.Panel (alert_rows_of (Store.qtd_int64 fr) (Store.rows fr));
               Store.Panel
                 (sort_values (alert_rows_of (Store.qtd_int64 fr) (Store.rows fr)))]).
Proof.
  intros Hl Hidx.
  destruct (store_build_alert_panel sort_values s l fr Hl Hidx)
    as (o1 & o2 & o3 & Hrun).
  exists o1, o2, o3. unfold Store.run_pipeline.
  erewrite store_bind by exact Hrun.
  erewrite store_bind by (by apply store_estimate_financial_impact).
  done.
Qed.

(** ** Determinism and the input frame *)

(** C10: two runs of the pipeline on the same input frame both succeed and
    return panels with the same content and the same aggregate impact; the
    input frame, and every object that was in the store before, is left
    unchanged by both. *)
Theorem pipeline_twice_same_result sort_values (s : list Store.object) l fr :
  s !! l = Some (Store.DF fr) →
  Store.index fr = seq 0 (length (Store.rows fr)) →
  ∃ p1 t1 s1 p2 t2 s2 panel,
    Store.run_pipeline sort_values l s = Store.Ok (p1, t1, s1) ∧
    Store.run_pipeline sort_values l s1 = Store.Ok (p2, t2, s2) ∧
    s1 !! p1 = Some (Store.Panel panel) ∧
    s2 !! p2 = Some (Store.Panel panel) ∧
    t1 = t2 ∧
    s1 !! l = Some (Store.DF fr) ∧ s2 !! l = Some (Store.DF fr) ∧
    (∀ l' o, s !! l' = Some o → s1 !! l' = Some o ∧ s2 !! l' = Some o).
Proof.
  intros Hl Hidx.
  destruct (store_run_pipeline sort_values s l fr Hl Hidx)
    as (o1 & o2 & o3 & Hrun1).
  set (rows := alert_rows_of (Store.qtd_int64 fr) (Store.rows fr)) in *.
  set (s1 := s ++ [o1; o2; o3; Store.Panel rows;
                   Store.Panel (sort_values rows)]) in *.
  assert (∀ l' o, s !! l' = Some o → s1 !! l' = Some o) as Hkeep1
    by (intros l' o H; by apply lookup_app_l_Some).
  destruct (store_run_pipeline sort_values s1 l fr (Hkeep1 _ _ Hl) Hidx)
    as (o1' & o2' & o3' & Hrun2).
  fold rows in Hrun2.
  set (s2 := s1 ++ [o1'; o2'; o3'; Store.Panel rows;
                    Store.Panel (sort_values rows)]) in *.
  assert (∀ l' o, s1 !! l' = Some o → s2 !! l' = Some o) as Hkeep2
    by (intros l' o H; by apply lookup_app_l_Some).
  do 7 eexists. split; [exact Hrun1|]. split; [exact Hrun2|].
  split; [|split; [|split; [reflexivity|]]].
  - unfold s1. by rewrite lookup_app_r, Nat.add_comm, Nat.add_sub by lia.
  - unfold s2. by rewrite lookup_app_r, Nat.add_comm, Nat.add_sub by lia.
  - split; [by apply Hkeep1|]. split; [by apply Hkeep2, Hkeep1|].
    intros l' o H. split; [by apply Hkeep1|by apply Hkeep2, Hkeep1].
Qed.

Lemma pipeline_twice_same_result_witness :
  ∃ p1 t1 s1 p2 t2 s2 panel,
    Store.run_pipeline sort_values_merge 0 [Store.DF (Store.generated df_scenario)]
    = Store.Ok (p1, t1, s1) ∧
    Store.run_pipeline sort_values_merge 0 s1 = Store.Ok (p2, t2, s2) ∧
    s1 !! p1 = Some (Store.Panel panel) ∧
    s2 !! p2 = Some (Store.Panel panel) ∧
    t1 = t2 ∧
    s1 !! 0%nat = Some (Store.DF (Store.generated df_scenario)) ∧
    s2 !! 0%nat = Some (Store.DF (Store.generated df_scenario)) ∧
    (∀ l' o, [Store.DF (Store.generated df_scenario)] !! l' = Some o →
             s1 !! l' = Some o ∧ s2 !! l' = Some o).
Proof.
  apply (pipeline_twice_same_result sort_values_merge
           [Store.DF (Store.generated df_scenario)] 0
           (Store.generated df_scenario)); reflexivity.
Defined.

(** ** Frames without rows *)

Lemma sort_values_nil sort_values `{!SortValues sort_values} :
  sort_values [] = [].
Proof. apply Permutation_nil_r. exact (sort_values_perm []). Qed.

(** A frame without rows whose columns hold numbers goes through: the
    panel is empty and the aggregate impact is 0.00. *)
Theorem numeric_empty_frame_gives_zero sort_values `{!SortValues sort_values}
    (s : list Store.object) l :
  s !! l = Some (Store.DF (Store.generated [])) →
  build_alert_panel sort_values [] = [] ∧
  (estimate_financial_impact (build_alert_panel sort_values []) == 0)%Q ∧
  ∃ p s', Store.run_pipeline sort_values l s = Store.Ok (p, (0 # 100)%Q, s') ∧
          s' !! p = Some (Store.Panel []).
Proof.
  intros Hl. rewrite build_alert_panel_nil by done.
  split; [done|]. split; [done|].
  destruct (store_run_pipeline sort_values s l _ Hl eq_refl)
    as (o1 & o2 & o3 & Hrun).
  change (alert_rows_of _ (Store.rows (Store.generated []))) with (@nil AlertEntry) in Hrun.
  rewrite sort_values_nil in Hrun by done.
  do 2 eexists. split; [exact Hrun|].
  by rewrite lookup_app_r, Nat.add_comm, Nat.add_sub by lia.
Qed.

Lemma numeric_empty_frame_gives_zero_witness :
  build_alert_panel sort_values_merge [] = [] ∧
  (estimate_financial_impact (build_alert_panel sort_values_merge []) == 0)%Q ∧
  ∃ p s', Store.run_pipeline sort_values_merge 0 [Store.DF (Store.generated [])]
          = Store.Ok (p, (0 # 100)%Q, s') ∧
          s' !! p = Some (Store.Panel []).
Proof.
  apply (@numeric_empty_frame_gives_zero sort_values_merge sort_values_merge_ok
           [Store.DF (Store.generated [])] 0).
  reflexivity.
Defined.

(** The frame without rows that [pd.DataFrame([], columns=...)] builds has
    columns of dtype object: [build_alert_panel] returns an empty panel
    whose impact column has that dtype. *)
Lemma store_build_alert_panel_object sort_values `{!SortValues sort_values}
    (s : list Store.object) l :
  s !! l = Some (Store.DFobject (Store.generated [])) →
  ∃ o1 o2 o3 o4,
    Store.build_alert_panel sort_values l s
    = Store.Ok (length s + 4, s ++ [o1; o2; o3; o4; Store.PanelObject []]).
Proof.
  intros Hl.
  destruct (store_build_alert_panel_dtype sort_values s l Store.Object
              (Store.generated []) Hl eq_refl) as (o1 & o2 & o3 & Hrun).
  cbv zeta in Hrun. rewrite bool_decide_false in Hrun by (by intros [_ ?]).
  change (alert_rows_of _ (Store.rows (Store.generated []))) with (@nil AlertEntry) in Hrun.
  rewrite sort_values_nil in Hrun by done.
  by exists o1, o2, o3, (Store.PanelObject []).
Qed.

(** C6 fails on the empty panel of an empty frame with columns of dtype
    object: the sum of its impact column is the Python int 0, which has no
    [round], and [estimate_financial_impact] raises instead of returning
    0.00. *)
Theorem estimate_fails_on_object_panel sort_values `{!SortValues sort_values}
    (s : list Store.object) l :
  s !! l = Some (Store.DFobject (Store.generated [])) →
  ∃ p s',
    Store.build_alert_panel sort_values l s = Store.Ok (p, s') ∧
    s' !! p = Some (Store.PanelObject []) ∧
    Store.estimate_financial_impact p s'
    = Store.Raise (Store.AttributeError "round").
Proof.
  intros Hl.
  destruct (store_build_alert_panel_object sort_values s l Hl)
    as (o1 & o2 & o3 & o4 & Hrun).
  do 2 eexists. split; [exact Hrun|]. split.
  - by rewrite lookup_app_r, Nat.add_comm, Nat.add_sub by lia.
  - by apply (store_estimate_object s _ 4 []).
Qed.

Lemma estimate_fails_on_object_panel_witness :
  ∃ p s',
    Store.build_alert_panel sort_values_merge 0
      [Store.DFobject (Store.generated [])] = Store.Ok (p, s') ∧
    s' !! p = Some (Store.PanelObject []) ∧
    Store.estimate_financial_impact p s'
    = Store.Raise (Store.AttributeError "round").
Proof.
  apply (@estimate_fails_on_object_panel sort_values_merge sort_values_merge_ok
           [Store.DFobject (Store.generated [])] 0).
  reflexivity.
Defined.

(** ** Records with a missing quantity *)

(** C7, as stated, fails: a frame holding a record without quantity is
    run to the end and a panel is returned. *)
Lemma malformed_record_counterexample :
  ¬ (∀ sort_values, SortValues sort_values →
     ∀ (s : list Store.object) l fr,
       s !! l = Some (Store.DF fr) →
       Store.index fr = seq 0 (length (Store.rows fr)) →
       (∃ r, r ∈ Store.rows fr ∧ qtd r = None) →
       ∃ e, Store.run_pipeline sort_values l s = Store.Raise e).
Proof.
  intros H.
  destruct (H sort_values_merge sort_values_merge_ok
              [Store.DF (Store.generated df_missing)] 0%nat
              (Store.generated df_missing) eq_refl eq_refl) as [e He].
  - exists (movement 7 "U01" "MAT-001" "saida" None (25 # 2)).
    split; [|done]. unfold df_missing. apply elem_of_app. right. by left.
  - destruct (store_run_pipeline sort_values_merge
                [Store.DF (Store.generated df_missing)] 0
                (Store.generated df_missing) eq_refl eq_refl)
      as (o1 & o2 & o3 & Hrun).
    rewrite Hrun in He. discriminate He.
Qed.

Lemma missing_quantity_unflagged df i r t k :
  df !! i = Some r → qtd r = None →
  calc_zscore_flags df t !! i = Some false ∧
  calc_iqr_flags df k !! i = Some false.
Proof.
  intros Hi Hq.
  rewrite (calc_zscore_flags_lookup _ _ _ _ Hi), (calc_iqr_flags_lookup _ _ _ _ Hi).
  unfold zscore_flag_at, iqr_flag_at, record_zscore. rewrite Hq.
  by destruct (isconst _).
Qed.

(** C7, as amended: a record whose quantity is missing does not make the
    run fail.  The run returns a panel; the record is flagged by neither
    detector, whatever the threshold and the multiplier, and is not
    reported: a row the panel holds under its label is a blank row, of a
    frame without flagged rows. *)
Theorem missing_quantity_is_skipped sort_values `{!SortValues sort_values}
    (s : list Store.object) l fr :
  s !! l = Some (Store.DF fr) →
  Store.index fr = seq 0 (length (Store.rows fr)) →
  ∃ p t s' panel,
    Store.run_pipeline sort_values l s = Store.Ok (p, t, s') ∧
    s' !! p = Some (Store.Panel panel) ∧
    (∀ i r, Store.rows fr !! i = Some r → qtd r = None →
       (∀ t k, calc_zscore_flags (Store.rows fr) t !! i = Some false ∧
               calc_iqr_flags (Store.rows fr) k !! i = Some false) ∧
       (∀ e, e ∈ panel → a_index e = i → blank e)).
Proof.
  intros Hl Hidx.
  destruct (store_run_pipeline sort_values s l fr Hl Hidx)
    as (o1 & o2 & o3 & Hrun).
  do 4 eexists. split; [exact Hrun|].
  split; [by rewrite lookup_app_r, Nat.add_comm, Nat.add_sub by lia|].
  intros i r Hi Hq. split.
  - intros t k. by apply (missing_quantity_unflagged _ _ r).
  - intros e He <-. rewrite sort_values_perm in He.
    apply alert_rows_of_elem_of in He as [[_ He]|(_ & _ & ->)];
      [|apply reindexed_entry_blank].
    apply flagged_rows_elem_of in He as (r' & Hr' & Hany & _).
    rewrite Hi in Hr'. injection Hr' as <-.
    destruct (flagged_has_qtd _ _ Hany) as [q Hq']. congruence.
Qed.

Lemma missing_quantity_is_skipped_witness :
  ∃ p t s' panel,
    Store.run_pipeline sort_values_merge 0 [Store.DF (Store.generated df_missing)]
    = Store.Ok (p, t, s') ∧
    s' !! p = Some (Store.Panel panel) ∧
    (∀ i r, df_missing !! i = Some r → qtd r = None →
       (∀ t k, calc_zscore_flags df_missing t !! i = Some false ∧
               calc_iqr_flags df_missing k !! i = Some false) ∧
       (∀ e, e ∈ panel → a_index e = i → blank e)).
Proof.
  apply (@missing_quantity_is_skipped sort_values_merge sort_values_merge_ok
           [Store.DF (Store.generated df_missing)] 0
           (Store.generated df_missing)); reflexivity.
Defined.

(** * Further properties of the pipeline *)

(** ** The panel as a table of rows *)

Lemma flagged_rows_index int64 df :
  a_index <$> flagged_rows int64 df
  = f_index <$> filter (λ fr, flag_any fr = true) (set_flags df).
Proof.
  unfold flagged_rows. rewrite <- list_fmap_compose. by apply list_fmap_ext.
Qed.

Lemma NoDup_fmap_filter {A B} (f : A → B) (P : A → Prop)
    `{!∀ x, Decision (P x)} (l : list A) :
  NoDup (f <$> l) → NoDup (f <$> filter P l).
Proof.
  induction l as [|x l IH]; [done|].
  rewrite fmap_cons, filter_cons. intros [Hx Hl]%NoDup_cons.
  destruct (decide (P x)); [|by apply IH].
  rewrite fmap_cons. apply NoDup_cons. split; [|by apply IH].
  intros (y & Hy & Hin)%list_elem_of_fmap. apply Hx.
  apply list_elem_of_fmap. exists y. split; [done|].
  by apply list_elem_of_filter in Hin as [_ Hin].
Qed.

Lemma length_filter_fmap {A} (h : A → bool) (l : list A) :
  length (filter (λ x, h x = true) l) = length (filter (λ b, b = true) (h <$> l)).
Proof.
  induction l as [|x l IH]; [done|].
  rewrite fmap_cons, !filter_cons.
  destruct (decide (h x = true)); simpl; by rewrite IH.
Qed.

(** No two rows of the panel carry the same label.  When the frame has
    flagged rows the panel has one row for each of them; when it has none,
    the panel has one row for every row of the frame.  It never has more
    rows than the frame. *)
Theorem alert_panel_size sort_values `{!SortValues sort_values} df :
  NoDup (a_index <$> build_alert_panel sort_values df) ∧
  (¬ quiet df →
   length (build_alert_panel sort_values df)
   = length (filter (λ b, b = true) (flag_any_column df))) ∧
  (quiet df → length (build_alert_panel sort_values df) = length df) ∧
  length (build_alert_panel sort_values df) ≤ length df.
Proof.
  pose proof (sort_values_perm (alert_rows df)) as Hperm.
  destruct (set_flags_columns df) as (Hidx & _ & _ & _ & Hany).
  fold (flag_any_column df) in Hany.
  assert (length (flagged_rows (int64_qtd df) df)
          = length (filter (λ b, b = true) (flag_any_column df))) as Hlen.
  { unfold flagged_rows. by rewrite length_fmap, length_filter_fmap, Hany. }
  assert (length (filter (λ b, b = true) (flag_any_column df)) ≤ length df) as Hle.
  { etransitivity; [apply length_filter|]. by rewrite length_flag_any_column. }
  unfold build_alert_panel. rewrite !Hperm. unfold alert_rows.
  destruct (decide (quiet df)) as [Hq|Hq].
  - rewrite (alert_rows_of_quiet _ _ Hq).
    rewrite <- list_fmap_compose, length_fmap, length_seq.
    split; [|done].
    rewrite (list_fmap_ext _ (λ i, i) (seq 0 (length df))) by done.
    rewrite list_fmap_id. apply NoDup_seq.
  - rewrite (alert_rows_of_flagged _ _ Hq), Hlen.
    split; [|split; [done|split; [done|lia]]].
    rewrite flagged_rows_index. apply NoDup_fmap_filter.
    rewrite Hidx. apply NoDup_seq.
Qed.

Lemma alert_panel_size_witness :
  NoDup (a_index <$> build_alert_panel sort_values_merge df_quiet) ∧
  (¬ quiet df_quiet →
   length (build_alert_panel sort_values_merge df_quiet)
   = length (filter (λ b, b = true) (flag_any_column df_quiet))) ∧
  (quiet df_quiet →
   length (build_alert_panel sort_values_merge df_quiet) = length df_quiet) ∧
  length (build_alert_panel sort_values_merge df_quiet) ≤ length df_quiet.
Proof.
  exact (@alert_panel_size sort_values_merge sort_values_merge_ok df_quiet).
Defined.

(** Every row of the panel stands for a row of the frame and holds, in
    [zscore], the value of the rounded score column under its label.  In a
    frame with flagged rows it is a flagged row and repeats its date, unit,
    material, kind, quantity and flags; in a frame without it is blank. *)
Theorem alert_entry_origin sort_values `{!SortValues sort_values} df e :
  e ∈ build_alert_panel sort_values df →
  ∃ r, df !! a_index e = Some r ∧
       zscore_column df !! a_index e = Some (a_zscore e) ∧
       ((¬ quiet df ∧ flag_any_column df !! a_index e = Some true ∧
         a_data e = Some (data r) ∧ a_unidade e = Some (unidade r) ∧
         a_material e = Some (material r) ∧ a_tipo e = Some (tipo r) ∧
         a_qtd e = qtd r ∧ is_Some (qtd r) ∧
         a_flag_zscore e = calc_zscore_flags df 3 !! a_index e ∧
         a_flag_iqr e = calc_iqr_flags df (3 # 2) !! a_index e) ∨
        (quiet df ∧ blank e)).
Proof.
  intros He. apply build_alert_panel_elem_of in He; [|done].
  apply alert_rows_of_elem_of in He as [[Hq He]|(Hq & Hlt & He)].
  - apply flagged_rows_elem_of in He as (r & Hr & Hany & He).
    exists r. split; [done|].
    split; [rewrite (zscore_column_lookup _ _ _ Hr); by rewrite He|].
    left. split; [done|].
    rewrite (flag_any_column_lookup _ _ _ Hr), Hany,
      (calc_zscore_flags_lookup _ _ _ _ Hr), (calc_iqr_flags_lookup _ _ _ _ Hr).
    split; [done|]. rewrite He. simpl.
    do 5 (split; [done|]). split; [by eapply flagged_has_qtd|done].
  - destruct (lookup_lt_is_Some_2 df (a_index e) Hlt) as [r Hr].
    exists r. split; [done|]. split.
    + rewrite He at 2. simpl.
      destruct (lookup_lt_is_Some_2 (zscore_column df) (a_index e)) as [z Hz];
        [by rewrite length_zscore_column|].
      by rewrite Hz.
    + right. split; [done|]. rewrite He. apply reindexed_entry_blank.
Qed.

Lemma alert_entry_origin_witness :
  ∃ r, df_ties !! 10%nat = Some r ∧
       zscore_column df_ties !! 10%nat = Some (Some (-224 # 100)%Q) ∧
       ((¬ quiet df_ties ∧ flag_any_column df_ties !! 10%nat = Some true ∧
         Some 1%Z = Some (data r) ∧ Some "U02" = Some (unidade r) ∧
         Some "MAT-001" = Some (material r) ∧ Some "saida" = Some (tipo r) ∧
         Some (-200)%Z = qtd r ∧ is_Some (qtd r) ∧
         Some false = calc_zscore_flags df_ties 3 !! 10%nat ∧
         Some true = calc_iqr_flags df_ties (3 # 2) !! 10%nat) ∨
        (quiet df_ties ∧ blank (scenario_alert 10 "U02"))).
Proof.
  apply (@alert_entry_origin sort_values_merge sort_values_merge_ok
           df_ties (scenario_alert 10 "U02")).
  vm_compute. right. left.
Defined.

(** In a frame that has flagged rows, a record has a row in the panel
    exactly when its combined flag is true. *)
Theorem flagged_rows_decide_panel sort_values `{!SortValues sort_values} df i :
  ¬ quiet df →
  (∃ e, e ∈ build_alert_panel sort_values df ∧ a_index e = i)
  ↔ flag_any_column df !! i = Some true.
Proof.
  intros Hq. split.
  - intros (e & He & <-).
    apply noisy_panel_elem_of, flagged_rows_elem_of in He; [|done..].
    destruct He as (r & Hr & Hany & _).
    by rewrite (flag_any_column_lookup _ _ _ Hr), Hany.
  - intros Hany.
    assert (is_Some (df !! i)) as [r Hr].
    { apply lookup_lt_is_Some. rewrite <- length_flag_any_column.
      by eapply lookup_lt_Some. }
    rewrite (flag_any_column_lookup _ _ _ Hr) in Hany. injection Hany as Hany.
    exists (alert_of (int64_qtd df) df i r). split; [|done].
    apply noisy_panel_elem_of; [done..|].
    apply flagged_rows_elem_of. exists r. by simpl.
Qed.

Lemma flagged_rows_decide_panel_witness :
  (∃ e, e ∈ build_alert_panel sort_values_merge df_scenario ∧ a_index e = 6%nat)
  ↔ flag_any_column df_scenario !! 6%nat = Some true.
Proof.
  apply (@flagged_rows_decide_panel sort_values_merge sort_values_merge_ok
           df_scenario 6).
  intros Hq. apply (bool_decide_pack _) in Hq. vm_compute in Hq. exact Hq.
Defined.

(** ** Groups do not see each other *)

(** The flags and the rounded score of a record depend on the frame only
    through the rows of the record's own group: two frames that hold the
    same rows of that group, in the same order, give the record the same
    answers, whatever their other rows are. *)
Theorem flags_depend_on_own_group df df' t k i j r :
  df !! i = Some r → df' !! j = Some r →
  filter (λ r', key_of r' = key_of r) df = filter (λ r', key_of r' = key_of r) df' →
  calc_zscore_flags df t !! i = calc_zscore_flags df' t !! j ∧
  calc_iqr_flags df k !! i = calc_iqr_flags df' k !! j ∧
  zscore_column df !! i = zscore_column df' !! j.
Proof.
  intros Hi Hj Hgroup.
  rewrite (calc_zscore_flags_lookup _ _ _ _ Hi), (calc_zscore_flags_lookup _ _ _ _ Hj),
    (calc_iqr_flags_lookup _ _ _ _ Hi), (calc_iqr_flags_lookup _ _ _ _ Hj),
    (zscore_column_lookup _ _ _ Hi), (zscore_column_lookup _ _ _ Hj).
  unfold zscore_flag_at, iqr_flag_at, record_zscore, group_values, group_col.
  by rewrite Hgroup.
Qed.

Lemma flags_depend_on_own_group_witness :
  calc_zscore_flags df_scenario 3 !! 6%nat
  = calc_zscore_flags (filter (λ r, unidade r = "U01") df_scenario) 3 !! 4%nat ∧
  calc_iqr_flags df_scenario (3 # 2) !! 6%nat
  = calc_iqr_flags (filter (λ r, unidade r = "U01") df_scenario) (3 # 2) !! 4%nat ∧
  zscore_column df_scenario !! 6%nat
  = zscore_column (filter (λ r, unidade r = "U01") df_scenario) !! 4%nat.
Proof.
  apply (flags_depend_on_own_group df_scenario
           (filter (λ r, unidade r = "U01") df_scenario) 3 (3 # 2) 6 4
           (movement 5 "U01" "MAT-001" "saida" (Some (-200)%Z) (25 # 2)));
    vm_compute; reflexivity.
Defined.

(** ** Groups without spread *)

(** A group whose quantities are all identical, in particular a group of a
    single record, is flagged by neither detector, whatever the threshold
    and the multiplier: the interquartile bounds collapse onto the common
    value.  No record of the group is reported: a row the panel holds under
    its label is a blank row, of a frame without flagged rows. *)
Theorem constant_group_unflagged sort_values `{!SortValues sort_values}
    df t k i r :
  df !! i = Some r →
  (length (group_values df (key_of r)) ≤ 1 ∨
   ∀ v w, v ∈ group_values df (key_of r) → w ∈ group_values df (key_of r) → v = w) →
  calc_zscore_flags df t !! i = Some false ∧
  calc_iqr_flags df k !! i = Some false ∧
  (∀ e, e ∈ build_alert_panel sort_values df → a_index e = i →
        quiet df ∧ blank e).
Proof.
  intros Hi Hgroup.
  assert (∀ v w, v ∈ group_values df (key_of r) →
                 w ∈ group_values df (key_of r) → v = w) as Hconst.
  { destruct Hgroup as [Hlen|H]; [|done].
    apply isconst_true_iff, isconst_short. lia. }
  split; [|split].
  - rewrite (calc_zscore_flags_lookup _ _ _ _ Hi).
    unfold zscore_flag_at, record_zscore.
    apply isconst_true_iff in Hconst. by rewrite Hconst.
  - by apply (constant_group_iqr_unflagged df k i r).
  - intros e He Hidx. apply build_alert_panel_elem_of in He; [|done].
    apply alert_rows_of_elem_of in He as [[_ He]|(Hq & _ & ->)].
    + destruct (constant_group_not_kept (int64_qtd df) df i r Hi Hconst). eauto.
    + split; [done|apply reindexed_entry_blank].
Qed.

Lemma constant_group_unflagged_witness :
  calc_zscore_flags df_scenario 3 !! 1%nat = Some false ∧
  calc_iqr_flags df_scenario (3 # 2) !! 1%nat = Some false ∧
  (∀ e, e ∈ build_alert_panel sort_values_merge df_scenario → a_index e = 1%nat →
        quiet df_scenario ∧ blank e).
Proof.
  apply (@constant_group_unflagged sort_values_merge sort_values_merge_ok
           df_scenario 3 (3 # 2) 1
           (movement 1 "U02" "MAT-001" "entrada" (Some 5%Z) (25 # 2)) eq_refl).
  right. apply isconst_true_iff. vm_compute. reflexivity.
Defined.

(** ** Thresholds *)

(** Raising the Z-score threshold never adds a flag. *)
Theorem zscore_flags_antitone df t t' i :
  (t <= t')%Q →
  calc_zscore_flags df t' !! i = Some true →
  calc_zscore_flags df t !! i = Some true.
Proof.
  intros Htt H.
  assert (is_Some (df !! i)) as [r Hi].
  { apply lookup_lt_is_Some. rewrite <- (length_calc_zscore_flags df t').
    by eapply lookup_lt_Some. }
  rewrite (calc_zscore_flags_lookup _ t' _ _ Hi) in H.
  rewrite (calc_zscore_flags_lookup _ t _ _ Hi).
  injection H as H. f_equal. unfold zscore_flag_at in *.
  destruct (record_zscore df r) as [s|] eqn:Hs; [|done]. simpl in *.
  pose proof (record_zscore_rad _ _ _ Hs) as Hrad.
  apply (surd_gtb_spec (surd_abs s)) in H; [|done].
  apply (surd_gtb_spec (surd_abs s)); [done|].
  apply Qle_Rle in Htt. lra.
Qed.

Lemma zscore_flags_antitone_witness :
  calc_zscore_flags df_eleven 2 !! 10%nat = Some true.
Proof.
  apply (zscore_flags_antitone df_eleven 2 3 10).
  - vm_compute. discriminate.
  - vm_compute. reflexivity.
Defined.

(** ** The head of the panel *)

Lemma impacto_ge_trans : Transitive impacto_ge.
Proof.
  intros a b c. unfold impacto_ge.
  destruct (impacto a) as [x|], (impacto b) as [y|], (impacto c) as [z|];
    try done.
  intros Hab Hbc. by eapply Qle_trans.
Qed.

(** [painel.head(n)], which the script prints with [n = 10], holds the
    largest impacts: a row left out of the head that has an impact has at
    most the impact of every row of the head, each of which has one; rows
    without impact come last. *)
Theorem head_holds_largest_impacts sort_values `{!SortValues sort_values}
    df n e e' y :
  e ∈ take n (build_alert_panel sort_values df) →
  e' ∈ drop n (build_alert_panel sort_values df) →
  impacto e' = Some y →
  ∃ x, impacto e = Some x ∧ (y <= x)%Q.
Proof.
  intros He He' Hy.
  pose proof (sort_values_sorted (alert_rows df)) as HS.
  apply (@Sorted_StronglySorted _ impacto_ge impacto_ge_trans) in HS.
  fold (build_alert_panel sort_values df) in HS.
  rewrite <- (take_drop n (build_alert_panel sort_values df)) in HS.
  pose proof (StronglySorted_app_1_elem_of _ _ _ _ _ HS He He') as Hge.
  unfold impacto_ge in Hge. rewrite Hy in Hge.
  destruct (impacto e) as [x|]; [eauto|done].
Qed.

Lemma head_holds_largest_impacts_witness :
  ∃ x, impacto (alert_of true df_ranked 10
                  (movement 1 "U02" "MAT-001" "saida" (Some (-200)%Z) (25 # 2)))
       = Some x ∧ (100000 # 100 <= x)%Q.
Proof.
  apply (@head_holds_largest_impacts sort_values_merge sort_values_merge_ok
           df_ranked 1 _
           (alert_of true df_ranked 4
              (movement 1 "U01" "MAT-001" "saida" (Some (-100)%Z) 10))).
  - vm_compute. left.
  - vm_compute. left.
  - vm_compute. reflexivity.
Defined.

(** ** The aggregate impact *)

Lemma sumQ_Permutation l l' : l ≡ₚ l' → (sumQ l == sumQ l')%Q.
Proof.
  induction 1 as [|x l l' _ IH|x y l|l l' l'' _ IH1 _ IH2].
  - reflexivity.
  - by rewrite !sumQ_cons, IH.
  - rewrite !sumQ_cons. generalize (sumQ l). intros q. ring.
  - by rewrite IH1.
Qed.

Lemma omap_Permutation' {A B} (f : A → option B) l l' :
  l ≡ₚ l' → omap f l ≡ₚ omap f l'.
Proof.
  induction 1 as [|x l l' _ IH|x y l|l l' l'' _ IH1 _ IH2]; simpl.
  - done.
  - destruct (f x); [by constructor|done].
  - destruct (f x), (f y); try done. apply perm_swap.
  - by etransitivity.
Qed.

(** The aggregate impact does not depend on the order the sort gives to the
    panel: any two sorts that meet the contract lead to the same total, the
    one of the unsorted rows. *)
Theorem aggregate_independent_of_order sort_values sort_values'
    `{!SortValues sort_values} `{!SortValues sort_values'} df :
  estimate_financial_impact (build_alert_panel sort_values df)
  = estimate_financial_impact (build_alert_panel sort_values' df) ∧
  estimate_financial_impact (build_alert_panel sort_values df)
  = estimate_financial_impact (alert_rows df).
Proof.
  assert (∀ sv, SortValues sv →
            estimate_financial_impact (build_alert_panel sv df)
            = estimate_financial_impact (alert_rows df)) as H.
  { intros sv Hsv. unfold estimate_financial_impact, build_alert_panel.
    apply round2_comp, sumQ_Permutation, omap_Permutation', sort_values_perm. }
  split; [|by apply H]. by rewrite !H.
Qed.

Lemma aggregate_independent_of_order_witness :
  estimate_financial_impact (build_alert_panel sort_values_merge df_ties)
  = estimate_financial_impact (build_alert_panel sort_values_rev df_ties) ∧
  estimate_financial_impact (build_alert_panel sort_values_merge df_ties)
  = estimate_financial_impact (alert_rows df_ties).
Proof.
  exact (@aggregate_independent_of_order sort_values_merge sort_values_rev
           sort_values_merge_ok sort_values_rev_ok df_ties).
Defined.

Lemma round_half_even_nonneg x : (0 <= x)%Q → (0 ≤ round_half_even x)%Z.
Proof.
  intros Hx. unfold round_half_even.
  assert (0 ≤ Qfloor x)%Z as Hf
    by (change 0%Z with (Qfloor 0); by apply Qfloor_resp_le).
  destruct (_ ?= _)%Q; [destruct (Z.even _)|..]; lia.
Qed.

Lemma round2_nonneg x : (0 <= x)%Q → (0 <= round2 x)%Q.
Proof.
  intros Hx. unfold round2, Qle. simpl.
  assert (0 <= x * 100)%Q as H100 by (apply Qmult_le_0_compat; [done|discriminate]).
  pose proof (round_half_even_nonneg _ H100). lia.
Qed.

Lemma total_impacto_nonneg p :
  (∀ e x, e ∈ p → impacto e = Some x → (0 <= x)%Q) → (0 <= total_impacto p)%Q.
Proof.
  induction p as [|e p IH]; intros H; simpl; [done|].
  assert (0 <= total_impacto p)%Q as Hp.
  { apply IH. intros e' x He'. apply H. by right. }
  assert (0 <= default 0%Q (impacto e))%Q as He.
  { destruct (impacto e) as [x|] eqn:Hx; simpl; [|done].
    apply (H e); [by left|done]. }
  replace 0%Q with (0 + 0)%Q by done. by apply Qplus_le_compat.
Qed.

Lemma abs_qtd_nonneg int64 q : q ≠ int64_min → (0 ≤ abs_qtd int64 q)%Z.
Proof.
  intros Hq. unfold abs_qtd.
  destruct (Z.eqb_spec q int64_min) as [->|_]; [done|].
  rewrite andb_false_r. lia.
Qed.

(** With unit costs that are not negative and no quantity equal to the
    least int64, no impact in the panel is negative, whatever the sign of
    the quantity, and neither is the aggregate. *)
Theorem impacts_are_not_negative sort_values `{!SortValues sort_values} df :
  (∀ r, r ∈ df → (0 <= custo_unit r)%Q) →
  (∀ r, r ∈ df → qtd r ≠ Some int64_min) →
  (∀ e x, e ∈ build_alert_panel sort_values df → impacto e = Some x →
          (0 <= x)%Q) ∧
  (0 <= estimate_financial_impact (build_alert_panel sort_values df))%Q.
Proof.
  intros Hcost Hmin.
  assert (∀ e x, e ∈ build_alert_panel sort_values df → impacto e = Some x →
                 (0 <= x)%Q) as Hall.
  { intros e x He Hx. apply build_alert_panel_elem_of in He; [|done].
    destruct (alert_rows_impacto _ _ _ He Hx) as (r & q & Hr & Hq & _ & ->).
    apply list_elem_of_lookup_2 in Hr.
    apply round2_nonneg, Qmult_le_0_compat; [|by apply Hcost].
    replace 0%Q with (inject_Z 0) by done. rewrite <- Zle_Qle.
    apply abs_qtd_nonneg. intros ->. by apply (Hmin r). }
  split; [done|].
  unfold estimate_financial_impact.
  rewrite (round2_comp _ _ (sumQ_total_impacto _)).
  by apply round2_nonneg, total_impacto_nonneg.
Qed.

Lemma impacts_are_not_negative_witness :
  (∀ e x, e ∈ build_alert_panel sort_values_merge df_scenario →
          impacto e = Some x → (0 <= x)%Q) ∧
  (0 <= estimate_financial_impact (build_alert_panel sort_values_merge df_scenario))%Q.
Proof.
  apply (@impacts_are_not_negative sort_values_merge sort_values_merge_ok df_scenario).
  - intros r Hr. apply list_elem_of_In in Hr. simpl in Hr.
    repeat (destruct Hr as [<-|Hr]; [discriminate|]). destruct Hr.
  - intros r Hr. apply list_elem_of_In in Hr. simpl in Hr.
    repeat (destruct Hr as [<-|Hr]; [discriminate|]). destruct Hr.
Defined.

(** ** How far a Z-score can go *)

Lemma sumQ_shift (y : list Z) (c : Q) :
  (sumQ ((λ v, inject_Z v - c) <$> y)
   == sumQ (inject_Z <$> y) - inject_Z (Z.of_nat (length y)) * c)%Q.
Proof.
  induction y as [|v y IH].
  - unfold sumQ. simpl. ring.
  - rewrite !fmap_cons, !sumQ_cons, IH. cbn [length].
    rewrite Nat2Z.inj_succ. unfold Z.succ. rewrite inject_Z_plus.
    generalize (sumQ (inject_Z <$> y)) (inject_Z (Z.of_nat (length y))) (inject_Z v).
    intros s n x. ring.
Qed.

(** The deviations from the mean add up to zero. *)
Lemma deviations_sum_zero (y : list Z) :
  y ≠ [] → (sumQ ((λ v, inject_Z v - mean y) <$> y) == 0)%Q.
Proof.
  intros Hy. rewrite sumQ_shift. unfold mean.
  assert (¬ (inject_Z (Z.of_nat (length y)) == 0)%Q) as Hn.
  { replace 0%Q with (inject_Z 0) by done. rewrite inject_Z_injective.
    destruct y; [done|simpl; lia]. }
  generalize dependent (inject_Z (Z.of_nat (length y))). intros n Hn.
  generalize (sumQ (inject_Z <$> y)). intros s. by field.
Qed.

Lemma cross_term_bound (x : Q) (l : list Q) :
  (2 * x * sumQ l
   <= inject_Z (Z.of_nat (length l)) * (x * x) + sumQ ((λ a, a * a) <$> l))%Q.
Proof.
  induction l as [|a l IH].
  - unfold sumQ. simpl. change (inject_Z (Z.of_nat 0)) with 0%Q. lra.
  - rewrite fmap_cons, !sumQ_cons. cbn [length].
    rewrite Nat2Z.inj_succ. unfold Z.succ. rewrite inject_Z_plus.
    pose proof (Qsq_nonneg (x - a)) as Hsq.
    remember (sumQ ((λ a0 : Q, (a0 * a0)%Q) <$> l)) as T eqn:HT.
    remember (sumQ l) as s eqn:Hs.
    remember (inject_Z (Z.of_nat (length l))) as n eqn:Hn.
    clear HT Hs Hn. change (inject_Z 1) with 1%Q. nra.
Qed.

(** The square of a sum of [m] numbers is at most [m] times the sum of
    their squares. *)
Lemma square_of_sum_bound (l : list Q) :
  (sumQ l * sumQ l
   <= inject_Z (Z.of_nat (length l)) * sumQ ((λ a, a * a) <$> l))%Q.
Proof.
  induction l as [|a l IH].
  - unfold sumQ. simpl. change (inject_Z (Z.of_nat 0)) with 0%Q. lra.
  - pose proof (cross_term_bound a l) as Hc.
    rewrite fmap_cons, !sumQ_cons. cbn [length].
    rewrite Nat2Z.inj_succ. unfold Z.succ. rewrite inject_Z_plus.
    remember (sumQ ((λ a0 : Q, (a0 * a0)%Q) <$> l)) as T eqn:HT.
    remember (sumQ l) as s eqn:Hs.
    remember (inject_Z (Z.of_nat (length l))) as n eqn:Hn.
    clear HT Hs Hn. change (inject_Z 1) with 1%Q. nra.
Qed.

(** No value lies further from the mean than [sqrt (n - 1)] population
    standard deviations: [n d^2 <= (n - 1) S] for the deviation [d] of a
    member and the sum [S] of the squared deviations. *)
Lemma deviation_bound (y : list Z) (q : Z) :
  q ∈ y →
  (inject_Z (Z.of_nat (length y)) * ((inject_Z q - mean y) * (inject_Z q - mean y))
   <= (inject_Z (Z.of_nat (length y)) - 1)
      * sumQ ((λ v, (inject_Z v - mean y) * (inject_Z v - mean y)) <$> y))%Q.
Proof.
  intros Hq.
  assert (y ≠ []) as Hne by (intros ->; by apply elem_of_nil in Hq).
  pose proof (deviations_sum_zero y Hne) as Hzero.
  apply elem_of_Permutation in Hq as [rest Hperm].
  set (mn := mean y) in *.
  assert ((λ v, (inject_Z v - mn) * (inject_Z v - mn))%Q <$> y
          = (λ a : Q, (a * a)%Q) <$> ((λ v, inject_Z v - mn)%Q <$> y)) as ->
    by (by rewrite <- list_fmap_compose).
  assert ((λ v, inject_Z v - mn)%Q <$> y
          ≡ₚ (inject_Z q - mn)%Q :: ((λ v, inject_Z v - mn)%Q <$> rest)) as Hdev
    by (by rewrite Hperm).
  rewrite (sumQ_Permutation _ _ Hdev), sumQ_cons in Hzero.
  rewrite (sumQ_Permutation _ _ (fmap_Permutation (λ a : Q, (a * a)%Q) _ _ Hdev)).
  rewrite fmap_cons, sumQ_cons.
  pose proof (square_of_sum_bound ((λ v, inject_Z v - mn)%Q <$> rest)) as Hcs.
  rewrite length_fmap in Hcs.
  rewrite (Permutation_length Hperm). cbn [length].
  rewrite Nat2Z.inj_succ. unfold Z.succ. rewrite inject_Z_plus.
  assert (0 <= inject_Z (Z.of_nat (length rest)))%Q as Hm
    by (replace 0%Q with (inject_Z 0) by done; rewrite <- Zle_Qle; lia).
  remember (sumQ ((λ a : Q, (a * a)%Q) <$> ((λ v, inject_Z v - mn)%Q <$> rest)))
    as T eqn:HT.
  remember (sumQ ((λ v, inject_Z v - mn)%Q <$> rest)) as s eqn:Hs.
  remember (inject_Z (Z.of_nat (length rest))) as m eqn:Hm'.
  remember (inject_Z q - mn)%Q as d eqn:Hd'.
  clear HT Hs Hm' Hd'. change (inject_Z 1) with 1%Q.
  assert (d == - s)%Q as Hd by lra.
  assert (d * d == s * s)%Q as Hdd by (rewrite Hd; ring).
  nra.
Qed.

(** In exact arithmetic no score exceeds [sqrt (n - 1)] in absolute
    value, [n] being the size of the group: the score taken with the
    population standard deviation exceeds [t] only if [t^2 < n - 1]. *)
Lemma zscore_exact_bound df t i r :
  df !! i = Some r → (0 <= t)%Q →
  calc_zscore_flags df t !! i = Some true →
  (t * t < inject_Z (Z.of_nat (length (group_values df (key_of r)))) - 1)%Q ∧
  ((3 <= t)%Q → 11 ≤ length (group_values df (key_of r))).
Proof.
  intros Hi Ht Hflag.
  rewrite (calc_zscore_flags_lookup _ _ _ _ Hi) in Hflag. injection Hflag as Hflag.
  unfold zscore_flag_at, record_zscore in Hflag.
  set (y := group_values df (key_of r)) in *.
  destruct (isconst y) eqn:Hc; [done|].
  destruct (qtd r) as [q|] eqn:Hq; [|done].
  cbn [cmp2 fmap option_fmap option_map] in Hflag.
  pose proof (own_quantity_in_group _ _ _ _ Hi Hq) as Hin. fold y in Hin.
  pose proof (isconst_false_length _ Hc) as Hlen.
  assert (0 < var 0 y)%Q as Hv by (apply var_pos; [done|lia]).
  pose proof (deviation_bound y q Hin) as Hdev.
  assert (var 0 y * inject_Z (Z.of_nat (length y))
          == sumQ ((λ v, (inject_Z v - mean y) * (inject_Z v - mean y))%Q <$> y))%Q
    as HS.
  { unfold var. rewrite Z.sub_0_r. field.
    replace 0%Q with (inject_Z 0) by done. rewrite inject_Z_injective. lia. }
  rewrite <- HS in Hdev. clear HS.
  unfold surd_gtb, surd_abs, Qdiv_surd, std, surd_sqrt in Hflag.
  cbn [coef rad] in Hflag.
  set (d := (inject_Z q - mean y)%Q) in *.
  set (c := (d / (1 * var 0 y))%Q) in *.
  assert (Qltb (Qabs c) 0 = false) as Hneg.
  { apply not_true_is_false. rewrite Qltb_Qlt. apply Qle_not_lt, Qabs_nonneg. }
  assert (Qltb t 0 = false) as Htneg
    by (apply not_true_is_false; rewrite Qltb_Qlt; by apply Qle_not_lt).
  rewrite Hneg, Htneg in Hflag. cbn [orb] in Hflag. apply Qltb_Qlt in Hflag.
  assert (Qabs c * Qabs c * var 0 y * var 0 y == d * d)%Q as Hcc.
  { rewrite <- Qabs_Qmult, (Qabs_pos (c * c)) by apply Qsq_nonneg.
    unfold c. field. intros E. rewrite E in Hv. by apply Qlt_irrefl in Hv. }
  assert (0 < inject_Z (Z.of_nat (length y)))%Q as Hn
    by (replace 0%Q with (inject_Z 0) by done; rewrite <- Zlt_Qlt; lia).
  assert (t * t < inject_Z (Z.of_nat (length y)) - 1)%Q as Hbound.
  { remember (inject_Z (Z.of_nat (length y))) as n eqn:En.
    remember (var 0 y) as v eqn:Ev. remember (Qabs c) as a eqn:Ea.
    remember (d * d)%Q as D eqn:ED. remember (t * t)%Q as T eqn:ET.
    clear En Ev Ea ED ET.
    destruct (Qlt_le_dec T (n - 1)) as [|Hge]; [done|]. exfalso.
    assert (T * v < a * a * v * v)%Q as H1
      by (by apply Qmult_lt_compat_r).
    rewrite Hcc in H1.
    assert (0 < v * n)%Q as Hvn by nra.
    assert (n * (T * v) < n * D)%Q as H2 by nra.
    assert (0 <= (T - (n - 1)) * (v * n))%Q as H3 by nra.
    nra. }
  split; [exact Hbound|].
  intros H3.
  assert (9 <= t * t)%Q as H9 by nra.
  assert (inject_Z 10 < inject_Z (Z.of_nat (length y)))%Q as H10.
  { change (inject_Z 10) with 10%Q. lra. }
  rewrite <- Zlt_Qlt in H10. lia.
Qed.

(** A record can be flagged by the Z-score only in a large enough
    group: of more than [t^2] values, and of at least 10 values at the
    default threshold 3 or above.  The exact bound is one more in both
    cases ([zscore_exact_bound]); a group of 10 values can reach the score
    3 exactly, where the rounding of the binary64 score decides, and the
    bounds stated leave that case out. *)
Theorem zscore_flag_needs_large_group df t i r :
  df !! i = Some r → (0 <= t)%Q →
  calc_zscore_flags df t !! i = Some true →
  (t * t < inject_Z (Z.of_nat (length (group_values df (key_of r)))))%Q ∧
  ((3 <= t)%Q → 10 ≤ length (group_values df (key_of r))).
Proof.
  intros Hi Ht Hflag.
  destruct (zscore_exact_bound df t i r Hi Ht Hflag) as [Hlt H11].
  split; [lra|]. intros H3. specialize (H11 H3). lia.
Qed.

Lemma zscore_flag_needs_large_group_witness :
  (3 * 3 < inject_Z (Z.of_nat (length (group_values df_eleven ("U01", "MAT-002")))))%Q ∧
  ((3 <= 3)%Q → 10 ≤ length (group_values df_eleven ("U01", "MAT-002"))).
Proof.
  apply (zscore_flag_needs_large_group df_eleven 3 10
           (movement 1 "U01" "MAT-002" "entrada" (Some 50%Z) 10) eq_refl).
  - discriminate.
  - vm_compute. reflexivity.
Defined.

(** ** The interquartile band *)

Lemma nth_sorted (y : list Z) (d : Z) (i j : nat) :
  StronglySorted Z.le y → i ≤ j → j < length y →
  (nth i y d ≤ nth j y d)%Z.
Proof.
  intros HS. revert i j.
  induction HS as [|x l HS IH Hall]; intros i j Hij Hj; simpl in Hj; [lia|].
  destruct i as [|i], j as [|j]; simpl; try lia.
  - rewrite Forall_forall in Hall. apply Hall, list_elem_of_In, nth_In. lia.
  - apply IH; lia.
Qed.

Section Interpolate.
Context (y : list Z) (y0 : Z).
Hypothesis y_sorted : StronglySorted Z.le y.
Hypothesis y_nonempty : 0 < length y.

Local Open Scope Q_scope.

(** Where the interpolation reads the sorted list. *)
Lemma interpolate_position (p : Q) :
  0 <= p → p <= 1 →
  let pos := p * inject_Z (Z.of_nat (length y) - 1) in
  (0 ≤ Qfloor pos ≤ Z.of_nat (length y) - 1)%Z ∧
  inject_Z (Qfloor pos) <= pos ∧ pos < inject_Z (Qfloor pos) + 1.
Proof.
  intros Hp0 Hp1 pos.
  assert (0 <= inject_Z (Z.of_nat (length y) - 1)) as Hn
    by (replace 0 with (inject_Z 0) by done; rewrite <- Zle_Qle; lia).
  assert (0 <= pos) as Hpos0 by (by apply Qmult_le_0_compat).
  assert (pos <= inject_Z (Z.of_nat (length y) - 1)) as Hpos1.
  { unfold pos. remember (inject_Z (Z.of_nat (length y) - 1)) as n. nra. }
  split; [split|split].
  - change 0%Z with (Qfloor 0). by apply Qfloor_resp_le.
  - rewrite <- (Qfloor_Z (Z.of_nat (length y) - 1)). by apply Qfloor_resp_le.
  - apply Qfloor_le.
  - pose proof (Qlt_floor pos) as H. by rewrite inject_Z_plus in H.
Qed.

(** The interpolated value lies between the two order statistics it is
    taken from. *)
Lemma interpolate_between (p : Q) :
  0 <= p → p <= 1 →
  let lo := Z.to_nat (Qfloor (p * inject_Z (Z.of_nat (length y) - 1))) in
  let hi := Nat.min (lo + 1) (length y - 1) in
  inject_Z (nth lo y y0) <= interpolate y y0 p ∧
  interpolate y y0 p <= inject_Z (nth hi y y0).
Proof.
  intros Hp0 Hp1 lo hi.
  destruct (interpolate_position p Hp0 Hp1) as ([Hf0 Hf1] & Hlo & Hhi).
  assert (nth lo y y0 ≤ nth hi y y0)%Z as Hab
    by (apply nth_sorted; [done|unfold hi; lia|unfold hi; lia]).
  rewrite Zle_Qle in Hab. unfold interpolate. fold lo. fold hi.
  remember (inject_Z (nth lo y y0)) as a. remember (inject_Z (nth hi y y0)) as b.
  remember (p * inject_Z (Z.of_nat (length y) - 1)) as pos.
  remember (inject_Z (Qfloor pos)) as f.
  split; nra.
Qed.

(** A larger fraction gives a larger quantile. *)
Lemma interpolate_mono (p p' : Q) :
  0 <= p → p <= p' → p' <= 1 → interpolate y y0 p <= interpolate y y0 p'.
Proof.
  intros Hp0 Hpp Hp1.
  assert (p <= 1) as Hp1' by (by eapply Qle_trans).
  assert (0 <= p') as Hp0' by (by eapply Qle_trans).
  destruct (interpolate_position p Hp0 Hp1') as ([Hf0 Hf1] & Hlo & Hhi).
  destruct (interpolate_position p' Hp0' Hp1) as ([Hf0' Hf1'] & Hlo' & Hhi').
  assert (0 <= inject_Z (Z.of_nat (length y) - 1)) as Hn
    by (replace 0 with (inject_Z 0) by done; rewrite <- Zle_Qle; lia).
  assert (p * inject_Z (Z.of_nat (length y) - 1)
          <= p' * inject_Z (Z.of_nat (length y) - 1)) as Hpos
    by (by apply Qmult_le_compat_r).
  pose proof (Qfloor_resp_le _ _ Hpos) as Hfl.
  destruct (decide (Qfloor (p * inject_Z (Z.of_nat (length y) - 1))
                    = Qfloor (p' * inject_Z (Z.of_nat (length y) - 1)))) as [E|Hne].
  - unfold interpolate. rewrite <- E.
    set (lo := Z.to_nat (Qfloor (p * inject_Z (Z.of_nat (length y) - 1)))).
    set (hi := Nat.min (lo + 1) (length y - 1)).
    assert (nth lo y y0 ≤ nth hi y y0)%Z as Hab
      by (apply nth_sorted; [done|unfold hi; lia|unfold hi; lia]).
    rewrite Zle_Qle in Hab.
    remember (inject_Z (nth lo y y0)) as a. remember (inject_Z (nth hi y y0)) as b.
    remember (p * inject_Z (Z.of_nat (length y) - 1)) as pos.
    remember (p' * inject_Z (Z.of_nat (length y) - 1)) as pos'.
    remember (inject_Z (Qfloor pos)) as f.
    nra.
  - destruct (interpolate_between p Hp0 Hp1') as [_ Hup].
    destruct (interpolate_between p' Hp0' Hp1) as [Hdown _].
    eapply Qle_trans; [exact Hup|]. eapply Qle_trans; [|exact Hdown].
    rewrite <- Zle_Qle. apply nth_sorted; [done|lia|lia].
Qed.
End Interpolate.

Lemma quartiles_ordered (x : list (option Z)) :
  omit_nan x ≠ [] →
  ∃ Q1 Q3, quantile x (25 # 100) = Some Q1 ∧ quantile x (75 # 100) = Some Q3 ∧
           (Q1 <= Q3)%Q.
Proof.
  intros Hne. unfold quantile.
  pose proof (merge_sort_Permutation Z.le (omit_nan x)) as Hperm.
  pose proof (Sorted_merge_sort Z.le (omit_nan x)) as Hsorted.
  apply (Sorted_StronglySorted Z.le) in Hsorted.
  destruct (merge_sort Z.le (omit_nan x)) as [|y0 ys] eqn:E.
  { apply Permutation_nil in Hperm. done. }
  do 2 eexists. split; [done|]. split; [done|].
  apply interpolate_mono; [done|simpl; lia|done..].
Qed.

(** For a multiplier [k] that is not negative the band
    [Q1 - k IQR, Q3 + k IQR] contains the quartiles: Q1 is at most Q3, and a
    record whose quantity lies between them is never flagged by the
    interquartile test. *)
Theorem iqr_band_contains_quartiles df k i r q :
  df !! i = Some r → qtd r = Some q → (0 <= k)%Q →
  ∃ Q1 Q3,
    quantile (group_col df (key_of r)) (25 # 100) = Some Q1 ∧
    quantile (group_col df (key_of r)) (75 # 100) = Some Q3 ∧
    (Q1 <= Q3)%Q ∧
    ((Q1 <= inject_Z q)%Q → (inject_Z q <= Q3)%Q →
     calc_iqr_flags df k !! i = Some false).
Proof.
  intros Hi Hq Hk.
  pose proof (own_quantity_in_group _ _ _ _ Hi Hq) as Hin.
  destruct (quartiles_ordered (group_col df (key_of r))) as (Q1 & Q3 & H1 & H3 & Hle).
  { fold (group_values df (key_of r)). intros E. rewrite E in Hin.
    by apply elem_of_nil in Hin. }
  exists Q1, Q3. split; [done|]. split; [done|]. split; [done|].
  intros Hlo Hhi. rewrite (calc_iqr_flags_lookup _ _ _ _ Hi).
  unfold iqr_flag_at, iqr_flag_of. rewrite Hq, H1, H3. simpl. f_equal.
  apply orb_false_intro; apply not_true_is_false; rewrite Qltb_Qlt;
    apply Qle_not_lt; nra.
Qed.

Lemma iqr_band_contains_quartiles_witness :
  ∃ Q1 Q3,
    quantile (group_col df_scenario ("U01", "MAT-001")) (25 # 100) = Some Q1 ∧
    quantile (group_col df_scenario ("U01", "MAT-001")) (75 # 100) = Some Q3 ∧
    (Q1 <= Q3)%Q ∧
    ((Q1 <= inject_Z 20)%Q → (inject_Z 20 <= Q3)%Q →
     calc_iqr_flags df_scenario (3 # 2) !! 0%nat = Some false).
Proof.
  apply (iqr_band_contains_quartiles df_scenario (3 # 2) 0
           (movement 1 "U01" "MAT-001" "entrada" (Some 20%Z) (25 # 2)) 20
           eq_refl eq_refl).
  discriminate.
Defined.

(** Widening the band never adds a flag: a record flagged with the
    multiplier [k'] is flagged with every smaller multiplier. *)
Theorem iqr_flags_antitone df k k' i :
  (k <= k')%Q →
  calc_iqr_flags df k' !! i = Some true →
  calc_iqr_flags df k !! i = Some true.
Proof.
  intros Hkk H.
  assert (is_Some (df !! i)) as [r Hi].
  { apply lookup_lt_is_Some. rewrite <- (length_calc_iqr_flags df k').
    by eapply lookup_lt_Some. }
  rewrite (calc_iqr_flags_lookup _ k' _ _ Hi) in H.
  rewrite (calc_iqr_flags_lookup _ k _ _ Hi).
  injection H as H. f_equal. unfold iqr_flag_at in *.
  destruct (qtd r) as [q|] eqn:Hq; [|done]. simpl in *.
  pose proof (own_quantity_in_group _ _ _ _ Hi Hq) as Hin.
  destruct (quartiles_ordered (group_col df (key_of r))) as (Q1 & Q3 & H1 & H3 & Hle).
  { fold (group_values df (key_of r)). intros E. rewrite E in Hin.
    by apply elem_of_nil in Hin. }
  unfold iqr_flag_of in *. rewrite H1, H3 in H |- *.
  apply orb_true_iff in H. apply orb_true_iff.
  rewrite !Qltb_Qlt in H |- *.
  destruct H as [H|H]; [left|right]; nra.
Qed.

Lemma iqr_flags_antitone_witness :
  calc_iqr_flags df_scenario 1 !! 6%nat = Some true.
Proof.
  apply (iqr_flags_antitone df_scenario 1 (3 # 2) 6).
  - discriminate.
  - vm_compute. reflexivity.
Defined.

(** ** The record generator *)

Lemma foldl_bind {A B C} (f : A → B → A) (g : C → list B) (a : A) (l : list C) :
  foldl f a (l ≫= g) = foldl (λ a x, foldl f a (g x)) a l.
Proof.
  revert a. induction l as [|x l IH]; intros a; [done|].
  rewrite bind_cons, foldl_app. apply IH.
Qed.

Section SimulateFacts.
Context {G : Type} `{!Generator G}.

Lemma simulate_cell_app c rows (g : G) :
  simulate_cell c.1.1 c.1.2 c.2 (rows, g) = (rows ++ cell_rows c g, cell_rng c g).
Proof.
  unfold cell_rows, cell_rng, simulate_cell.
  destruct (poisson 20 g) as [i g1], (poisson 18 g1) as [o g2],
    (random g2) as [u g3].
  destruct (Qltb u (2 # 100)); [destruct (integers (-150) 150 g3) as [a g4]|];
    cbn [fst snd]; by rewrite <- ?app_assoc.
Qed.

Lemma simulate_rows_cells dates units materials (g : G) :
  simulate_rows dates units materials g =
  foldl (λ st c, simulate_cell c.1.1 c.1.2 c.2 st) ([], g)
        (cells dates units materials).
Proof.
  unfold simulate_rows, cells. rewrite foldl_bind.
  generalize (@nil RawRow, g). induction dates as [|d dates IH]; intros st; [done|].
  cbn [foldl]. rewrite <- IH. f_equal.
  rewrite foldl_bind. clear IH. revert st.
  induction units as [|u units IH]; intros st; [done|].
  cbn [foldl]. rewrite <- IH. f_equal.
  by rewrite foldl_fmap.
Qed.

(** The rows generated are the rows of the cells, one cell after the other;
    what holds of every cell's rows whatever the generator holds of them. *)
Lemma foldl_cells (P : Z * string * string → list RawRow → Prop) l :
  (∀ c (g : G), c ∈ l → P c (cell_rows c g)) →
  ∀ rows (g : G), ∃ news,
    (foldl (λ st c, simulate_cell c.1.1 c.1.2 c.2 st) (rows, g) l).1
      = rows ++ concat news ∧ Forall2 P l news.
Proof.
  induction l as [|c l IH]; intros HP rows g.
  - exists []. split; [by rewrite app_nil_r | constructor].
  - cbn [foldl]. rewrite simulate_cell_app.
    assert (HP' : ∀ c' (g' : G), c' ∈ l → P c' (cell_rows c' g'))
      by (intros; apply HP; by right).
    destruct (IH HP' (rows ++ cell_rows c g) (cell_rng c g)) as (news & E & HF).
    exists (cell_rows c g :: news). split.
    + rewrite E. cbn [concat]. by rewrite <- app_assoc.
    + constructor; [apply HP; left | done].
Qed.

Lemma simulate_rows_concat (P : Z * string * string → list RawRow → Prop)
    dates units materials (g : G) :
  (∀ c (g : G), c ∈ cells dates units materials → P c (cell_rows c g)) →
  ∃ news, (simulate_rows dates units materials g).1 = concat news ∧
          Forall2 P (cells dates units materials) news.
Proof.
  intros HP. rewrite simulate_rows_cells.
  destruct (foldl_cells P _ HP [] g) as (news & E & HF). by exists news.
Qed.

Lemma cell_rows_shape c (g : G) :
  Forall (raw_in_cell c) (cell_rows c g) ∧
  (2 ≤ length (cell_rows c g) ≤ 3)%nat.
Proof.
  unfold cell_rows, simulate_cell.
  destruct (poisson 20 g) as [i g1], (poisson 18 g1) as [o g2],
    (random g2) as [u g3].
  destruct (Qltb u (2 # 100)); [destruct (integers (-150) 150 g3) as [a g4]|];
    cbn [fst snd app length]; (split; [|lia]);
    repeat apply Forall_cons_2; try apply Forall_nil_2;
    unfold raw_in_cell, raw_key; cbn; auto.
Qed.

Lemma cell_rows_qtd `{!GeneratorRanges G} c (g : G) :
  Forall raw_qtd_ok (cell_rows c g).
Proof.
  unfold cell_rows, simulate_cell.
  destruct (poisson 20 g) as [i g1], (poisson 18 g1) as [o g2],
    (random g2) as [u g3].
  destruct (Qltb u (2 # 100)).
  - pose proof (integers_range (-150) 150 g3 eq_refl) as Ha.
    destruct (integers (-150) 150 g3) as [a g4]. cbn [fst snd app] in *.
    repeat apply Forall_cons_2; try apply Forall_nil_2; unfold raw_qtd_ok; cbn;
      first [left; split; [reflexivity|lia] | right; split; [reflexivity|lia]].
  - cbn [fst snd app].
    repeat apply Forall_cons_2; try apply Forall_nil_2; unfold raw_qtd_ok; cbn;
      first [left; split; [reflexivity|lia] | right; split; [reflexivity|lia]].
Qed.

End SimulateFacts.

Lemma concat_elem_of_cells {A} (P : A → RawRow → Prop) (l : list A) news :
  Forall2 (λ c new, Forall (P c) new) l news →
  ∀ r, r ∈ concat news → ∃ c, c ∈ l ∧ P c r.
Proof.
  induction 1 as [|c new l news Hc _ IH]; intros r Hr; cbn [concat] in Hr.
  - by apply elem_of_nil in Hr.
  - apply elem_of_app in Hr as [Hr|Hr].
    + exists c. split; [left|]. by apply (proj1 (Forall_forall _ _) Hc).
    + destruct (IH r Hr) as (c' & ? & ?). exists c'. split; [by right|done].
Qed.

Lemma length_filter_all {A} (P : A → Prop) `{!∀ x, Decision (P x)} (l : list A) :
  Forall P l → length (filter P l) = length l.
Proof.
  induction 1 as [|x l Hx _ IH]; [done|].
  rewrite filter_cons. destruct (decide (P x)); [|done]. cbn. by rewrite IH.
Qed.

Lemma length_filter_none {A} (P : A → Prop) `{!∀ x, Decision (P x)} (l : list A) :
  Forall (λ x, ¬ P x) l → length (filter P l) = 0%nat.
Proof.
  induction 1 as [|x l Hx _ IH]; [done|].
  rewrite filter_cons. by destruct (decide (P x)).
Qed.

Lemma concat_length_cells {A} (l : list A) (news : list (list RawRow)) :
  Forall2 (λ _ new, (2 ≤ length new ≤ 3)%nat) l news →
  (2 * length l ≤ length (concat news) ≤ 3 * length l)%nat.
Proof.
  induction 1 as [|c new l news Hc _ IH]; cbn [concat length]; [lia|].
  rewrite length_app. lia.
Qed.

Lemma concat_count_cells (k : GroupKey) l news :
  Forall2 (λ c new, Forall (raw_in_cell c) new ∧ (2 ≤ length new ≤ 3)%nat) l news →
  (2 * length (filter (λ c : Z * string * string, (c.1.2, c.2) = k) l)
   ≤ length (filter (λ r, raw_key r = k) (concat news))
   ≤ 3 * length (filter (λ c : Z * string * string, (c.1.2, c.2) = k) l))%nat.
Proof.
  induction 1 as [|c new l news [Hc Hn] _ IH]; cbn [concat]; [cbn; lia|].
  rewrite filter_app, length_app, filter_cons.
  destruct (decide ((c.1.2, c.2) = k)) as [E|E].
  - rewrite (length_filter_all (λ r, raw_key r = k) new).
    + cbn [length]. lia.
    + eapply Forall_impl; [exact Hc|]. intros r (_ & Hk & _). by rewrite Hk.
  - rewrite (length_filter_none (λ r, raw_key r = k) new).
    + lia.
    + eapply Forall_impl; [exact Hc|]. intros r (_ & Hk & _) Hr.
      apply E. by rewrite <- Hk.
Qed.

Lemma length_cells dates units materials :
  length (cells dates units materials)
  = (length dates * (length units * length materials))%nat.
Proof.
  unfold cells.
  assert (Hmid : ∀ d : Z,
    length (units ≫= λ u, (λ m, (d, u, m)) <$> materials)
    = (length units * length materials)%nat).
  { intros d. induction units as [|u units IH]; [done|].
    rewrite bind_cons, length_app, IH, length_fmap. cbn [length]. lia. }
  induction dates as [|d dates IH]; [done|].
  rewrite bind_cons, length_app, IH, Hmid. cbn [length]. lia.
Qed.

Lemma count_once (m : string) (l : list string) :
  NoDup l → m ∈ l → length (filter (λ m', m' = m) l) = 1%nat.
Proof.
  induction 1 as [|x l Hx Hl IH]; intros Hm; [by apply elem_of_nil in Hm|].
  rewrite filter_cons. destruct (decide (x = m)) as [->|Hne].
  - cbn [length]. rewrite length_filter_none; [done|].
    apply Forall_forall. intros y Hy ->. by apply Hx.
  - apply elem_of_cons in Hm as [->|Hm]; [done|]. by apply IH.
Qed.

Lemma count_cells dates units materials u m :
  NoDup units → NoDup materials → u ∈ units → m ∈ materials →
  length (filter (λ c : Z * string * string, (c.1.2, c.2) = (u, m))
                 (cells dates units materials)) = length dates.
Proof.
  intros Hu Hm Hiu Him. unfold cells.
  assert (Hin : ∀ d u',
    length (filter (λ c : Z * string * string, (c.1.2, c.2) = (u, m))
                   ((λ m', (d, u', m')) <$> materials))
    = if decide (u' = u) then 1%nat else 0%nat).
  { intros d u'. destruct (decide (u' = u)) as [->|Hne].
    - rewrite <- (count_once m materials Hm Him).
      clear. induction materials as [|x l IH]; [done|].
      rewrite fmap_cons, !filter_cons. cbn [fst snd].
      destruct (decide ((u, x) = (u, m))), (decide (x = m)); simplify_eq;
        cbn [length]; by rewrite IH.
    - apply length_filter_none, Forall_forall.
      intros c Hc. apply list_elem_of_fmap in Hc as (m' & -> & _).
      cbn. intros [=]. done. }
  assert (Hmid : ∀ d,
    length (filter (λ c : Z * string * string, (c.1.2, c.2) = (u, m))
                   (units ≫= λ u', (λ m', (d, u', m')) <$> materials)) = 1%nat).
  { intros d. rewrite <- (count_once u units Hu Hiu).
    clear Hu Hiu. induction units as [|x l IH]; [done|].
    rewrite bind_cons, filter_app, length_app, Hin, IH, filter_cons.
    destruct (decide (x = u)); cbn [length]; lia. }
  induction dates as [|d dates IH]; [done|].
  rewrite bind_cons, filter_app, length_app, Hmid, IH. done.
Qed.

(** *** Identifiers *)

Lemma uint_of_string_format_d w n :
  ∃ d, NilEmpty.uint_of_string (format_d w n) = Some d ∧ Nat.of_uint d = n.
Proof.
  unfold format_d.
  assert (H : ∃ d, NilEmpty.uint_of_string
                     (NilZero.string_of_uint (Nat.to_uint n)) = Some d ∧
                   Nat.of_uint d = n).
  { pose proof (Unsigned.of_to n) as Hn.
    destruct (Nat.to_uint n) as [| | | | | | | | | |] eqn:E;
      [exists (Decimal.D0 Decimal.Nil); split; [reflexivity|exact Hn]|..];
      (eexists; split; [apply NilEmpty.usu|exact Hn]). }
  destruct H as (d & Hd & Hn).
  generalize (w - String.length (NilZero.string_of_uint (Nat.to_uint n)))%nat.
  revert Hd. generalize (NilZero.string_of_uint (Nat.to_uint n)).
  intros s Hd k. induction k as [|k (d' & Hd' & Hn')]; [by exists d|].
  exists (Decimal.D0 d'). split; [|exact Hn'].
  change (uint_of_char (Ascii.ascii_of_nat 48)
            (NilEmpty.uint_of_string
               (String.string_of_list_ascii (replicate k (Ascii.ascii_of_nat 48))
                +:+ s)) = Some (Decimal.D0 d')).
  rewrite Hd'. reflexivity.
Qed.

Lemma format_d_inj w n n' : format_d w n = format_d w n' → n = n'.
Proof.
  intros E.
  destruct (uint_of_string_format_d w n) as (d & Hd & <-).
  destruct (uint_of_string_format_d w n') as (d' & Hd' & <-).
  rewrite E in Hd. congruence.
Qed.

Lemma names_distinct (prefix : string) (w n : nat) :
  NoDup ((λ u, prefix +:+ format_d w (u + 1)) <$> seq 0 n).
Proof.
  apply NoDup_fmap_2_strong; [|apply NoDup_seq].
  intros u u' _ _ E.
  assert (format_d w (u + 1) = format_d w (u' + 1)) as E'%format_d_inj; [|lia].
  clear -E. induction prefix as [|a p IH]; [exact E|].
  cbn [String.append] in E. injection E as E. by apply IH.
Qed.

Lemma elem_of_date_range today days d :
  d ∈ date_range today days → (today - Z.of_nat days < d ≤ today)%Z.
Proof.
  unfold date_range. intros (i & -> & Hi)%list_elem_of_fmap.
  apply elem_of_seq in Hi. lia.
Qed.

Lemma elem_of_cells dates units materials c :
  c ∈ cells dates units materials →
  c.1.1 ∈ dates ∧ c.1.2 ∈ units ∧ c.2 ∈ materials.
Proof.
  unfold cells. intros (d & Hc & Hd)%list_elem_of_bind.
  apply list_elem_of_bind in Hc as (u & Hc & Hu).
  apply list_elem_of_fmap in Hc as (m & -> & Hm). done.
Qed.

(** *** The cost map *)

Section CostFacts.
Context {G : Type} `{!Generator G}.

Lemma draw_costs_fold_dom materials (cm0 : gmap string Q) (g : G) m :
  m ∈ materials ∨ is_Some (cm0 !! m) →
  is_Some ((foldl (λ '(cost_map, rng) mat,
                     let '(c, rng) := uniform 5 40 rng in
                     (<[mat:=c]> cost_map, rng))
                  (cm0, g) materials).1 !! m).
Proof.
  revert cm0 g. induction materials as [|x l IH]; intros cm0 g [Hm|Hm].
  - by apply elem_of_nil in Hm.
  - done.
  - cbn [foldl]. destruct (uniform 5 40 g) as [c g1]. apply IH.
    apply elem_of_cons in Hm as [->|Hm]; [right|by left].
    by rewrite lookup_insert_eq.
  - cbn [foldl]. destruct (uniform 5 40 g) as [c g1]. apply IH. right.
    apply lookup_insert_is_Some'. by right.
Qed.

Lemma draw_costs_fold_lookup materials (cm0 : gmap string Q) (g : G) m c :
  (foldl (λ '(cost_map, rng) mat,
            let '(c, rng) := uniform 5 40 rng in
            (<[mat:=c]> cost_map, rng))
         (cm0, g) materials).1 !! m = Some c →
  cm0 !! m = Some c ∨ ∃ g' : G, c = (uniform 5 40 g').1.
Proof.
  revert cm0 g. induction materials as [|x l IH]; intros cm0 g H; [by left|].
  cbn [foldl] in H. destruct (uniform 5 40 g) as [c1 g1] eqn:E.
  apply IH in H as [H|H]; [|by right].
  apply lookup_insert_Some in H as [[_ <-]|[_ H]]; [right|by left].
  exists g. by rewrite E.
Qed.

Lemma draw_costs_dom materials (g : G) m :
  m ∈ materials → is_Some ((draw_costs materials g).1 !! m).
Proof. intros Hm. apply draw_costs_fold_dom. by left. Qed.

Lemma draw_costs_range `{!GeneratorRanges G} materials (g : G) m c :
  (draw_costs materials g).1 !! m = Some c → (5 <= c)%Q ∧ (c < 40)%Q.
Proof.
  intros [H|[g' ->]]%draw_costs_fold_lookup.
  - by rewrite lookup_empty in H.
  - by apply uniform_range.
Qed.

End CostFacts.

Lemma attach_cost_Some cm raw r :
  attach_cost cm raw = Some r →
  cm !! raw_material raw = Some (custo_unit r) ∧
  data r = raw_data raw ∧ key_of r = raw_key raw ∧ tipo r = raw_tipo raw ∧
  qtd r = Some (raw_qtd raw) ∧
  valor_movto r = Some (inject_Z (raw_qtd raw) * custo_unit r)%Q.
Proof.
  unfold attach_cost. destruct (cm !! raw_material raw) as [c|]; [|done].
  cbn. intros [= <-]. done.
Qed.

Lemma attach_cost_group_values cm l df k :
  Forall2 (λ raw r, attach_cost cm raw = Some r) l df →
  length (group_values df k) = length (filter (λ r, raw_key r = k) l).
Proof.
  unfold group_values, group_col, omit_nan.
  induction 1 as [|raw r l df Hr _ IH]; [done|].
  apply attach_cost_Some in Hr as (_ & _ & Hk & _ & Hq & _).
  rewrite !filter_cons, Hk.
  destruct (decide (raw_key raw = k)); [|done].
  rewrite fmap_cons, Hq. cbn. by rewrite IH.
Qed.

Lemma attach_cost_sorted cm l df :
  Forall2 (λ raw r, attach_cost cm raw = Some r) l df →
  Sorted (λ a b, (raw_data a ≤ raw_data b)%Z) l →
  Sorted (λ a b : MovementRecord, (data a ≤ data b)%Z) df.
Proof.
  induction 1 as [|raw r l df Hr Hl IH]; intros HS; [constructor|].
  apply Sorted_inv in HS as [HS Hhd]. constructor; [by apply IH|].
  destruct Hl as [|raw' r' l df Hr' _]; constructor.
  apply HdRel_inv in Hhd.
  apply attach_cost_Some in Hr as (_ & -> & _).
  apply attach_cost_Some in Hr' as (_ & -> & _). done.
Qed.

(** *** The frame [simulate_data] returns *)

Section SimulateDataFacts.
Context {G : Type} `{!Generator G}.
Context (sort_by_data : list RawRow → list RawRow) `{!SortByData sort_by_data}.

Lemma simulate_data_unfold today n_units n_materials days seed :
  simulate_data sort_by_data today n_units n_materials days seed
  = mapM (attach_cost (simulated_costs today n_units n_materials days seed))
         (sort_by_data (simulated_rows today n_units n_materials days seed)).
Proof.
  unfold simulate_data, simulated_costs, simulated_rows.
  destruct (simulate_rows _ _ _ _) as [rows g].
  by destruct (draw_costs _ _).
Qed.

Lemma simulated_rows_cells today n_units n_materials days seed :
  ∃ news,
    simulated_rows today n_units n_materials days seed = concat news ∧
    Forall2 (λ c new, Forall (raw_in_cell c) new ∧ (2 ≤ length new ≤ 3)%nat)
            (cells (date_range today days) (unit_names n_units)
                   (material_names n_materials)) news.
Proof.
  apply simulate_rows_concat. intros c g _. apply cell_rows_shape.
Qed.

Lemma simulated_rows_in_cell today n_units n_materials days seed raw :
  raw ∈ simulated_rows today n_units n_materials days seed →
  (today - Z.of_nat days < raw_data raw ≤ today)%Z ∧
  raw_unidade raw ∈ unit_names n_units ∧
  raw_material raw ∈ material_names n_materials ∧
  (raw_tipo raw = "entrada" ∨ raw_tipo raw = "saida").
Proof.
  destruct (simulated_rows_cells today n_units n_materials days seed)
    as (news & -> & HF).
  intros Hr.
  assert (HF' : Forall2 (λ c new, Forall (raw_in_cell c) new)
                  (cells (date_range today days) (unit_names n_units)
                         (material_names n_materials)) news).
  { eapply Forall2_impl; [exact HF|]. by intros ?? [? _]. }
  destruct (concat_elem_of_cells raw_in_cell _ news HF' raw Hr)
    as (c & Hc & Hd & Hk & Ht).
  apply elem_of_cells in Hc as (Hcd & Hcu & Hcm).
  unfold raw_key in Hk. injection Hk as Hu Hm.
  rewrite Hd, Hu, Hm. split; [by apply elem_of_date_range|done].
Qed.

Lemma simulated_rows_qtd `{!GeneratorRanges G}
    today n_units n_materials days seed raw :
  raw ∈ simulated_rows today n_units n_materials days seed → raw_qtd_ok raw.
Proof.
  unfold simulated_rows.
  destruct (simulate_rows_concat (λ _ new, Forall raw_qtd_ok new)
              (date_range today days) (unit_names n_units)
              (material_names n_materials) (default_rng seed))
    as (news & -> & HF).
  { intros c g _. apply cell_rows_qtd. }
  intros Hr.
  by destruct (concat_elem_of_cells (λ _ r, raw_qtd_ok r) _ news HF raw Hr)
    as (_ & _ & ?).
Qed.

Lemma simulate_data_Some today n_units n_materials days seed :
  ∃ df, simulate_data sort_by_data today n_units n_materials days seed = Some df.
Proof.
  rewrite simulate_data_unfold. apply mapM_is_Some_2, Forall_forall.
  intros raw Hraw. rewrite sort_by_data_perm in Hraw.
  apply simulated_rows_in_cell in Hraw as (_ & _ & Hm & _).
  apply (draw_costs_dom _
           (simulate_rows (date_range today days) (unit_names n_units)
              (material_names n_materials) (default_rng seed)).2) in Hm.
  destruct Hm as [c Hc]. unfold compose, attach_cost, simulated_costs.
  rewrite Hc. by eexists.
Qed.

Lemma simulate_data_rows today n_units n_materials days seed df :
  simulate_data sort_by_data today n_units n_materials days seed = Some df →
  Forall2 (λ raw r,
             attach_cost (simulated_costs today n_units n_materials days seed) raw
             = Some r)
          (sort_by_data (simulated_rows today n_units n_materials days seed)) df.
Proof. rewrite simulate_data_unfold. apply mapM_Some_1. Qed.

Lemma simulate_data_elem_of today n_units n_materials days seed df r :
  simulate_data sort_by_data today n_units n_materials days seed = Some df →
  r ∈ df →
  ∃ raw, raw ∈ simulated_rows today n_units n_materials days seed ∧
         attach_cost (simulated_costs today n_units n_materials days seed) raw
         = Some r.
Proof.
  intros HF%simulate_data_rows (i & Hi)%list_elem_of_lookup.
  destruct (Forall2_lookup_r _ _ _ _ _ HF Hi) as (raw & Hraw & Hr).
  exists raw. split; [|done].
  rewrite <- (sort_by_data_perm (simulated_rows _ _ _ _ _)).
  by eapply list_elem_of_lookup_2.
Qed.

End SimulateDataFacts.

#[global] Instance counter_rng_ranges : GeneratorRanges nat.
Proof.
  split.
  - intros g. cbn. unfold Qle, Qlt. cbn.
    pose proof (Nat.mod_upper_bound g 50). lia.
  - intros lo hi g Hlt. cbn.
    pose proof (Z.mod_pos_bound (Z.of_nat g) (hi - lo)). lia.
  - intros lo hi g Hlt. cbn [uniform counter_rng fst].
    assert (0 <= (Z.of_nat (g `mod` 7) # 7))%Q as H0 by (unfold Qle; cbn; lia).
    assert ((Z.of_nat (g `mod` 7) # 7) < 1)%Q as H1.
    { unfold Qlt. cbn. pose proof (Nat.mod_upper_bound g 7). lia. }
    revert H0 H1. generalize (Z.of_nat (g `mod` 7) # 7)%Q. intros x H0 H1.
    split; nra.
Qed.

Lemma raw_data_le_total : Total (λ a b : RawRow, (raw_data a ≤ raw_data b)%Z).
Proof. intros a b. lia. Qed.

#[global] Instance sort_by_data_merge_ok : SortByData sort_by_data_merge.
Proof.
  split; intros l; unfold sort_by_data_merge.
  - apply merge_sort_Permutation.
  - apply Sorted_merge_sort, raw_data_le_total.
Qed.

(** ** What [simulate_data] returns *)

(** [simulate_data] returns a frame whatever the generator draws (every
    row finds its material in the cost map), and the frame holds two or three
    rows for each day, unit and material: none when a count is zero. *)
Theorem simulate_data_size {G : Type} `{!Generator G}
    (sort_by_data : list RawRow → list RawRow) `{!SortByData sort_by_data}
    today n_units n_materials days seed :
  ∃ df,
    simulate_data sort_by_data today n_units n_materials days seed = Some df ∧
    (2 * (days * (n_units * n_materials)) ≤ length df
     ≤ 3 * (days * (n_units * n_materials)))%nat.
Proof.
  destruct (simulate_data_Some sort_by_data today n_units n_materials days seed)
    as [df Hdf].
  exists df. split; [done|].
  apply simulate_data_rows, Forall2_length in Hdf.
  rewrite <- Hdf, (Permutation_length (sort_by_data_perm _)).
  destruct (simulated_rows_cells today n_units n_materials days seed)
    as (news & -> & HF).
  assert (HF' : Forall2 (λ _ new, (2 ≤ length new ≤ 3)%nat)
                  (cells (date_range today days) (unit_names n_units)
                         (material_names n_materials)) news).
  { eapply Forall2_impl; [exact HF|]. by intros ?? [_ ?]. }
  apply concat_length_cells in HF'. rewrite length_cells in HF'.
  unfold date_range, unit_names, material_names in HF'.
  by rewrite !length_fmap, !length_seq in HF'.
Qed.

Lemma simulate_data_size_witness :
  SortByData sort_by_data_merge ∧
  ∃ df,
    simulate_data sort_by_data_merge 100 2 2 2 48 = Some df ∧
    (2 * (2 * (2 * 2)) ≤ length df ≤ 3 * (2 * (2 * 2)))%nat.
Proof.
  split.
  - exact sort_by_data_merge_ok.
  - exact (@simulate_data_size nat counter_rng sort_by_data_merge
             sort_by_data_merge_ok 100 2 2 2 48).
Defined.

(** Every record of a simulated frame lies in the window of [days] days
    that ends today, names a unit and a material of the lists, has a cost in
    [5, 40), a quantity, and the value quantity times cost; an entry has a
    quantity that is not negative, and an exit, anomalies included, one below
    150. *)
Theorem simulated_record_shape {G : Type} `{!Generator G} `{!GeneratorRanges G}
    (sort_by_data : list RawRow → list RawRow) `{!SortByData sort_by_data}
    today n_units n_materials days seed df i r :
  simulate_data sort_by_data today n_units n_materials days seed = Some df →
  df !! i = Some r →
  (today - Z.of_nat days < data r ≤ today)%Z ∧
  unidade r ∈ unit_names n_units ∧
  material r ∈ material_names n_materials ∧
  (5 <= custo_unit r)%Q ∧ (custo_unit r < 40)%Q ∧
  ∃ q, qtd r = Some q ∧
       valor_movto r = Some (inject_Z q * custo_unit r)%Q ∧
       ((tipo r = "entrada" ∧ (0 ≤ q)%Z) ∨ (tipo r = "saida" ∧ (q < 150)%Z)).
Proof.
  intros Hdf Hr%list_elem_of_lookup_2.
  destruct (simulate_data_elem_of _ _ _ _ _ _ _ _ Hdf Hr) as (raw & Hraw & Ha).
  apply attach_cost_Some in Ha as (Hc & Hd & Hk & Ht & Hq & Hv).
  pose proof (simulated_rows_qtd _ _ _ _ _ _ Hraw) as Hok.
  apply simulated_rows_in_cell in Hraw as (Hdate & Hu & Hm & _).
  apply draw_costs_range in Hc as [Hc5 Hc40].
  unfold key_of, raw_key in Hk. injection Hk as Hku Hkm.
  rewrite Hd, Ht, Hku, Hkm.
  split; [done|]. split; [done|]. split; [done|]. split; [done|]. split; [done|].
  exists (raw_qtd raw). done.
Qed.

Lemma simulated_record_shape_witness :
  (100 - Z.of_nat 2 < 99 ≤ 100)%Z ∧
  "U01" ∈ unit_names 2 ∧
  "MAT-001" ∈ material_names 2 ∧
  (5 <= 140 # 7)%Q ∧ (140 # 7 < 40)%Q ∧
  ∃ q, Some (-99)%Z = Some q ∧
       Some (inject_Z (-99) * (140 # 7))%Q = Some (inject_Z q * (140 # 7))%Q ∧
       (("saida" = "entrada" ∧ (0 ≤ q)%Z) ∨ ("saida" = "saida" ∧ (q < 150)%Z)).
Proof.
  exact (@simulated_record_shape nat counter_rng counter_rng_ranges
           sort_by_data_merge sort_by_data_merge_ok 100 2 2 2 48 df_simulated 2
           (movement 99 "U01" "MAT-001" "saida" (Some (-99)%Z) (140 # 7))
           eq_refl eq_refl).
Defined.

(** The unit cost is a function of the material: two records of a
    simulated frame with the same material carry the same cost, whatever
    their unit and date. *)
Theorem simulated_cost_by_material {G : Type} `{!Generator G}
    (sort_by_data : list RawRow → list RawRow) `{!SortByData sort_by_data}
    today n_units n_materials days seed df i j r r' :
  simulate_data sort_by_data today n_units n_materials days seed = Some df →
  df !! i = Some r → df !! j = Some r' →
  material r = material r' → custo_unit r = custo_unit r'.
Proof.
  intros Hdf Hr%list_elem_of_lookup_2 Hr'%list_elem_of_lookup_2 Hm.
  destruct (simulate_data_elem_of _ _ _ _ _ _ _ _ Hdf Hr) as (raw & _ & Ha).
  destruct (simulate_data_elem_of _ _ _ _ _ _ _ _ Hdf Hr') as (raw' & _ & Ha').
  apply attach_cost_Some in Ha as (Hc & _ & Hk & _).
  apply attach_cost_Some in Ha' as (Hc' & _ & Hk' & _).
  unfold key_of, raw_key in Hk, Hk'. injection Hk as _ Hk. injection Hk' as _ Hk'.
  rewrite <- Hk in Hc. rewrite <- Hk', <- Hm in Hc'. congruence.
Qed.

Lemma simulated_cost_by_material_witness :
  custo_unit (movement 99 "U01" "MAT-001" "saida" (Some (-99)%Z) (140 # 7))
  = custo_unit (movement 100 "U02" "MAT-001" "entrada" (Some 22%Z) (140 # 7)).
Proof.
  exact (@simulated_cost_by_material nat counter_rng
           sort_by_data_merge sort_by_data_merge_ok 100 2 2 2 48 df_simulated
           2 14 _ _ eq_refl eq_refl eq_refl eq_refl).
Defined.

(** A simulated frame is in ascending order of date. *)
Theorem simulated_sorted_by_date {G : Type} `{!Generator G}
    (sort_by_data : list RawRow → list RawRow) `{!SortByData sort_by_data}
    today n_units n_materials days seed df :
  simulate_data sort_by_data today n_units n_materials days seed = Some df →
  Sorted (λ a b : MovementRecord, (data a ≤ data b)%Z) df.
Proof.
  intros Hdf%simulate_data_rows.
  eapply attach_cost_sorted; [exact Hdf|]. apply sort_by_data_sorted.
Qed.

Lemma simulated_sorted_by_date_witness :
  Sorted (λ a b : MovementRecord, (data a ≤ data b)%Z) df_simulated.
Proof.
  exact (@simulated_sorted_by_date nat counter_rng
           sort_by_data_merge sort_by_data_merge_ok 100 2 2 2 48 df_simulated
           eq_refl).
Defined.

(** The identifiers [simulate_data] gives to units and to materials are
    pairwise distinct, for every count, also beyond the width they are
    padded to. *)
Theorem identifiers_distinct n :
  NoDup (unit_names n) ∧ length (unit_names n) = n ∧
  NoDup (material_names n) ∧ length (material_names n) = n.
Proof.
  unfold unit_names, material_names.
  rewrite !length_fmap, !length_seq.
  repeat split; apply names_distinct.
Qed.

(** Every pair of a unit and a material of a simulated frame forms a group
    of at least two and at most three quantities per day. *)
Theorem simulated_group_sizes {G : Type} `{!Generator G}
    (sort_by_data : list RawRow → list RawRow) `{!SortByData sort_by_data}
    today n_units n_materials days seed df u m :
  simulate_data sort_by_data today n_units n_materials days seed = Some df →
  u ∈ unit_names n_units → m ∈ material_names n_materials →
  (2 * days ≤ length (group_values df (u, m)) ≤ 3 * days)%nat.
Proof.
  intros Hdf%simulate_data_rows Hu Hm.
  rewrite (attach_cost_group_values _ _ _ (u, m) Hdf).
  assert (filter (λ r, raw_key r = (u, m))
            (sort_by_data (simulated_rows today n_units n_materials days seed))
          ≡ₚ filter (λ r, raw_key r = (u, m))
               (simulated_rows today n_units n_materials days seed))
    as ->%Permutation_length by (by rewrite sort_by_data_perm).
  destruct (simulated_rows_cells today n_units n_materials days seed)
    as (news & -> & HF).
  apply (concat_count_cells (u, m)) in HF.
  rewrite count_cells in HF; [|apply names_distinct..|done|done].
  unfold date_range in HF. by rewrite length_fmap, length_seq in HF.
Qed.

Lemma simulated_group_sizes_witness :
  (2 * 2 ≤ length (group_values df_simulated ("U01", "MAT-001")) ≤ 3 * 2)%nat.
Proof.
  apply (@simulated_group_sizes nat counter_rng
           sort_by_data_merge sort_by_data_merge_ok 100 2 2 2 48 df_simulated
           "U01" "MAT-001" eq_refl); vm_compute; [left | left].
Defined.

(** ** The pipeline on simulated data *)

Lemma round_half_even_between (n m : Z) x :
  (inject_Z n <= x)%Q → (x <= inject_Z m)%Q →
  (n ≤ round_half_even x ≤ m)%Z.
Proof.
  intros Hn Hm. unfold round_half_even. cbv zeta.
  pose proof (Qfloor_le x) as Hf.
  assert (n ≤ Qfloor x)%Z as Hnf
    by (rewrite <- (Qfloor_Z n); by apply Qfloor_resp_le).
  assert (Qfloor x ≤ m)%Z as Hfm
    by (rewrite <- (Qfloor_Z m); by apply Qfloor_resp_le).
  destruct (Qcompare_spec (x - inject_Z (Qfloor x)) (1 # 2)) as [E|E|E].
  - destruct (Z.even (Qfloor x)); [lia|].
    destruct (decide (Qfloor x = m)) as [Em|]; [|lia].
    rewrite Em in E. lra.
  - lia.
  - destruct (decide (Qfloor x = m)) as [Em|]; [|lia].
    rewrite Em in E. lra.
Qed.

(** Simulated costs lie in [5, 40), so every alert raised on a simulated
    frame has an impact of at least 5 and at most 40 times the absolute
    quantity of its record (the least int64, on which [abs] wraps, set
    aside): rounding to cents does not leave that range. *)
Theorem simulated_alert_impact_bounds {G : Type} `{!Generator G}
    `{!GeneratorRanges G}
    (sort_by_data : list RawRow → list RawRow) `{!SortByData sort_by_data}
    (sort_values : list AlertEntry → list AlertEntry) `{!SortValues sort_values}
    today n_units n_materials days seed df i e q :
  simulate_data sort_by_data today n_units n_materials days seed = Some df →
  build_alert_panel sort_values df !! i = Some e →
  a_qtd e = Some q → q ≠ int64_min →
  ∃ v, impacto e = Some v ∧
       (5 * inject_Z (Z.abs q) <= v)%Q ∧ (v <= 40 * inject_Z (Z.abs q))%Q.
Proof.
  intros Hdf He%list_elem_of_lookup_2 Hq Hmin.
  apply build_alert_panel_elem_of in He; [|done].
  apply alert_rows_of_elem_of in He as [[_ He]|(_ & _ & He)];
    [|by rewrite He in Hq].
  apply flagged_rows_elem_of in He as (r & Hr & Hany & He).
  rewrite He in Hq |- *. simpl in Hq |- *.
  apply list_elem_of_lookup_2 in Hr.
  destruct (simulate_data_elem_of _ _ _ _ _ _ _ _ Hdf Hr) as (raw & _ & Ha).
  apply attach_cost_Some in Ha as (Hc & _).
  apply draw_costs_range in Hc as [Hc5 Hc40].
  unfold impact_of. rewrite Hq. simpl.
  assert (abs_qtd (int64_qtd df) q = Z.abs q) as ->.
  { unfold abs_qtd. destruct (Z.eqb_spec q int64_min) as [->|_]; [done|].
    by rewrite andb_false_r. }
  eexists. split; [reflexivity|].
  assert (0 <= inject_Z (Z.abs q))%Q as Hq0
    by (rewrite <- (Zle_Qle 0); lia).
  destruct (round_half_even_between (500 * Z.abs q) (4000 * Z.abs q)
              (inject_Z (Z.abs q) * custo_unit r * 100)) as [Hlo Hhi].
  - rewrite inject_Z_mult. change (inject_Z 500) with 500%Q.
    revert Hq0 Hc5. generalize (inject_Z (Z.abs q)), (custo_unit r).
    intros a c Ha Hc. nra.
  - rewrite inject_Z_mult. change (inject_Z 4000) with 4000%Q.
    revert Hq0 Hc40. generalize (inject_Z (Z.abs q)), (custo_unit r).
    intros a c Ha Hc. nra.
  - unfold round2.
    revert Hlo Hhi. generalize (round_half_even (inject_Z (Z.abs q) * custo_unit r * 100)).
    intros k Hlo Hhi. unfold Qle. cbn. lia.
Qed.

Lemma simulated_alert_impact_bounds_witness :
  ∃ e v,
    build_alert_panel sort_values_merge df_simulated !! 0%nat = Some e ∧
    a_qtd e = Some (-99)%Z ∧ impacto e = Some v ∧
    (5 * inject_Z (Z.abs (-99)) <= v)%Q ∧ (v <= 40 * inject_Z (Z.abs (-99)))%Q.
Proof.
  destruct (build_alert_panel sort_values_merge df_simulated !! 0%nat)
    as [e|] eqn:E; [|vm_compute in E; discriminate E].
  assert (a_qtd e = Some (-99)%Z) as Hq.
  { vm_compute in E. injection E as <-. reflexivity. }
  destruct (@simulated_alert_impact_bounds nat counter_rng counter_rng_ranges
              sort_by_data_merge sort_by_data_merge_ok
              sort_values_merge sort_values_merge_ok
              100 2 2 2 48 df_simulated 0 e (-99) eq_refl E Hq)
    as (v & H); [discriminate|].
  exists e, v. split; [reflexivity|]. split; [exact Hq|exact H].
Defined.

(** ** A simulation without rows *)

Lemma simulate_data_no_rows {G : Type} `{!Generator G}
    (sort_by_data : list RawRow → list RawRow) `{!SortByData sort_by_data}
    today n_units n_materials days seed df :
  (days * (n_units * n_materials) = 0)%nat →
  simulate_data sort_by_data today n_units n_materials days seed = Some df →
  df = [].
Proof.
  intros Hzero Hdf.
  apply simulate_data_rows, Forall2_length in Hdf.
  rewrite (Permutation_length (sort_by_data_perm _)) in Hdf.
  destruct (simulated_rows_cells today n_units n_materials days seed)
    as (news & Hrows & HF).
  assert (HF' : Forall2 (λ _ new, (2 ≤ length new ≤ 3)%nat)
                  (cells (date_range today days) (unit_names n_units)
                         (material_names n_materials)) news).
  { eapply Forall2_impl; [exact HF|]. by intros ?? [_ ?]. }
  apply concat_length_cells in HF'. rewrite length_cells in HF'.
  unfold date_range, unit_names, material_names in HF'.
  rewrite !length_fmap, !length_seq, Hzero, <- Hrows, Hdf in HF'.
  apply length_zero_iff_nil. lia.
Qed.

(** C9 fails on the empty dataset the program itself builds.  With a zero
    count [simulate_data] returns a frame without rows, whose columns have
    dtype object: [build_alert_panel] returns an empty panel, but
    [estimate_financial_impact] raises on it, and so does the run. *)
Theorem zero_count_pipeline_raises {G : Type} `{!Generator G}
    (sort_by_data : list RawRow → list RawRow) `{!SortByData sort_by_data}
    (sort_values : list AlertEntry → list AlertEntry) `{!SortValues sort_values}
    today n_units n_materials days seed df (s : list Store.object) l :
  (days * (n_units * n_materials) = 0)%nat →
  simulate_data sort_by_data today n_units n_materials days seed = Some df →
  s !! l = Some (Store.simulated df) →
  df = [] ∧
  (∃ p s', Store.build_alert_panel sort_values l s = Store.Ok (p, s') ∧
           s' !! p = Some (Store.PanelObject [])) ∧
  Store.run_pipeline sort_values l s
  = Store.Raise (Store.AttributeError "round").
Proof.
  intros Hzero Hdf Hl.
  pose proof (simulate_data_no_rows _ _ _ _ _ _ _ Hzero Hdf) as ->.
  split; [done|]. simpl in Hl.
  destruct (store_build_alert_panel_object sort_values s l Hl)
    as (o1 & o2 & o3 & o4 & Hrun).
  split.
  - do 2 eexists. split; [exact Hrun|].
    by rewrite lookup_app_r, Nat.add_comm, Nat.add_sub by lia.
  - unfold Store.run_pipeline.
    erewrite store_bind by exact Hrun.
    unfold mbind, Store.M_bind.
    by rewrite (store_estimate_object s _ 4 []).
Qed.

Lemma zero_count_pipeline_raises_witness :
  simulate_data sort_by_data_merge 100 4 6 0 42 = Some [] ∧
  (∃ p s', Store.build_alert_panel sort_values_merge 0 [Store.simulated []]
           = Store.Ok (p, s') ∧
           s' !! p = Some (Store.PanelObject [])) ∧
  Store.run_pipeline sort_values_merge 0 [Store.simulated []]
  = Store.Raise (Store.AttributeError "round").
Proof.
  split; [reflexivity|].
  apply (@zero_count_pipeline_raises nat counter_rng
           sort_by_data_merge sort_by_data_merge_ok
           sort_values_merge sort_values_merge_ok
           100 4 6 0 42 [] [Store.simulated []] 0); reflexivity.
Defined.
